(** * Deye Cloud 2 integration: the data-acquisition coordinator

    A shallow embedding of [custom_components/deyecloud2/__init__.py] and of
    the token request of [config_flow.py], with the properties of the
    specification stated and settled against it.

    Conventions of the embedding.
    - A Python [str] is a list of characters; a character is an [ascii], read
      as the code point of the same number (U+0000 to U+00FF).  The character
      classes below (whitespace, line boundaries, lower case, digits) are
      CPython's on that range.
    - A Python [float] is a binary64 number, [spec_float] with precision 53
      and maximal exponent 1024; [float(text)] rounds the decimal numeral
      once, to nearest even, as CPython does.
    - A Python [dict] is an association list in insertion order with unique
      keys; a JSON document is a [pyobj].
    - Code that can raise returns a [result]; code that reads the clock or
      talks to the network passes a [world] along. *)

From Stdlib Require Import List ZArith NArith Ascii String Bool Lia SpecFloat QArith.
Import ListNotations.

Local Open Scope list_scope.
Local Open Scope Z_scope.

(** ** Python text *)

Module PyStr.

Definition str := list ascii.

(** A literal. *)
Definition text (s : string) : str := list_ascii_of_string s.

Definition code (c : ascii) : N := N_of_ascii c.

Definition char_eqb (a b : ascii) : bool := Ascii.eqb a b.

Fixpoint str_eqb (a b : str) : bool :=
  match a, b with
  | [], [] => true
  | x :: a', y :: b' => char_eqb x y && str_eqb a' b'
  | _, _ => false
  end.

(** [x in {..}] for a set of strings. *)
Definition str_in (x : str) (set : list str) : bool := existsb (str_eqb x) set.

(** [str.isspace] of one character: the C0 separators and blanks, U+0085 and
    U+00A0. *)
Definition isspace (c : ascii) : bool :=
  let n := code c in
  ((9 <=? n) && (n <=? 13) || (28 <=? n) && (n <=? 32) || (n =? 133) || (n =? 160))%N.

(** [str.lower] of one character: A-Z, and the Latin-1 capitals U+00C0 to
    U+00DE but for the multiplication sign U+00D7. *)
Definition lower_char (c : ascii) : ascii :=
  let n := code c in
  if ((65 <=? n) && (n <=? 90) || (192 <=? n) && (n <=? 222) && negb (n =? 215))%N
  then ascii_of_N (n + 32) else c.

Definition lower (s : str) : str := map lower_char s.

Fixpoint lstrip (s : str) : str :=
  match s with
  | c :: rest => if isspace c then lstrip rest else s
  | [] => []
  end.

Fixpoint rstrip (s : str) : str :=
  match s with
  | c :: rest =>
      match rstrip rest with
      | [] => if isspace c then [] else [c]
      | kept => c :: kept
      end
  | [] => []
  end.

(** [s.strip()] *)
Definition strip (s : str) : str := rstrip (lstrip s).

(** [ch in s] for one character. *)
Definition contains_char (ch : ascii) (s : str) : bool := existsb (char_eqb ch) s.

(** [s.replace(old, new)] where both are one character long. *)
Definition replace_char (old new : ascii) (s : str) : str :=
  map (fun c => if char_eqb c old then new else c) s.

Definition underscore : ascii := "_"%char.

Definition is_underscore (c : ascii) : bool := char_eqb c underscore.

(** ["__" in s] *)
Fixpoint contains_double_underscore (s : str) : bool :=
  match s with
  | c :: rest =>
      match rest with
      | c' :: _ => is_underscore c && is_underscore c' || contains_double_underscore rest
      | [] => false
      end
  | [] => false
  end.

(** [s.replace("__", "_")]: one scan from the left, occurrences that do not
    overlap. *)
Fixpoint replace_double_underscore (s : str) : str :=
  match s with
  | c :: rest =>
      match rest with
      | c' :: rest' =>
          if is_underscore c && is_underscore c'
          then underscore :: replace_double_underscore rest'
          else c :: replace_double_underscore rest
      | [] => [c]
      end
  | [] => []
  end.

(** [s.split(sep)] for a separator of one character: never empty. *)
Fixpoint split (sep : ascii) (s : str) : list str :=
  match s with
  | [] => [[]]
  | c :: rest =>
      if char_eqb c sep then [] :: split sep rest
      else match split sep rest with
           | piece :: pieces => (c :: piece) :: pieces
           | [] => [[c]]
           end
  end.

(** The line boundaries of [str.splitlines]: LF, VT, FF, CR, FS, GS, RS and
    NEL; CR LF counts once. *)
Definition is_linebreak (c : ascii) : bool :=
  let n := code c in
  ((10 <=? n) && (n <=? 13) || (28 <=? n) && (n <=? 30) || (n =? 133))%N.

Definition CR : ascii := ascii_of_N 13.
Definition LF : ascii := ascii_of_N 10.
Definition TAB : ascii := ascii_of_N 9.

(** [s.splitlines()]: the boundaries are dropped and a final boundary opens
    no further line. *)
Fixpoint splitlines (s : str) : list str :=
  match s with
  | [] => []
  | c :: rest =>
      if is_linebreak c then
        match rest with
        | c' :: rest' =>
            if char_eqb c CR && char_eqb c' LF then [] :: splitlines rest'
            else [] :: splitlines rest
        | [] => [[]]
        end
      else match splitlines rest with
           | line :: lines => (c :: line) :: lines
           | [] => [[c]]
           end
  end.

(** [s[:n]] *)
Definition prefix (n : nat) (s : str) : str := firstn n s.

Definition is_digit (c : ascii) : bool := ((48 <=? code c) && (code c <=? 57))%N.

Definition digit_value (c : ascii) : Z := Z.of_N (code c) - 48.

Definition digit_char (d : Z) : ascii := ascii_of_N (Z.to_N (48 + d)).

(** Decimal numeral of a natural number, most significant digit first. *)
Fixpoint pos_digits (fuel : nat) (n : Z) (acc : str) : str :=
  match fuel with
  | O => acc
  | S fuel' =>
      let acc' := digit_char (n mod 10) :: acc in
      if n <? 10 then acc' else pos_digits fuel' (n / 10) acc'
  end.

(** [str(n)] for an int. *)
Definition str_of_int (n : Z) : str :=
  if n <? 0 then "-"%char :: pos_digits (S (Z.to_nat (Z.log2 (- n)))) (- n) []
  else pos_digits (S (Z.to_nat (Z.log2 n))) n [].

End PyStr.
Import PyStr.

Definition first_char (s : str) : option ascii := hd_error s.

Fixpoint last_char (s : str) : option ascii :=
  match s with
  | [] => None
  | [c] => Some c
  | _ :: rest => last_char rest
  end.

(** ** The value normalizer: [normalize_key] *)

(** The loop [while "__" in key: key = key.replace("__", "_")], run for at
    most [fuel] rounds. *)
Fixpoint collapse_while (fuel : nat) (key : str) : str :=
  match fuel with
  | O => key
  | S fuel' =>
      if contains_double_underscore key
      then collapse_while fuel' (replace_double_underscore key)
      else key
  end.

Definition replaced_chars : list ascii :=
  [" "%char; "/"%char; "-"%char; "("%char; ")"%char].

(** Each round of the loop shortens [key], so [length key] rounds are enough
    ([collapse_while_stable] below). *)
Definition normalize_key (name : str) : str :=
  let key := lower (strip name) in
  let key := fold_left (fun key ch => replace_char ch underscore key) replaced_chars key in
  collapse_while (List.length key) key.

(** The specification's wording of the last step: every run of consecutive
    underscores becomes one underscore. *)
Fixpoint collapse_runs (s : str) : str :=
  match s with
  | c :: rest =>
      match rest with
      | c' :: _ =>
          if is_underscore c && is_underscore c' then collapse_runs rest
          else c :: collapse_runs rest
      | [] => [c]
      end
  | [] => []
  end.

(** The specification's wording of the whole function. *)
Definition normalize_key_spec (name : str) : str :=
  collapse_runs
    (map (fun c => if existsb (char_eqb c) replaced_chars then underscore else c)
         (lower (strip name))).

(** ** Exceptions and results *)

Inductive exn_class :=
| UpdateFailed | ClientError | TimeoutError | ValueError | TypeError
| KeyError | IndexError | AttributeError | OtherException.

(** An exception: its class, the text [str()] gives for it, and the
    exception it was raised [from].  Every class here derives from
    [Exception]. *)
#[warnings="-register-all"]
Inductive exn := Exception (cls : exn_class) (message : str) (cause : option exn).

Definition exn_cls (e : exn) : exn_class := let 'Exception c _ _ := e in c.
Definition exn_str (e : exn) : str := let 'Exception _ m _ := e in m.
Definition exn_cause (e : exn) : option exn := let 'Exception _ _ c := e in c.

Definition exn_class_eqb (a b : exn_class) : bool :=
  match a, b with
  | UpdateFailed, UpdateFailed | ClientError, ClientError
  | TimeoutError, TimeoutError | ValueError, ValueError
  | TypeError, TypeError | KeyError, KeyError | IndexError, IndexError
  | AttributeError, AttributeError | OtherException, OtherException => true
  | _, _ => false
  end.

(** [isinstance(e, aiohttp.ClientError)] *)
Definition is_client_error (e : exn) : bool := exn_class_eqb (exn_cls e) ClientError.

Inductive result (A : Type) :=
| Ok (a : A)
| Raise (e : exn).
Arguments Ok {A} a.
Arguments Raise {A} e.

Definition bind {A B} (r : result A) (k : A -> result B) : result B :=
  match r with
  | Ok a => k a
  | Raise e => Raise e
  end.

Declare Scope py_scope.
Delimit Scope py_scope with py.
Notation "x <- r ;; k" := (bind r (fun x => k))
  (at level 61, r at next level, right associativity) : py_scope.
Local Open Scope py_scope.

(** An exception the interpreter raises; its message is left empty. *)
Definition builtin (c : exn_class) : exn := Exception c [] None.

(** ** Python numbers from text *)

Definition float := spec_float.

Definition binary64_prec : Z := 53.
Definition binary64_emax : Z := 1024.

(** The binary64 number nearest to [(-1)^neg * mantissa * 10^exponent],
    ties to even. *)
Definition decimal_to_float (neg : bool) (mantissa : Z) (exponent : Z) : float :=
  match mantissa with
  | Zpos m =>
      if 0 <=? exponent
      then binary_round binary64_prec binary64_emax neg (Z.to_pos (Zpos m * 10 ^ exponent)) 0
      else SFdiv binary64_prec binary64_emax
             (S754_finite neg m 0)
             (S754_finite false (Z.to_pos (10 ^ (- exponent))) 0)
  | _ => S754_zero neg
  end.

(** The exact value of a finite float. *)
Definition float_value (f : float) : option Q :=
  match f with
  | S754_zero _ => Some 0%Q
  | S754_finite neg m e =>
      let mag := if 0 <=? e then inject_Z (Zpos m * 2 ^ e)
                 else Qmake (Zpos m) (Z.to_pos (2 ^ (- e))) in
      Some (if neg then Qopp mag else mag)
  | _ => None
  end.

(** The white space [int()] and [float()] skip at both ends of a str: the
    C locale's, and the non-ASCII Unicode white space, which the interpreter
    first turns into blanks. *)
Definition is_numeric_space (c : ascii) : bool :=
  let n := code c in
  ((9 <=? n) && (n <=? 13) || (n =? 32) || (n =? 133) || (n =? 160))%N.

Fixpoint lstrip_numeric (s : str) : str :=
  match s with
  | c :: rest => if is_numeric_space c then lstrip_numeric rest else s
  | [] => []
  end.

Fixpoint rstrip_numeric (s : str) : str :=
  match s with
  | c :: rest =>
      match rstrip_numeric rest with
      | [] => if is_numeric_space c then [] else [c]
      | kept => c :: kept
      end
  | [] => []
  end.

(** A whole string of digits with single underscores between them; the
    digits are returned. *)
Fixpoint digitpart (s : str) : option str :=
  match s with
  | [] => None
  | c :: rest =>
      if is_digit c then
        match rest with
        | [] => Some [c]
        | c' :: rest' =>
            if is_underscore c' then option_map (cons c) (digitpart rest')
            else option_map (cons c) (digitpart rest)
        end
      else None
  end.

Definition digits_value (digits : str) : Z :=
  fold_left (fun acc c => 10 * acc + digit_value c) digits 0.

(** [sys.get_int_max_str_digits()], at its default. *)
Definition int_max_str_digits : nat := 4300.

(** An optional sign: whether it is a minus, and the rest. *)
Definition take_sign (s : str) : bool * str :=
  match s with
  | c :: rest =>
      if char_eqb c "-"%char then (true, rest)
      else if char_eqb c "+"%char then (false, rest)
      else (false, s)
  | [] => (false, [])
  end.

(** [int(s)] for a str, base 10. *)
Definition py_int (s : str) : result Z :=
  let '(neg, body) := take_sign (rstrip_numeric (lstrip_numeric s)) in
  match digitpart body with
  | Some digits =>
      if (int_max_str_digits <? List.length digits)%nat then Raise (builtin ValueError)
      else Ok (if neg then - digits_value digits else digits_value digits)
  | None => Raise (builtin ValueError)
  end.

(** The longest prefix of digits, and the rest. *)
Fixpoint span_digits (s : str) : str * str :=
  match s with
  | c :: rest =>
      if is_digit c then let '(ds, tail) := span_digits rest in (c :: ds, tail)
      else ([], s)
  | [] => ([], [])
  end.

(** Underscores in a float literal: each one stands between two digits.
    [prev] is whether the character before was a digit. *)
Fixpoint underscores_ok (prev_digit : bool) (s : str) : bool :=
  match s with
  | c :: rest =>
      if is_underscore c
      then prev_digit && match rest with c' :: _ => is_digit c' | [] => false end
           && underscores_ok false rest
      else underscores_ok (is_digit c) rest
  | [] => true
  end.

Definition remove_underscores (s : str) : str :=
  filter (fun c => negb (is_underscore c)) s.

(** The exponent part of a float literal, which must reach the end of the
    text: nothing, or [e], a sign and digits. *)
Definition float_exponent (s : str) : option Z :=
  match s with
  | [] => Some 0
  | c :: rest =>
      if char_eqb (lower_char c) "e"%char then
        let '(neg, body) := take_sign rest in
        match span_digits body with
        | ((_ :: _) as ds, []) => Some (if neg then - digits_value ds else digits_value ds)
        | _ => None
        end
      else None
  end.

(** [float(s)] for a str. *)
Definition py_float (s : str) : result float :=
  let trimmed := rstrip_numeric (lstrip_numeric s) in
  if negb (underscores_ok false trimmed) then Raise (builtin ValueError) else
  let '(neg, body) := take_sign (remove_underscores trimmed) in
  let name := lower body in
  if str_in name [text "inf"; text "infinity"] then Ok (S754_infinity neg)
  else if str_eqb name (text "nan") then Ok S754_nan
  else
    let '(int_digits, after_int) := span_digits body in
    let '(frac_digits, after_frac) :=
      match after_int with
      | c :: rest => if char_eqb c "."%char then span_digits rest else ([], after_int)
      | [] => ([], [])
      end in
    match int_digits ++ frac_digits, float_exponent after_frac with
    | (_ :: _) as mantissa, Some e =>
        Ok (decimal_to_float neg (digits_value mantissa) (e - Z.of_nat (List.length frac_digits)))
    | _, _ => Raise (builtin ValueError)
    end.

(** ** Python objects, as JSON decoding yields them *)

#[warnings="-register-all"]
Inductive pyobj :=
| PNone
| PBool (b : bool)
| PInt (n : Z)
| PFloat (f : float)
| PStr (s : str)
| PList (items : list pyobj)
| PDict (entries : list (str * pyobj)).

(** [bool(v)] *)
Definition truthy (v : pyobj) : bool :=
  match v with
  | PNone => false
  | PBool b => b
  | PInt n => negb (n =? 0)
  | PFloat (S754_zero _) => false
  | PFloat _ => true
  | PStr s => match s with [] => false | _ => true end
  | PList items => match items with [] => false | _ => true end
  | PDict entries => match entries with [] => false | _ => true end
  end.

(** ** Dictionaries *)

Section Dict.
Context {V : Type}.

(** [d.get(key)] *)
Fixpoint dict_get (d : list (str * V)) (key : str) : option V :=
  match d with
  | (k, v) :: rest => if str_eqb k key then Some v else dict_get rest key
  | [] => None
  end.

(** [d[key] = v]: an existing key keeps its place, a new one goes last. *)
Fixpoint dict_set (d : list (str * V)) (key : str) (v : V) : list (str * V) :=
  match d with
  | (k, old) :: rest =>
      if str_eqb k key then (k, v) :: rest else (k, old) :: dict_set rest key v
  | [] => [(key, v)]
  end.

Definition dict_keys (d : list (str * V)) : list str := map fst d.

End Dict.

(** ** Readings and snapshots *)

(** One entry of a snapshot: [{"name": .., "value": .., "unit": ..}]. *)
Record reading := { name : str; value : pyobj; unit : pyobj }.

Definition snapshot := list (str * reading).

(** ** The text-format parser: [parse_deyecloud_text] *)

(** [parts[i]], which raises [IndexError] out of range. *)
Definition index {A} (l : list A) (i : nat) : result A :=
  match nth_error l i with
  | Some a => Ok a
  | None => Raise (builtin IndexError)
  end.

Definition text_sentinels : list str := [text "nan"; text "inf"; text "-inf"].

(** The body of the [try] that casts [value_str]. *)
Definition text_value_try (value_str : str) : result pyobj :=
  if str_in (lower value_str) text_sentinels then Ok PNone
  else if contains_char "."%char value_str || contains_char "e"%char (lower value_str)
  then f <- py_float value_str ;; Ok (PFloat f)
  else n <- py_int value_str ;; Ok (PInt n).

(** The [try] with its [except Exception]. *)
Definition text_value (value_str : str) : pyobj :=
  match text_value_try value_str with
  | Ok v => v
  | Raise _ => PStr value_str
  end.

(** The fragments of a stripped line: [[p for p in line.split("\t") if p != ""]]. *)
Definition fragments (line : str) : list str :=
  filter (fun p => negb (str_eqb p [])) (split TAB line).

(** One round of the loop over the lines. *)
Definition parse_line (data : snapshot) (line : str) : result snapshot :=
  let line := strip line in
  if negb (truthy (PStr line)) then Ok data else
  let parts := fragments line in
  if (List.length parts <? 2)%nat then Ok data else
  p0 <- index parts 0 ;;
  p1 <- index parts 1 ;;
  let name := strip p0 in
  let value_str := strip p1 in
  unit <- (if (3 <=? List.length parts)%nat
           then p2 <- index parts 2 ;; Ok (PStr (strip p2))
           else Ok PNone) ;;
  let value := text_value value_str in
  let key := normalize_key name in
  Ok (dict_set data key {| name := name; value := value; unit := unit |}).

Fixpoint parse_lines (data : snapshot) (lines : list str) : result snapshot :=
  match lines with
  | [] => Ok data
  | line :: rest => data' <- parse_line data line ;; parse_lines data' rest
  end.

Definition parse_deyecloud_text (raw_text : str) : result snapshot :=
  parse_lines [] (splitlines raw_text).

(** ** SHA-256, as [hashlib.sha256] computes it (FIPS 180-4) *)

Module SHA256.

Definition word (x : Z) : Z := x mod 2 ^ 32.
Definition add (a b : Z) : Z := word (a + b).
Definition rotr (n x : Z) : Z := word (Z.lor (Z.shiftr x n) (Z.shiftl x (32 - n))).
Definition shr (n x : Z) : Z := Z.shiftr x n.
Definition lnot (x : Z) : Z := Z.lxor x (2 ^ 32 - 1).

Definition Ch (x y z : Z) : Z := Z.lxor (Z.land x y) (Z.land (lnot x) z).
Definition Maj (x y z : Z) : Z := Z.lxor (Z.lxor (Z.land x y) (Z.land x z)) (Z.land y z).
Definition Sigma0 (x : Z) : Z := Z.lxor (Z.lxor (rotr 2 x) (rotr 13 x)) (rotr 22 x).
Definition Sigma1 (x : Z) : Z := Z.lxor (Z.lxor (rotr 6 x) (rotr 11 x)) (rotr 25 x).
Definition sigma0 (x : Z) : Z := Z.lxor (Z.lxor (rotr 7 x) (rotr 18 x)) (shr 3 x).
Definition sigma1 (x : Z) : Z := Z.lxor (Z.lxor (rotr 17 x) (rotr 19 x)) (shr 10 x).

(** The largest [r' >= r], reached by adding powers of two below
    [2 ^ bits], whose [k]-th power is at most [n]. *)
Fixpoint root_bits (k : Z) (bits : nat) (n r : Z) : Z :=
  match bits with
  | O => r
  | S b =>
      let r' := r + 2 ^ Z.of_nat b in
      root_bits k b n (if r' ^ k <=? n then r' else r)
  end.

(** The first thirty-two bits of the fractional part of the [k]-th root
    of [p]. *)
Definition fractional_root (k p : Z) : Z :=
  word (root_bits k 40 (p * 2 ^ (32 * k)) 0).

Definition is_prime (n : Z) : bool :=
  forallb (fun d => negb (n mod Z.of_nat d =? 0)) (seq 2 (Z.to_nat n - 2)).

(** The first sixty-four primes. *)
Definition primes : list Z :=
  filter is_prime (map Z.of_nat (seq 2 310)).

(** The round constants: from the cube roots of the primes. *)
Definition K : list Z := map (fractional_root 3) primes.

(** The initial hash value: from the square roots of the first eight
    primes. *)
Definition H0 : list Z := map (fractional_root 2) (firstn 8 primes).

(** The message with its padding: a one bit, zeros, and the length in bits
    on eight bytes. *)
Definition pad (msg : list Z) : list Z :=
  let len := Z.of_nat (List.length msg) in
  let zeros := Z.to_nat ((55 - len) mod 64) in
  msg ++ [0x80] ++ repeat 0 zeros
      ++ map (fun i => (8 * len / 2 ^ (8 * (7 - Z.of_nat i))) mod 256) (seq 0 8).

(** Big-endian 32-bit words of a block. *)
Fixpoint words (bytes : list Z) : list Z :=
  match bytes with
  | a :: b :: c :: d :: rest => (((a * 256 + b) * 256 + c) * 256 + d) :: words rest
  | _ => []
  end.

Fixpoint blocks (fuel : nat) (ws : list Z) : list (list Z) :=
  match fuel, ws with
  | S fuel', _ :: _ => firstn 16 ws :: blocks fuel' (skipn 16 ws)
  | _, _ => []
  end.

Definition at_ (l : list Z) (i : nat) : Z := nth i l 0.

(** The message schedule: sixteen words extended to sixty-four. *)
Fixpoint schedule (n : nat) (w : list Z) : list Z :=
  match n with
  | O => w
  | S n' =>
      let t := List.length w in
      schedule n' (w ++ [add (add (sigma1 (at_ w (t - 2))) (at_ w (t - 7)))
                             (add (sigma0 (at_ w (t - 15))) (at_ w (t - 16)))])
  end.

Definition round (st : list Z) (kw : Z * Z) : list Z :=
  match st with
  | [a; b; c; d; e; f; g; h] =>
      let t1 := add (add (add h (Sigma1 e)) (add (Ch e f g) (fst kw))) (snd kw) in
      let t2 := add (Sigma0 a) (Maj a b c) in
      [add t1 t2; a; b; c; add d t1; e; f; g]
  | _ => st
  end.

Definition compress (h : list Z) (block : list Z) : list Z :=
  let w := schedule 48 block in
  map (fun p => add (fst p) (snd p)) (combine h (fold_left round (combine K w) h)).

Definition word_bytes (w : Z) : list Z :=
  [w / 2 ^ 24; (w / 2 ^ 16) mod 256; (w / 2 ^ 8) mod 256; w mod 256].

(** The digest, thirty-two bytes. *)
Definition digest (msg : list Z) : list Z :=
  let ws := words (pad msg) in
  flat_map word_bytes (fold_left compress (blocks (List.length ws) ws) H0).

End SHA256.

Definition hex_digit (d : Z) : ascii :=
  ascii_of_N (Z.to_N (if d <? 10 then 48 + d else 87 + d)).
(** [.hexdigest()]: two lower-case hexadecimal digits a byte. *)
Definition hexdigest (bytes : list Z) : str :=
  flat_map (fun b => [hex_digit (b / 16); hex_digit (b mod 16)]) bytes.

(** [s.encode()]: UTF-8. *)
Definition encode (s : str) : list Z :=
  flat_map (fun c => let n := Z.of_N (code c) in
                     if n <? 128 then [n] else [192 + n / 64; 128 + n mod 64]) s.

(** ** Objects: attribute and item access *)

(** [obj.get(key, default)]: only a dict has the method. *)
Definition obj_get (obj : pyobj) (key : str) (default : pyobj) : result pyobj :=
  match obj with
  | PDict entries =>
      Ok (match dict_get entries key with Some v => v | None => default end)
  | _ => Raise (builtin AttributeError)
  end.

(** [d[key]] for a dict [d]. *)
Definition dict_index (d : list (str * pyobj)) (key : str) : result pyobj :=
  match dict_get d key with
  | Some v => Ok v
  | None => Raise (builtin KeyError)
  end.

(** [obj[0]] *)
Definition first_item (obj : pyobj) : result pyobj :=
  match obj with
  | PList (x :: _) => Ok x
  | PList [] => Raise (builtin IndexError)
  | PStr (c :: _) => Ok (PStr [c])
  | PStr [] => Raise (builtin IndexError)
  | PDict _ => Raise (builtin KeyError)
  | _ => Raise (builtin TypeError)
  end.

(** What [for item in obj] goes through; [len(obj)] is defined on the same
    objects. *)
Definition iterate (obj : pyobj) : result (list pyobj) :=
  match obj with
  | PList items => Ok items
  | PDict entries => Ok (map (fun kv => PStr (fst kv)) entries)
  | PStr s => Ok (map (fun c => PStr [c]) s)
  | _ => Raise (builtin TypeError)
  end.

Definition is_none (v : pyobj) : bool :=
  match v with PNone => true | _ => false end.

(** [isinstance(v, (int, float))]; a bool is an int. *)
Definition is_number (v : pyobj) : bool :=
  match v with PBool _ | PInt _ | PFloat _ => true | _ => false end.

(** ** Configuration keys and constants *)

Definition CONF_MODE := text "mode".
Definition CONF_URL := text "url".
Definition CONF_TOKEN := text "token".
Definition CONF_APP_ID := text "app_id".
Definition CONF_APP_SECRET := text "app_secret".
Definition CONF_EMAIL := text "email".
Definition CONF_PASSWORD := text "password".
Definition CONF_DEVICE_SN := text "device_sn".
Definition CONF_SERVER := text "server".
Definition SERVER_EU := text "eu1".
Definition MODE_API := text "api".
Definition MODE_DEYE_DIRECT := text "deye_direct".

(** ** The world: clock and network *)

(** A naive [datetime], as a count of microseconds. *)
Definition datetime := Z.

(** [timedelta(hours=1)] *)
Definition one_hour : Z := 3600 * 1000000.

Record request := {
  method : str;
  url : pyobj;
  params : list (str * pyobj);
  json : option pyobj;
  headers : list (str * str);
  timeout : Z
}.

(** A response: its status, and what [resp.text()] and [resp.json()] give
    or raise. *)
Record response := {
  status : Z;
  body_text : result str;
  body_json : result pyobj
}.

(** What a request comes to: a response, or an exception raised by the call
    itself (a transport error, a timeout). *)
Inductive outcome :=
| Responded (resp : response)
| Failed (e : exn).

Record reply := { latency : Z; answer : outcome }.

(** The clock, the requests sent so far, and the network: the reply to the
    n-th request. *)
Record world := {
  clock : datetime;
  sent : list request;
  network : nat -> reply
}.

(** [datetime.now()] *)
Definition now (w : world) : datetime := clock w.

(** One call of the session: the request goes out and the reply comes back
    after its latency. *)
Definition send (req : request) (w : world) : outcome * world :=
  let r := network w (List.length (sent w)) in
  (answer r,
   {| clock := clock w + latency r; sent := sent w ++ [req]; network := network w |}).

(** [asyncio.sleep(seconds)] *)
Definition sleep (seconds : Z) (w : world) : world :=
  {| clock := clock w + seconds * 1000000; sent := sent w; network := network w |}.

(** ** The retry controller *)

(** What the controller does, in order: it calls the operation, or it
    waits. *)
Inductive retry_event :=
| Attempt (attempt : nat)
| Delay (seconds : Z).

Section Retry.
Context {St A : Type}.
Variable operation : St -> result A * St.
Variable delay : Z -> St -> St.
(** The exception raised once the attempts are used up, from the last one
    recorded. *)
Variable terminal : option exn -> exn.
Variable max_retries : nat.
Variable retry_delay : Z.

(** [for attempt in attempts: try: return operation() except Exception ..],
    then the [raise] after the loop. *)
Fixpoint retry_loop (attempts : list nat) (last_exception : option exn) (s : St)
  (log : list retry_event) : result A * St * list retry_event :=
  match attempts with
  | [] => (Raise (terminal last_exception), s, log)
  | attempt :: rest =>
      match operation s with
      | (Ok data, s') => (Ok data, s', log ++ [Attempt attempt])
      | (Raise err, s') =>
          if (attempt <? max_retries - 1)%nat
          then retry_loop rest (Some err) (delay retry_delay s')
                 (log ++ [Attempt attempt; Delay retry_delay])
          else retry_loop rest (Some err) s' (log ++ [Attempt attempt])
      end
  end.

Definition with_retry (s : St) : result A * St * list retry_event :=
  retry_loop (seq 0 max_retries) None s [].

End Retry.

(** [str(last_exception)], also when it is still [None]. *)
Definition str_of_last (last_exception : option exn) : str :=
  match last_exception with
  | Some e => exn_str e
  | None => text "None"
  end.

(** [UpdateFailed(last_exception)] raised [from last_exception]. *)
Definition api_terminal (last_exception : option exn) : exn :=
  Exception UpdateFailed (str_of_last last_exception) last_exception.

(** [UpdateFailed(f"Failed to update after {n} attempts: {last_exception}")]
    raised [from last_exception]. *)
Definition deye_terminal (max_retries : nat) (last_exception : option exn) : exn :=
  Exception UpdateFailed
    (text "Failed to update after " ++ str_of_int (Z.of_nat max_retries)
       ++ text " attempts: " ++ str_of_last last_exception)
    last_exception.

(** [except aiohttp.ClientError as err: raise UpdateFailed(f"{prefix}{err}") from err];
    any other exception passes. *)
Definition reclassify (prefix : str) (e : exn) : exn :=
  if is_client_error e then Exception UpdateFailed (prefix ++ exn_str e) (Some e) else e.

(** ** The coordinator *)

Record coordinator := {
  _config : list (str * pyobj);
  _server : pyobj;
  _mode : pyobj;
  _access_token : pyobj;
  _token_expires_at : option datetime;
  _max_retries : nat;
  _retry_delay : Z
}.

Definition get_or {V} (d : list (str * V)) (key : str) (default : V) : V :=
  match dict_get d key with Some v => v | None => default end.

(** [DeyeCloudCoordinator.__init__] *)
Definition DeyeCloudCoordinator (config : list (str * pyobj)) : coordinator :=
  {| _config := config;
     _server := get_or config CONF_SERVER (PStr SERVER_EU);
     _mode := get_or config CONF_MODE (PStr MODE_DEYE_DIRECT);
     _access_token := PNone;
     _token_expires_at := None;
     _max_retries := 3;
     _retry_delay := 5 |}.

Definition set_token (self : coordinator) (token : pyobj) (expires : datetime) : coordinator :=
  {| _config := _config self;
     _server := _server self;
     _mode := _mode self;
     _access_token := token;
     _token_expires_at := Some expires;
     _max_retries := _max_retries self;
     _retry_delay := _retry_delay self |}.

Section Coordinator.

(** Two renderings of the standard library are taken as given: [repr()] of a
    finite float, a list or a dict, and [datetime.isoformat()]. *)
Variable py_repr : pyobj -> str.
Variable isoformat : datetime -> str.

(** [str(v)], as in an f-string. *)
Definition py_str (v : pyobj) : str :=
  match v with
  | PNone => text "None"
  | PBool true => text "True"
  | PBool false => text "False"
  | PInt n => str_of_int n
  | PFloat S754_nan => text "nan"
  | PFloat (S754_infinity false) => text "inf"
  | PFloat (S754_infinity true) => text "-inf"
  | PStr s => s
  | _ => py_repr v
  end.

(** [len(obj)] *)
Definition py_len (obj : pyobj) : result nat :=
  items <- iterate obj ;; Ok (List.length items).

(** *** Value coercion of the cloud conversion *)

Definition cloud_sentinels : list str :=
  [text "nan"; text "inf"; text "-inf"; text "null"].

(** [float(value)] once numbers and [None] are out of the way: a str is
    parsed, a list or a dict is a [TypeError]. *)
Definition float_of (value : pyobj) : result float :=
  match value with
  | PStr s => py_float s
  | _ => Raise (builtin TypeError)
  end.

(** [int(value)], likewise. *)
Definition int_of (value : pyobj) : result Z :=
  match value with
  | PStr s => py_int s
  | _ => Raise (builtin TypeError)
  end.

(** The body of the [try]. *)
Definition convert_value_try (value : pyobj) : result pyobj :=
  if is_none value || str_in (lower (py_str value)) cloud_sentinels then Ok PNone
  else if is_number value then Ok value
  else if contains_char "."%char (py_str value)
          || contains_char "e"%char (lower (py_str value))
  then f <- float_of value ;; Ok (PFloat f)
  else n <- int_of value ;; Ok (PInt n).

(** The [try] with its [except (ValueError, TypeError)]. *)
Definition convert_value (value : pyobj) : result pyobj :=
  match convert_value_try value with
  | Ok v => Ok v
  | Raise e =>
      if exn_class_eqb (exn_cls e) ValueError || exn_class_eqb (exn_cls e) TypeError
      then Ok (if negb (is_none value) then PStr (py_str value) else PNone)
      else Raise e
  end.

(** *** [_convert_deye_response] *)

(** One round of the loop over the data items. *)
Definition convert_item (data : snapshot) (item : pyobj) : result snapshot :=
  key_name <- obj_get item (text "key") (PStr []) ;;
  value <- obj_get item (text "value") PNone ;;
  unit <- obj_get item (text "unit") (PStr []) ;;
  if negb (truthy key_name) then Ok data else
  match key_name with
  | PStr key_text =>
      let normalized_key := normalize_key key_text in
      converted_value <- convert_value value ;;
      Ok (dict_set data normalized_key
            {| name := key_text; value := converted_value; unit := unit |})
  | _ => Raise (builtin AttributeError)
  end.

Fixpoint convert_items (data : snapshot) (items : list pyobj) : result snapshot :=
  match items with
  | [] => Ok data
  | item :: rest => data' <- convert_item data item ;; convert_items data' rest
  end.

Definition device_online : reading :=
  {| name := text "Device Online"; value := PBool true; unit := PNone |}.

Definition last_update (w : world) : reading :=
  {| name := text "Last Update"; value := PStr (isoformat (now w)); unit := PNone |}.

Definition _convert_deye_response (api_data : pyobj) (w : world) : result snapshot :=
  let data : snapshot := [] in
  device_list <- obj_get api_data (text "deviceDataList") PNone ;;
  if negb (truthy device_list) then Ok data else
  device_data <- first_item device_list ;;
  data_list <- obj_get device_data (text "dataList") PNone ;;
  if negb (truthy data_list) then Ok data else
  _ <- py_len data_list ;;
  items <- iterate data_list ;;
  data <- convert_items data items ;;
  let data := dict_set data (text "device_online") device_online in
  let data := dict_set data (text "last_update") (last_update w) in
  Ok data.

(** *** [_update_from_api] *)

Definition update_failed (message : str) : exn := Exception UpdateFailed message None.

Definition json_headers : list (str * str) :=
  [(text "Content-Type", text "application/json")].

Definition _update_from_api (self : coordinator) (w : world) : result snapshot * world :=
  let headers :=
    if truthy (get_or (_config self) CONF_TOKEN PNone)
    then [(text "Authorization",
           text "Bearer " ++ py_str (get_or (_config self) CONF_TOKEN PNone))]
    else [] in
  match dict_index (_config self) CONF_URL with
  | Raise e => (Raise e, w)
  | Ok target =>
      let '(out, w') :=
        send {| method := text "GET"; url := target; params := []; json := None;
                headers := headers; timeout := 20 |} w in
      match out with
      | Failed e => (Raise (reclassify (text "Network error during API fetch: ") e), w')
      | Responded resp =>
          match body_text resp with
          | Raise e => (Raise (reclassify (text "Network error during API fetch: ") e), w')
          | Ok body =>
              if 400 <=? status resp
              then (Raise (update_failed
                             (text "HTTP " ++ str_of_int (status resp) ++ text ": "
                                ++ prefix 200 body)), w')
              else (parse_deyecloud_text body, w')
          end
      end
  end.

(** *** The token request *)

(** [hashlib.sha256(password.encode()).hexdigest()]; only a str has
    [encode]. *)
Definition password_hash (password : pyobj) : result str :=
  match password with
  | PStr p => Ok (hexdigest (SHA256.digest (encode p)))
  | _ => Raise (builtin AttributeError)
  end.

Definition token_url (server : pyobj) : str :=
  text "https://" ++ py_str server ++ text "-developer.deyecloud.com/v1.0/account/token".

(** The request both [_get_deye_token] and [_validate_config] build, up to
    the timeout. *)
Definition token_request (server : pyobj) (config : list (str * pyobj)) (seconds : Z)
  : result request :=
  password <- dict_index config CONF_PASSWORD ;;
  hashed <- password_hash password ;;
  app_id <- dict_index config CONF_APP_ID ;;
  app_secret <- dict_index config CONF_APP_SECRET ;;
  email <- dict_index config CONF_EMAIL ;;
  Ok {| method := text "POST";
        url := PStr (token_url server);
        params := [(text "appId", app_id)];
        json := Some (PDict [(text "appSecret", app_secret);
                             (text "email", email);
                             (text "password", PStr hashed)]);
        headers := json_headers;
        timeout := seconds |}.

(** [key in d] for a dict [d]; where it is used [d.get] has succeeded before,
    so that [d] is a dict. *)
Definition has_key (d : pyobj) (key : str) : result bool :=
  match d with
  | PDict entries => Ok (match dict_get entries key with Some _ => true | None => false end)
  | _ => Raise (builtin TypeError)
  end.

(** What [_get_deye_token] does with the response, inside its [async with]:
    the token, or the exception raised there. *)
Definition token_of_response (resp : response) : result pyobj :=
  if negb (status resp =? 200) then
    body <- body_text resp ;;
    Raise (update_failed (text "Deye auth failed: HTTP " ++ str_of_int (status resp)
                            ++ text ": " ++ body))
  else
    result <- body_json resp ;;
    success <- obj_get result (text "success") PNone ;;
    if negb (truthy success) then
      msg <- obj_get result (text "msg") (PStr (text "Unknown error")) ;;
      Raise (update_failed (text "Deye auth failed: " ++ py_str msg))
    else
      present <- has_key result (text "accessToken") ;;
      if negb present
      then Raise (update_failed (text "No access token in response: " ++ py_str result))
      else obj_get result (text "accessToken") PNone.

(** The test of the cache: token and expiry both truthy, and the clock before
    the expiry. *)
Definition token_cached (self : coordinator) (w : world) : bool :=
  truthy (_access_token self)
  && match _token_expires_at self with
     | Some expires => now w <? expires
     | None => false
     end.

Definition _get_deye_token (self : coordinator) (w : world)
  : result pyobj * coordinator * world :=
  if token_cached self w then (Ok (_access_token self), self, w) else
  match token_request (_server self) (_config self) 20 with
  | Raise e => (Raise e, self, w)
  | Ok req =>
      let '(out, w') := send req w in
      match out with
      | Failed e =>
          (Raise (reclassify (text "Network error during authentication: ") e), self, w')
      | Responded resp =>
          match token_of_response resp with
          | Ok token => (Ok token, set_token self token (now w' + one_hour), w')
          | Raise e =>
              (Raise (reclassify (text "Network error during authentication: ") e), self, w')
          end
      end
  end.

(** *** The device data *)

Definition data_url (server : pyobj) : str :=
  text "https://" ++ py_str server ++ text "-developer.deyecloud.com/v1.0/device/latest".

Definition data_of_response (resp : response) (w : world) : result snapshot :=
  if negb (status resp =? 200) then
    body <- body_text resp ;;
    Raise (update_failed (text "Deye data failed: HTTP " ++ str_of_int (status resp)
                            ++ text ": " ++ body))
  else
    result <- body_json resp ;;
    devices <- obj_get result (text "deviceDataList") (PList []) ;;
    _ <- py_len devices ;;
    _convert_deye_response result w.

Definition _get_deye_device_data (self : coordinator) (token : pyobj) (w : world)
  : result snapshot * world :=
  match dict_index (_config self) CONF_DEVICE_SN with
  | Raise e => (Raise e, w)
  | Ok serial =>
      let '(out, w') :=
        send {| method := text "POST";
                url := PStr (data_url (_server self));
                params := [];
                json := Some (PDict [(text "deviceList", PList [serial])]);
                headers := json_headers
                             ++ [(text "authorization", text "Bearer " ++ py_str token)];
                timeout := 20 |} w in
      match out with
      | Failed e => (Raise (reclassify (text "Network error during data fetch: ") e), w')
      | Responded resp =>
          match data_of_response resp w' with
          | Ok data => (Ok data, w')
          | Raise e => (Raise (reclassify (text "Network error during data fetch: ") e), w')
          end
      end
  end.

(** [except Exception as err: raise UpdateFailed(err) from err] *)
Definition wrap (e : exn) : exn := Exception UpdateFailed (exn_str e) (Some e).

Definition _update_from_deye (self : coordinator) (w : world)
  : result snapshot * coordinator * world :=
  match _get_deye_token self w with
  | (Raise e, self', w') => (Raise (wrap e), self', w')
  | (Ok token, self', w') =>
      match _get_deye_device_data self' token w' with
      | (Ok data, w'') => (Ok data, self', w'')
      | (Raise e, w'') => (Raise (wrap e), self', w'')
      end
  end.

(** *** The two wrapped updates and the dispatch *)

Definition state : Type := coordinator * world.

Definition state_sleep (seconds : Z) (s : state) : state := (fst s, sleep seconds (snd s)).

Definition api_operation (s : state) : result snapshot * state :=
  let '(r, w') := _update_from_api (fst s) (snd s) in (r, (fst s, w')).

Definition deye_operation (s : state) : result snapshot * state :=
  let '(r, self', w') := _update_from_deye (fst s) (snd s) in (r, (self', w')).

Definition _update_from_api_with_retry (s : state)
  : result snapshot * state * list retry_event :=
  with_retry api_operation state_sleep api_terminal
    (_max_retries (fst s)) (_retry_delay (fst s)) s.

Definition _update_from_deye_with_retry (s : state)
  : result snapshot * state * list retry_event :=
  with_retry deye_operation state_sleep (deye_terminal (_max_retries (fst s)))
    (_max_retries (fst s)) (_retry_delay (fst s)) s.

Definition _async_update_data (s : state) : result snapshot * state * list retry_event :=
  match _mode (fst s) with
  | PStr m => if str_eqb m MODE_API then _update_from_api_with_retry s
              else _update_from_deye_with_retry s
  | _ => _update_from_deye_with_retry s
  end.

(** *** [config_flow._validate_config] *)

Definition value_error (message : str) : exn := Exception ValueError message None.

Definition reclassify_validation (e : exn) : exn :=
  if is_client_error e
  then Exception ValueError (text "Network error: " ++ exn_str e) (Some e) else e.

Definition validate_response (resp : response) : result Datatypes.unit :=
  if negb (status resp =? 200) then
    body <- body_text resp ;;
    Raise (value_error (text "Authentication failed: HTTP " ++ str_of_int (status resp)
                          ++ text ": " ++ body))
  else
    result <- body_json resp ;;
    success <- obj_get result (text "success") PNone ;;
    if negb (truthy success) then
      msg <- obj_get result (text "msg") (PStr (text "Unknown error")) ;;
      Raise (value_error (text "Authentication failed: " ++ py_str msg))
    else
      present <- has_key result (text "accessToken") ;;
      if negb present then Raise (value_error (text "No access token received"))
      else Ok tt.

Definition validation_request (config : list (str * pyobj)) : result request :=
  server <- dict_index config CONF_SERVER ;;
  token_request server config 10.

Definition _validate_config (config : list (str * pyobj)) (w : world)
  : result Datatypes.unit * world :=
  match validation_request config with
  | Raise e => (Raise e, w)
  | Ok req =>
      let '(out, w') := send req w in
      match out with
      | Failed e => (Raise (reclassify_validation e), w')
      | Responded resp =>
          match validate_response resp with
          | Ok u => (Ok u, w')
          | Raise e => (Raise (reclassify_validation e), w')
          end
      end
  end.

End Coordinator.

(** ** Specification-side definitions and sample data *)

(** [s] neither starts nor ends with white space. *)
Definition no_outer_space (s : str) : bool :=
  match first_char s, last_char s with
  | Some a, Some b => negb (isspace a) && negb (isspace b)
  | _, _ => true
  end.

(** [s] starts with an underscore. *)
Definition starts_with_underscore (s : str) : bool :=
  match s with c :: _ => is_underscore c | [] => false end.

(** The five replacements of [normalize_key] on one character. *)
Definition replace_all (c : ascii) : ascii :=
  if existsb (char_eqb c) replaced_chars then underscore else c.

(** The specification's wording of one line: at least two non-empty
    tab-separated fragments of the stripped line make a reading, a third one
    is its unit, and any other line is passed over. *)
Definition parse_line_spec (data : snapshot) (line : str) : snapshot :=
  match fragments (strip line) with
  | p0 :: p1 :: more =>
      dict_set data (normalize_key (strip p0))
        {| name := strip p0;
           value := text_value (strip p1);
           unit := match more with p2 :: _ => PStr (strip p2) | [] => PNone end |}
  | _ => data
  end.

Definition parse_text_spec (raw_text : str) : snapshot :=
  fold_left parse_line_spec (splitlines raw_text) [].

(** No line of the text has two fragments. *)
Definition malformed (raw_text : str) : bool :=
  forallb (fun line => (List.length (fragments (strip line)) <? 2)%nat)
          (splitlines raw_text).

(** ["Grid Power\t1500\tW\nBattery SOC\t85\t%\n\n"] *)
Definition sample_text : str :=
  text "Grid Power" ++ [TAB] ++ text "1500" ++ [TAB] ++ text "W" ++ [LF]
    ++ text "Battery SOC" ++ [TAB] ++ text "85" ++ [TAB] ++ text "%" ++ [LF; LF].

Definition sample_snapshot : snapshot :=
  [(text "grid_power",
    {| name := text "Grid Power"; value := PInt 1500; unit := PStr (text "W") |});
   (text "battery_soc",
    {| name := text "Battery SOC"; value := PInt 85; unit := PStr (text "%") |})].

(** The text holds a point or an [e] of either case. *)
Definition has_float_marker (s : str) : bool :=
  existsb (fun c => char_eqb c "."%char || char_eqb c "e"%char || char_eqb c "E"%char) s.

(** The specification's wording of the coercion of a text, for a given set
    of sentinels. *)
Definition coerce_text_spec (sentinels : list str) (s : str) : pyobj :=
  if str_in (lower s) sentinels then PNone
  else if has_float_marker s
  then match py_float s with Ok f => PFloat f | Raise _ => PStr s end
  else match py_int s with Ok n => PInt n | Raise _ => PStr s end.

(** A number, a string or null. *)
Definition is_value (v : pyobj) : bool :=
  match v with
  | PNone | PBool _ | PInt _ | PFloat _ | PStr _ => true
  | PList _ | PDict _ => false
  end.

(** The finite float [f] is exactly the rational [q]. *)
Definition float_is (f : float) (q : Q) : bool :=
  match float_value f with
  | Some v => Qeq_bool v q
  | None => false
  end.

Definition float_12_5 : float := S754_finite false 7036874417766400 (-49).
Definition float_1000 : float := S754_finite false 8796093022208000 (-43).

(** The response has no device, or its first device has no data items: the
    two tests of [_convert_deye_response] that return early. *)
Definition empty_payload (api_data : pyobj) : bool :=
  match obj_get api_data (text "deviceDataList") PNone with
  | Ok devices =>
      negb (truthy devices)
      || match first_item devices with
         | Ok device =>
             match obj_get device (text "dataList") PNone with
             | Ok data_list => negb (truthy data_list)
             | Raise _ => false
             end
         | Raise _ => false
         end
  | Raise _ => false
  end.

(** The only terminal errors in the program: that of the text-endpoint
    update and that of the cloud-direct update, with three attempts. *)
Definition is_terminal (terminal : option exn -> exn) : Prop :=
  terminal = api_terminal \/ terminal = deye_terminal 3.

(** An operation on a counter of its calls: it fails twice with a transport
    error, then succeeds with the number of the call. *)
Definition flaky (calls : nat) : result nat * nat :=
  if (calls <? 2)%nat
  then (Raise (Exception ClientError (text "connection reset") None), S calls)
  else (Ok calls, S calls).

(** An operation that fails every time. *)
Definition broken (calls : nat) : result nat * nat :=
  (Raise (Exception ClientError (text "call " ++ str_of_int (Z.of_nat calls)) None),
   S calls).

Definition count_delays (log : list retry_event) : nat :=
  List.length (filter (fun ev => match ev with Delay _ => true | Attempt _ => false end) log).

Definition count_attempts (log : list retry_event) : nat :=
  List.length (filter (fun ev => match ev with Attempt _ => true | Delay _ => false end) log).

Definition api_config : list (str * pyobj) :=
  [(CONF_MODE, PStr MODE_API); (CONF_URL, PStr (text "http://inverter.local/feed"))].

(** A world whose network answers every request with the same response. *)
Definition steady_world (resp : response) : world :=
  {| clock := 0; sent := [];
     network := fun _ => {| latency := 250000; answer := Responded resp |} |}.

Definition not_json : result pyobj := Raise (builtin ValueError).

Definition deye_config : list (str * pyobj) :=
  [(CONF_MODE, PStr MODE_DEYE_DIRECT);
   (CONF_APP_ID, PStr (text "202401019999"));
   (CONF_APP_SECRET, PStr (text "9f2c7d"));
   (CONF_EMAIL, PStr (text "owner@example.org"));
   (CONF_PASSWORD, PStr (text "correct horse"));
   (CONF_DEVICE_SN, PStr (text "2301055512"));
   (CONF_SERVER, PStr SERVER_EU)].

(** A successful answer of the token endpoint carrying [token]. *)
Definition token_reply (token : pyobj) : response :=
  {| status := 200;
     body_text := Ok (text "{..}");
     body_json := Ok (PDict [(text "success", PBool true); (text "accessToken", token)]) |}.

(** The coordinator states that calls of [_get_deye_token], in any world,
    lead to from a fresh coordinator; [allowed] bounds the tokens the calls
    may have returned. *)
Inductive reachable (py_repr : pyobj -> str) (allowed : pyobj -> Prop)
  : coordinator -> Prop :=
| reach_init (config : list (str * pyobj)) :
    reachable py_repr allowed (DeyeCloudCoordinator config)
| reach_call (self : coordinator) (w : world) :
    reachable py_repr allowed self ->
    (forall token, fst (fst (_get_deye_token py_repr self w)) = Ok token -> allowed token) ->
    reachable py_repr allowed (snd (fst (_get_deye_token py_repr self w))).

(** The values a request carries: its URL, its query parameters, the fields
    of its JSON body and its headers. *)
Definition request_values (req : request) : list pyobj :=
  url req
    :: map snd (params req)
    ++ match json req with
       | Some (PDict entries) => map snd entries
       | Some body => [body]
       | None => []
       end
    ++ map (fun header => PStr (snd header)) (headers req).

Definition is_lower_hex (c : ascii) : bool :=
  let n := code c in ((48 <=? n) && (n <=? 57) || (97 <=? n) && (n <=? 102))%N.

(** A configuration in which the account's e-mail entry and its password are
    the same text. *)
Definition careless_config : list (str * pyobj) :=
  [(CONF_MODE, PStr MODE_DEYE_DIRECT);
   (CONF_APP_ID, PStr (text "202401019999"));
   (CONF_APP_SECRET, PStr (text "9f2c7d"));
   (CONF_EMAIL, PStr (text "hunter2"));
   (CONF_PASSWORD, PStr (text "hunter2"));
   (CONF_DEVICE_SN, PStr (text "2301055512"));
   (CONF_SERVER, PStr SERVER_EU)].

Definition word_ok (x : Z) : Prop := 0 <= x < 2 ^ 32.
Definition byte_ok (x : Z) : Prop := 0 <= x < 256.

(** ** The sensors: [sensor.py] *)

Fixpoint starts_with (needle s : str) : bool :=
  match needle, s with
  | [], _ => true
  | a :: needle', b :: s' => char_eqb a b && starts_with needle' s'
  | _ :: _, [] => false
  end.

(** [needle in s] for two strs. *)
Fixpoint contains_str (needle s : str) : bool :=
  starts_with needle s
  || match s with
     | _ :: rest => contains_str needle rest
     | [] => false
     end.

Inductive SensorDeviceClass :=
| POWER | VOLTAGE | CURRENT | FREQUENCY | ENERGY | BATTERY.

Inductive SensorStateClass :=
| MEASUREMENT | TOTAL_INCREASING.

Definition ICON_power := text "mdi:lightning-bolt".
Definition ICON_voltage := text "mdi:lightning-bolt-outline".
Definition ICON_current := text "mdi:current-ac".
Definition ICON_frequency := text "mdi:sine-wave".
Definition ICON_energy := text "mdi:battery-charging".
Definition ICON_temperature := text "mdi:thermometer".
Definition ICON_percentage := text "mdi:percent".
Definition ICON_default := text "mdi:chart-line".

(** The degree sign, U+00B0. *)
Definition degree : ascii := ascii_of_N 176.

(** [(payload.get("unit") or "").strip()] for
    [payload = self.coordinator.data.get(self._key) or {}]: a reading is a
    non-empty dict, and only a str has [strip]. *)
Definition payload_unit (data : snapshot) (key : str) : result str :=
  match dict_get data key with
  | Some payload =>
      if truthy (unit payload)
      then match unit payload with
           | PStr s => Ok (strip s)
           | _ => Raise (builtin AttributeError)
           end
      else Ok []
  | None => Ok []
  end.

Definition _derive_classes (data : snapshot) (key name : str)
  : result (option SensorDeviceClass * SensorStateClass) :=
  unit <- payload_unit data key ;;
  let lname := lower name in
  if str_in unit [text "W"; text "kW"; text "MW"] || contains_str (text "power") lname
  then Ok (Some POWER, MEASUREMENT)
  else if str_in unit [text "V"; text "kV"] || contains_str (text "voltage") lname
  then Ok (Some VOLTAGE, MEASUREMENT)
  else if str_in unit [text "A"; text "mA"] || contains_str (text "current") lname
  then Ok (Some CURRENT, MEASUREMENT)
  else if str_in unit [text "Hz"; text "kHz"] || contains_str (text "frequency") lname
  then Ok (Some FREQUENCY, MEASUREMENT)
  else if str_in unit [text "Wh"; text "kWh"; text "MWh"]
          || contains_str (text "energy") lname
          || contains_str (text "production") lname
  then Ok (Some ENERGY, TOTAL_INCREASING)
  else if str_in unit [text "%"] || str_in lname [text "soc"; text "bmssoc"]
  then Ok (Some BATTERY, MEASUREMENT)
  else Ok (None, MEASUREMENT).

Definition _derive_icon (data : snapshot) (key name : str) : result str :=
  let lname := lower name in
  stripped <- payload_unit data key ;;
  let unit := lower stripped in
  if str_in unit [text "w"; text "kw"; text "mw"] || contains_str (text "power") lname
  then Ok ICON_power
  else if str_in unit [text "v"; text "kv"] || contains_str (text "voltage") lname
  then Ok ICON_voltage
  else if str_in unit [text "a"; text "ma"] || contains_str (text "current") lname
  then Ok ICON_current
  else if str_in unit [text "hz"; text "khz"] || contains_str (text "frequency") lname
  then Ok ICON_frequency
  else if str_in unit [text "wh"; text "kwh"; text "mwh"]
          || contains_str (text "energy") lname
          || contains_str (text "production") lname
  then Ok ICON_energy
  else if str_eqb unit (text "%") || str_in lname [text "soc"; text "bmssoc"]
  then Ok ICON_percentage
  else if str_in unit [degree :: text "c"; degree :: text "f"; text "c"; text "f"]
          || contains_str (text "temp") lname
          || contains_str (text "temperature") lname
  then Ok ICON_temperature
  else Ok ICON_default.

(** What [DeyeCloudSensor.__init__] sets from its arguments and the
    coordinator's data. *)
Record sensor_entity := {
  _key : str;
  _attr_name : str;
  _attr_unique_id : str;
  _attr_device_class : option SensorDeviceClass;
  _attr_state_class : SensorStateClass;
  _attr_icon : str
}.

Definition DeyeCloudSensor (data : snapshot) (key name : str) : result sensor_entity :=
  classes <- _derive_classes data key name ;;
  icon <- _derive_icon data key name ;;
  Ok {| _key := key;
        _attr_name := text "Deye " ++ name;
        _attr_unique_id := text "deyecloud2_" ++ key;
        _attr_device_class := fst classes;
        _attr_state_class := snd classes;
        _attr_icon := icon |}.

(** [native_value] and [native_unit_of_measurement] of the sensor of [key]. *)
Definition native_value (data : snapshot) (key : str) : pyobj :=
  match dict_get data key with
  | Some payload => value payload
  | None => PNone
  end.

Definition native_unit_of_measurement (data : snapshot) (key : str) : pyobj :=
  match dict_get data key with
  | Some payload => unit payload
  | None => PNone
  end.

(** The loop of [async_setup_entry] over [coordinator.data.items()]. *)
Fixpoint initial_sensors (data : snapshot) (items : snapshot) : result (list sensor_entity) :=
  match items with
  | [] => Ok []
  | (key, payload) :: rest =>
      entity <- DeyeCloudSensor data key (name payload) ;;
      entities <- initial_sensors data rest ;;
      Ok (entity :: entities)
  end.

(** The entities the platform has been given, and [known_keys]. *)
Record platform := { added : list sensor_entity; known_keys : list str }.

(** [sensor.async_setup_entry], up to the registration of the listener. *)
Definition sensor_setup (data : snapshot) : result platform :=
  entities <- initial_sensors data data ;;
  Ok {| added := entities; known_keys := dict_keys data |}.

(** The loop of [_maybe_add_new_sensors]; [known_keys] is updated in place,
    so that it keeps what was added before an exception. *)
Fixpoint new_sensors (data : snapshot) (known : list str) (items : snapshot)
  (new_entities : list sensor_entity) : result (list sensor_entity) * list str :=
  match items with
  | [] => (Ok new_entities, known)
  | (key, payload) :: rest =>
      if str_in key known then new_sensors data known rest new_entities
      else
        let known := known ++ [key] in
        match DeyeCloudSensor data key (name payload) with
        | Ok entity => new_sensors data known rest (new_entities ++ [entity])
        | Raise err => (Raise err, known)
        end
  end.

(** [_maybe_add_new_sensors], called after a refresh that left [data]. *)
Definition _maybe_add_new_sensors (p : platform) (data : snapshot) : platform :=
  match new_sensors data (known_keys p) data [] with
  | (Ok new_entities, known) => {| added := added p ++ new_entities; known_keys := known |}
  | (Raise _, known) => {| added := added p; known_keys := known |}
  end.

(** ** The binary sensor: [binary_sensor.py] *)

(** [DeyeCloudBinarySensor.is_on]; [None] is no state. *)
Definition is_on (data : snapshot) (key : str) : option bool :=
  match dict_get data key with
  | None => None
  | Some payload =>
      match value payload with
      | PBool b => Some b
      | PNone => None
      | v => Some (truthy v)
      end
  end.

(** ** The configuration flow: [config_flow.py] *)

(** What a step returns: a form to show, with its errors, or the entry to
    create. *)
Inductive flow_result :=
| ShowForm (step_id : str) (errors : list (str * str))
| CreateEntry (title : str) (data : list (str * pyobj)).

(** [{**base, **extra}] *)
Definition dict_merge (base extra : list (str * pyobj)) : list (str * pyobj) :=
  fold_left (fun d kv => dict_set d (fst kv) (snd kv)) extra base.

Definition async_step_api (user_input : option (list (str * pyobj))) : flow_result :=
  match user_input with
  | Some input =>
      if negb (truthy (get_or input CONF_URL PNone))
      then ShowForm (text "api") [(text "base", text "invalid_url")]
      else CreateEntry (text "Deye Cloud 2 (API)")
             (dict_merge [(CONF_MODE, PStr MODE_API)] input)
  | None => ShowForm (text "api") []
  end.

Section ConfigFlow.
Variable py_repr : pyobj -> str.
(** The framework's [async_set_unique_id] followed by
    [_abort_if_unique_id_configured]: it raises when the id is taken. *)
Variable claim_unique_id : str -> result Datatypes.unit.

Definition deye_unique_id (input : list (str * pyobj)) : result str :=
  email <- dict_index input CONF_EMAIL ;;
  serial <- dict_index input CONF_DEVICE_SN ;;
  Ok (text "deye_" ++ py_str py_repr email ++ text "_" ++ py_str py_repr serial).

Definition async_step_deye (user_input : option (list (str * pyobj))) (w : world)
  : flow_result * world :=
  match user_input with
  | Some input =>
      match _validate_config py_repr input w with
      | (Ok _, w') =>
          match (uid <- deye_unique_id input ;; claim_unique_id uid) with
          | Ok _ =>
              (CreateEntry (text "Deye Cloud 2 (Direct)")
                 (dict_merge [(CONF_MODE, PStr MODE_DEYE_DIRECT)] input), w')
          | Raise err => (ShowForm (text "deye") [(text "base", exn_str err)], w')
          end
      | (Raise err, w') => (ShowForm (text "deye") [(text "base", exn_str err)], w')
      end
  | None => (ShowForm (text "deye") [], w)
  end.

(** [async_step_user]; the two steps it passes on to are called without
    input. *)
Definition async_step_user (user_input : option (list (str * pyobj))) (w : world)
  : result flow_result :=
  match user_input with
  | None => Ok (ShowForm (text "user") [])
  | Some input =>
      mode <- dict_index input CONF_MODE ;;
      match mode with
      | PStr m => if str_eqb m MODE_API then Ok (async_step_api None)
                  else Ok (fst (async_step_deye None w))
      | _ => Ok (fst (async_step_deye None w))
      end
  end.

End ConfigFlow.

(** ** Further specification-side definitions *)

(** The state in which the call number [k] (from 0) is made when every call
    before it has raised: the state the call before left, after the wait. *)
Fixpoint attempt_state {St A : Type} (operation : St -> result A * St)
  (delay : Z -> St -> St) (retry_delay : Z) (s : St) (k : nat) : St :=
  match k with
  | O => s
  | S k' =>
      delay retry_delay
        (snd (operation (attempt_state operation delay retry_delay s k')))
  end.

(** The log of [n] calls numbered from [a]: the calls in their order, and
    one wait between each two of them. *)
Fixpoint calls_log (retry_delay : Z) (a n : nat) : list retry_event :=
  match n with
  | O => []
  | S n' =>
      Attempt a :: match n' with
                   | O => []
                   | S _ => Delay retry_delay :: calls_log retry_delay (S a) n'
                   end
  end.

(** Every wait of a log lasts [d]. *)
Definition delays_are (d : Z) (log : list retry_event) : Prop :=
  Forall (fun ev => match ev with Delay x => x = d | Attempt _ => True end) log.

(** The request [_get_deye_device_data] sends for a serial and a token. *)
Definition data_request (py_repr : pyobj -> str) (server serial token : pyobj) : request :=
  {| method := text "POST";
     url := PStr (data_url py_repr server);
     params := [];
     json := Some (PDict [(text "deviceList", PList [serial])]);
     headers := [(text "Content-Type", text "application/json");
                 (text "authorization", text "Bearer " ++ py_str py_repr token)];
     timeout := 20 |}.

(** A network that answers the first request, for the token, with [token]
    and every later one with status 500. *)
Definition token_then_down (token : pyobj) : world :=
  {| clock := 0; sent := [];
     network := fun n =>
       {| latency := 250000;
          answer := Responded
                      (if (n =? 0)%nat then token_reply token
                       else {| status := 500; body_text := Ok (text "down");
                               body_json := not_json |}) |} |}.

(** A 200 answer whose JSON body is [body]. *)
Definition json_reply (body : pyobj) : response :=
  {| status := 200; body_text := Ok (text "{..}"); body_json := Ok body |}.

(** Every reading is filed under the normalized form of its own name, and no
    key occurs twice. *)
Definition well_keyed (data : snapshot) : Prop :=
  NoDup (dict_keys data)
  /\ Forall (fun kv => fst kv = normalize_key (name (snd kv))) data.

(** The unit of a reading is a str or is not there. *)
Definition textual_unit (r : reading) : Prop :=
  unit r = PNone \/ exists s, unit r = PStr s.

(** What the platform keeps: no key is known twice, no key has two
    entities, every entity's key is known, and every entity has the unique id
    of its key. *)
Definition platform_ok (p : platform) : Prop :=
  NoDup (known_keys p)
  /\ NoDup (map _key (added p))
  /\ incl (map _key (added p)) (known_keys p)
  /\ Forall (fun e => _attr_unique_id e = text "deyecloud2_" ++ _key e) (added p).

(** A cloud snapshot with a reading whose unit is a number. *)
Definition numeric_unit_snapshot : snapshot :=
  [(text "pv1", {| name := text "PV1"; value := PInt 3; unit := PStr (text "V") |});
   (text "load", {| name := text "Load"; value := PInt 7; unit := PInt 5 |});
   (text "soc", {| name := text "SOC"; value := PInt 80; unit := PStr (text "%") |})].

Definition no_sensors : platform := {| added := []; known_keys := [] |}.

(** The units [_derive_classes] tests for, and those [_derive_icon] tests
    for before the temperatures. *)
Definition class_units : list str :=
  [text "W"; text "kW"; text "MW"; text "V"; text "kV"; text "A"; text "mA";
   text "Hz"; text "kHz"; text "Wh"; text "kWh"; text "MWh"; text "%"].

Definition icon_units : list str :=
  [text "w"; text "kw"; text "mw"; text "v"; text "kv"; text "a"; text "ma";
   text "hz"; text "khz"; text "wh"; text "kwh"; text "mwh"; text "%"].

(** A unit is in its standard case when it is written as [_derive_classes]
    has it, or is none of the units of [_derive_icon] in any case. *)
Definition standard_case (unit : str) : bool :=
  str_in unit class_units || negb (str_in (lower unit) icon_units).

(** The icon that goes with a device class. *)
Definition icon_of (c : SensorDeviceClass) : str :=
  match c with
  | POWER => ICON_power
  | VOLTAGE => ICON_voltage
  | CURRENT => ICON_current
  | FREQUENCY => ICON_frequency
  | ENERGY => ICON_energy
  | BATTERY => ICON_percentage
  end.

Definition kw_snapshot (unit : str) : snapshot :=
  [(text "pv1", {| name := text "PV1"; value := PInt 3; unit := PStr unit |})].

(** The request [req] with another timeout. *)
Definition with_timeout (req : request) (seconds : Z) : request :=
  {| method := method req; url := url req; params := params req; json := json req;
     headers := headers req; timeout := seconds |}.

(** What the two forms hand to their steps: the sample configurations
    without the mode, which the step adds. *)
Definition api_input : list (str * pyobj) := List.tl api_config.
Definition deye_input : list (str * pyobj) := List.tl deye_config.

(** * Properties *)

(** ** Characters and text *)

Ltac each_char c :=
  destruct c as [[] [] [] [] [] [] [] []]; vm_compute; try reflexivity; try discriminate.

Lemma char_eqb_eq (a b : ascii) : char_eqb a b = true <-> a = b.
Proof. apply Ascii.eqb_eq. Qed.

Lemma char_eqb_refl (a : ascii) : char_eqb a a = true.
Proof. apply Ascii.eqb_refl. Qed.

Lemma is_underscore_eq (c : ascii) : is_underscore c = true -> c = underscore.
Proof. apply char_eqb_eq. Qed.

Lemma str_eqb_eq (a b : str) : str_eqb a b = true <-> a = b.
Proof.
  revert b; induction a as [|x a IH]; intros [|y b]; simpl; split; intro H;
    try reflexivity; try discriminate.
  - apply andb_true_iff in H as [Hx Ha].
    apply char_eqb_eq in Hx. apply IH in Ha. now subst.
  - injection H as -> ->. rewrite char_eqb_refl. now apply IH.
Qed.

Lemma str_eqb_refl (a : str) : str_eqb a a = true.
Proof. now apply str_eqb_eq. Qed.

(** An induction that follows scans reading two characters at a time. *)
Lemma str_ind2 (P : str -> Prop) :
  P [] -> (forall c, P [c]) ->
  (forall c c' rest, P rest -> P (c' :: rest) -> P (c :: c' :: rest)) ->
  forall s, P s.
Proof.
  intros Hnil Hone Hstep s.
  enough (P s /\ forall c, P (c :: s)) by tauto.
  induction s as [|c' rest [IH1 IH2]]; split; auto.
Qed.

Lemma collapse_runs_cons (c : ascii) (t : str) :
  collapse_runs (c :: t) =
  if is_underscore c && starts_with_underscore t then collapse_runs t
  else c :: collapse_runs t.
Proof.
  destruct t as [|c' t]; simpl.
  - now rewrite andb_false_r.
  - reflexivity.
Qed.

Lemma contains_double_underscore_cons (c : ascii) (t : str) :
  contains_double_underscore (c :: t) =
  is_underscore c && starts_with_underscore t || contains_double_underscore t.
Proof.
  destruct t as [|c' t]; simpl.
  - now rewrite andb_false_r.
  - reflexivity.
Qed.

Lemma starts_replace (s : str) :
  starts_with_underscore (replace_double_underscore s) = starts_with_underscore s.
Proof.
  destruct s as [|c [|c' rest]]; simpl; try reflexivity.
  destruct (is_underscore c && is_underscore c') eqn:H; [|reflexivity].
  apply andb_true_iff in H as [Hc _]. simpl. now rewrite Hc.
Qed.

Lemma starts_collapse_runs (s : str) :
  starts_with_underscore (collapse_runs s) = starts_with_underscore s.
Proof.
  induction s as [|c t IH]; [reflexivity|].
  rewrite collapse_runs_cons.
  destruct (is_underscore c && starts_with_underscore t) eqn:H; [|reflexivity].
  apply andb_true_iff in H as [Hc Ht].
  rewrite IH, Ht. simpl. now rewrite Hc.
Qed.

Lemma replace_cons2 (c c' : ascii) (rest : str) :
  replace_double_underscore (c :: c' :: rest) =
  if is_underscore c && is_underscore c'
  then underscore :: replace_double_underscore rest
  else c :: replace_double_underscore (c' :: rest).
Proof. reflexivity. Qed.

(** One pass of the replacement leaves the runs' collapse unchanged. *)
Lemma collapse_runs_replace (s : str) :
  collapse_runs (replace_double_underscore s) = collapse_runs s.
Proof.
  induction s as [| c | c c' rest IH1 IH2] using str_ind2; try reflexivity.
  rewrite replace_cons2.
  destruct (is_underscore c && is_underscore c') eqn:Hcc.
  - apply andb_true_iff in Hcc as [Hc Hc'].
    rewrite (collapse_runs_cons c (c' :: rest)). simpl starts_with_underscore.
    rewrite Hc, Hc'. simpl andb. cbv iota.
    apply is_underscore_eq in Hc'. subst c'.
    rewrite !collapse_runs_cons, starts_replace, IH1. reflexivity.
  - rewrite (collapse_runs_cons c (replace_double_underscore (c' :: rest))).
    rewrite starts_replace, IH2. simpl starts_with_underscore. rewrite Hcc.
    rewrite (collapse_runs_cons c (c' :: rest)). simpl starts_with_underscore.
    now rewrite Hcc.
Qed.

Lemma collapse_runs_fixed (s : str) :
  contains_double_underscore s = false -> collapse_runs s = s.
Proof.
  induction s as [|c t IH]; [reflexivity|].
  rewrite contains_double_underscore_cons, collapse_runs_cons.
  intros H. apply orb_false_iff in H as [H1 H2].
  rewrite H1. f_equal. auto.
Qed.

Lemma contains_collapse_runs (s : str) :
  contains_double_underscore (collapse_runs s) = false.
Proof.
  induction s as [|c t IH]; [reflexivity|].
  rewrite collapse_runs_cons.
  destruct (is_underscore c && starts_with_underscore t) eqn:H; [exact IH|].
  now rewrite contains_double_underscore_cons, starts_collapse_runs, H, IH.
Qed.

Lemma replace_length_le (s : str) :
  (List.length (replace_double_underscore s) <= List.length s)%nat.
Proof.
  induction s as [| c | c c' rest IH1 IH2] using str_ind2; try (simpl; lia).
  rewrite replace_cons2.
  destruct (is_underscore c && is_underscore c'); simpl List.length in *; lia.
Qed.

Lemma replace_length_lt (s : str) :
  contains_double_underscore s = true ->
  (List.length (replace_double_underscore s) < List.length s)%nat.
Proof.
  induction s as [| c | c c' rest IH1 IH2] using str_ind2; try discriminate.
  intros H. rewrite replace_cons2.
  destruct (is_underscore c && is_underscore c') eqn:Hcc.
  - pose proof (replace_length_le rest). simpl. lia.
  - rewrite contains_double_underscore_cons in H. simpl starts_with_underscore in H.
    rewrite Hcc in H. simpl in H. apply IH2 in H. simpl in *. lia.
Qed.

(** The loop has fuel enough as soon as it has one round a character, and it
    then computes the collapse of the runs. *)
Lemma collapse_while_stable (fuel : nat) (s : str) :
  (List.length s <= fuel)%nat -> collapse_while fuel s = collapse_runs s.
Proof.
  revert s; induction fuel as [|fuel IH]; intros s Hlen.
  - destruct s; [reflexivity|simpl in Hlen; lia].
  - simpl. destruct (contains_double_underscore s) eqn:Hdd.
    + rewrite IH, collapse_runs_replace; [reflexivity|].
      pose proof (replace_length_lt s Hdd). lia.
    + symmetry. now apply collapse_runs_fixed.
Qed.

Lemma replace_all_char (c : ascii) :
  (let r old x := if char_eqb x old then underscore else x in
   r ")"%char (r "("%char (r "-"%char (r "/"%char (r " "%char c))))) = replace_all c.
Proof. each_char c. Qed.

Lemma fold_replace (key : str) :
  fold_left (fun key ch => replace_char ch underscore key) replaced_chars key
  = map replace_all key.
Proof.
  unfold replaced_chars, replace_char. simpl. rewrite !map_map.
  apply map_ext. intros c. apply (replace_all_char c).
Qed.

Lemma normalize_key_unfold (x : str) : normalize_key x = normalize_key_spec x.
Proof.
  unfold normalize_key, normalize_key_spec.
  rewrite collapse_while_stable by reflexivity.
  now rewrite fold_replace.
Qed.

(** *** The ends of a text *)

Lemma first_char_map (f : ascii -> ascii) (s : str) :
  first_char (map f s) = option_map f (first_char s).
Proof. now destruct s. Qed.

Lemma last_char_cons (c : ascii) (s : str) :
  s <> [] -> last_char (c :: s) = last_char s.
Proof. destruct s; [congruence|reflexivity]. Qed.

Lemma last_char_map (f : ascii -> ascii) (s : str) :
  last_char (map f s) = option_map f (last_char s).
Proof.
  induction s as [|c [|c' t] IH]; try reflexivity.
  exact IH.
Qed.

Lemma lstrip_first (s : str) (c : ascii) :
  first_char (lstrip s) = Some c -> isspace c = false.
Proof.
  induction s as [|a t IH]; simpl; [discriminate|].
  destruct (isspace a) eqn:Ha; [exact IH|].
  simpl. intros [= <-]. exact Ha.
Qed.

Lemma rstrip_first (s : str) (c : ascii) :
  first_char (rstrip s) = Some c -> first_char s = Some c.
Proof.
  destruct s as [|a t]; simpl; [discriminate|].
  destruct (rstrip t); [destruct (isspace a)|]; simpl; congruence.
Qed.

Lemma rstrip_last (s : str) (c : ascii) :
  last_char (rstrip s) = Some c -> isspace c = false.
Proof.
  induction s as [|a t IH]; simpl; [discriminate|].
  destruct (rstrip t) as [|k kept] eqn:Hk.
  - destruct (isspace a) eqn:Ha; simpl; [discriminate|].
    intros [= <-]. exact Ha.
  - rewrite last_char_cons by discriminate. exact IH.
Qed.

Lemma lstrip_fixed (s : str) :
  (forall c, first_char s = Some c -> isspace c = false) -> lstrip s = s.
Proof.
  destruct s as [|a t]; [reflexivity|].
  intros H. simpl. now rewrite (H a eq_refl).
Qed.

Lemma rstrip_fixed (s : str) :
  (forall c, last_char s = Some c -> isspace c = false) -> rstrip s = s.
Proof.
  induction s as [|a t IH]; [reflexivity|].
  intros H. simpl. destruct t as [|b t'].
  - simpl. now rewrite (H a eq_refl).
  - rewrite IH; [reflexivity|].
    intros c Hc. apply H. now rewrite last_char_cons by discriminate.
Qed.

Lemma first_collapse_runs (s : str) : first_char (collapse_runs s) = first_char s.
Proof.
  induction s as [|c t IH]; [reflexivity|].
  rewrite collapse_runs_cons.
  destruct (is_underscore c && starts_with_underscore t) eqn:H; [|reflexivity].
  apply andb_true_iff in H as [Hc Ht].
  rewrite IH. destruct t as [|c' t']; [discriminate|].
  simpl in *. apply is_underscore_eq in Hc, Ht. congruence.
Qed.

Lemma collapse_runs_nil (s : str) : collapse_runs s = [] -> s = [].
Proof.
  intros H. pose proof (first_collapse_runs s) as Hf. rewrite H in Hf.
  destruct s; [reflexivity|discriminate].
Qed.

Lemma last_collapse_runs (s : str) : last_char (collapse_runs s) = last_char s.
Proof.
  induction s as [|c t IH]; [reflexivity|].
  rewrite collapse_runs_cons.
  destruct (is_underscore c && starts_with_underscore t) eqn:H.
  - apply andb_true_iff in H as [_ Ht].
    rewrite IH. symmetry. apply last_char_cons. now destruct t.
  - destruct t as [|c' t']; [reflexivity|].
    rewrite (last_char_cons c (c' :: t')) by discriminate.
    rewrite last_char_cons; [exact IH|].
    intros E. now apply collapse_runs_nil in E.
Qed.

Lemma no_space_created (c : ascii) :
  isspace c = false -> isspace (replace_all (lower_char c)) = false.
Proof. each_char c. Qed.

Lemma normalized_char (c : ascii) :
  let d := replace_all (lower_char c) in lower_char d = d /\ replace_all d = d.
Proof. each_char c; split; reflexivity. Qed.

Lemma Forall_collapse_runs (P : ascii -> Prop) (s : str) :
  Forall P s -> Forall P (collapse_runs s).
Proof.
  induction 1 as [|c t Hc Ht IH]; [constructor|].
  rewrite collapse_runs_cons.
  destruct (is_underscore c && starts_with_underscore t); auto.
Qed.

Lemma map_fixed (f : ascii -> ascii) (s : str) :
  Forall (fun c => f c = c) s -> map f s = s.
Proof. induction 1; simpl; congruence. Qed.

Lemma spec_first (x : str) (c : ascii) :
  first_char (normalize_key_spec x) = Some c -> isspace c = false.
Proof.
  unfold normalize_key_spec, lower. fold replace_all.
  rewrite first_collapse_runs, map_map, first_char_map.
  destruct (first_char (strip x)) as [a|] eqn:Ha; simpl; [|discriminate].
  intros [= <-]. apply no_space_created.
  apply (lstrip_first x), rstrip_first, Ha.
Qed.

Lemma spec_last (x : str) (c : ascii) :
  last_char (normalize_key_spec x) = Some c -> isspace c = false.
Proof.
  unfold normalize_key_spec, lower. fold replace_all.
  rewrite last_collapse_runs, map_map, last_char_map.
  destruct (last_char (strip x)) as [a|] eqn:Ha; simpl; [|discriminate].
  intros [= <-]. apply no_space_created. apply (rstrip_last (lstrip x)), Ha.
Qed.

Lemma spec_chars (x : str) :
  Forall (fun c => lower_char c = c /\ replace_all c = c) (normalize_key_spec x).
Proof.
  unfold normalize_key_spec, lower. fold replace_all.
  apply Forall_collapse_runs. rewrite map_map.
  apply Forall_forall. intros d Hd. apply in_map_iff in Hd as [c [<- _]].
  apply normalized_char.
Qed.

Lemma spec_idempotent (x : str) :
  normalize_key_spec (normalize_key_spec x) = normalize_key_spec x.
Proof.
  set (out := normalize_key_spec x).
  assert (Hstrip : strip out = out).
  { unfold strip. rewrite lstrip_fixed by apply spec_first.
    apply rstrip_fixed, spec_last. }
  pose proof (spec_chars x) as Hchars. fold out in Hchars.
  unfold normalize_key_spec at 1. fold replace_all. rewrite Hstrip.
  unfold lower. rewrite (map_fixed lower_char), (map_fixed replace_all).
  - apply collapse_runs_fixed. apply contains_collapse_runs.
  - eapply Forall_impl; [|exact Hchars]. now intros c [_ H].
  - eapply Forall_impl; [|exact Hchars]. now intros c [H _].
Qed.

(** C7: [normalize_key] is idempotent; its result holds no two consecutive
    underscores and neither starts nor ends with white space; and it is the
    function the specification describes: strip, lower case, an underscore
    for each of space, slash, hyphen and the two parentheses, then one
    underscore for every run of underscores.  The loop of the source has
    come to its end by then: more rounds than the text has characters change
    nothing. *)
Theorem normalize_key_correct (x : str) :
  normalize_key (normalize_key x) = normalize_key x
  /\ contains_double_underscore (normalize_key x) = false
  /\ no_outer_space (normalize_key x) = true
  /\ normalize_key x = normalize_key_spec x
  /\ (forall fuel,
        (List.length (map replace_all (lower (strip x))) <= fuel)%nat ->
        collapse_while fuel (map replace_all (lower (strip x))) = normalize_key x).
Proof.
  rewrite !normalize_key_unfold. split; [|split; [|split; [|split]]].
  - apply spec_idempotent.
  - apply contains_collapse_runs.
  - unfold no_outer_space.
    destruct (first_char (normalize_key_spec x)) as [a|] eqn:Ha; [|reflexivity].
    destruct (last_char (normalize_key_spec x)) as [b|] eqn:Hb; [|reflexivity].
    now rewrite (spec_first x a Ha), (spec_last x b Hb).
  - reflexivity.
  - intros fuel Hfuel. now rewrite collapse_while_stable.
Qed.

(** ** The text-format parser *)

Lemma parse_line_eq (data : snapshot) (line : str) :
  parse_line data line = Ok (parse_line_spec data line).
Proof.
  unfold parse_line, parse_line_spec.
  destruct (strip line) as [|c stripped] eqn:Hs; [reflexivity|].
  cbn [truthy negb].
  destruct (fragments (c :: stripped)) as [|p0 [|p1 [|p2 more]]]; reflexivity.
Qed.

Lemma parse_lines_eq (lines : list str) (data : snapshot) :
  parse_lines data lines = Ok (fold_left parse_line_spec lines data).
Proof.
  revert data; induction lines as [|line rest IH]; intros data; [reflexivity|].
  simpl. rewrite parse_line_eq. simpl. apply IH.
Qed.

Lemma short_line_skipped (data : snapshot) (line : str) :
  (List.length (fragments (strip line)) <? 2)%nat = true ->
  parse_line_spec data line = data.
Proof.
  unfold parse_line_spec.
  destruct (fragments (strip line)) as [|p0 [|p1 more]]; try reflexivity.
  discriminate.
Qed.

Lemma short_lines_skipped (lines : list str) (data : snapshot) :
  forallb (fun line => (List.length (fragments (strip line)) <? 2)%nat) lines = true ->
  fold_left parse_line_spec lines data = data.
Proof.
  induction lines as [|line rest IH]; [reflexivity|].
  simpl. intros H. apply andb_true_iff in H as [Hline Hrest].
  rewrite short_line_skipped by exact Hline. now apply IH.
Qed.

(** C5: the parser never raises: on every text it returns the snapshot got
    by going through the lines, stripping each, splitting it on tabs,
    dropping the empty fragments and passing over a line with fewer than two
    of them; a text with no line of two fragments, the empty text among
    them, gives the empty snapshot; and the sample text gives exactly the
    readings [grid_power] (1500, W) and [battery_soc] (85, %). *)
Theorem parse_deyecloud_text_correct (raw_text : str) :
  parse_deyecloud_text raw_text = Ok (parse_text_spec raw_text)
  /\ (forall data line,
        (List.length (fragments (strip line)) <? 2)%nat = true ->
        parse_line data line = Ok data)
  /\ (malformed raw_text = true -> parse_deyecloud_text raw_text = Ok [])
  /\ parse_deyecloud_text [] = Ok []
  /\ parse_deyecloud_text sample_text = Ok sample_snapshot.
Proof.
  assert (Hspec : forall raw, parse_deyecloud_text raw = Ok (parse_text_spec raw)).
  { intros raw. apply parse_lines_eq. }
  split; [|split; [|split; [|split]]].
  - apply Hspec.
  - intros data line Hshort.
    rewrite parse_line_eq. f_equal. now apply short_line_skipped.
  - intros Hbad. rewrite Hspec. f_equal. now apply short_lines_skipped.
  - reflexivity.
  - vm_compute. reflexivity.
Qed.

(** ** Value coercion *)

Lemma lower_is_e (c : ascii) :
  char_eqb "e"%char (lower_char c) = char_eqb c "e"%char || char_eqb c "E"%char.
Proof. each_char c. Qed.

Lemma float_marker_eq (s : str) :
  contains_char "."%char s || contains_char "e"%char (lower s) = has_float_marker s.
Proof.
  unfold contains_char, has_float_marker, lower.
  induction s as [|c t IH]; [reflexivity|].
  cbn [existsb map]. rewrite <- IH, lower_is_e.
  replace (char_eqb "."%char c) with (char_eqb c "."%char)
    by (unfold char_eqb; apply Ascii.eqb_sym).
  destruct (char_eqb c "."%char), (char_eqb c "e"%char), (char_eqb c "E"%char);
    cbn [orb]; rewrite ?orb_true_r; reflexivity.
Qed.

Lemma py_float_raises (s : str) (e : exn) :
  py_float s = Raise e -> e = builtin ValueError.
Proof.
  unfold py_float.
  repeat match goal with
         | |- context [if ?b then _ else _] => destruct b
         | |- context [let '(_, _) := ?p in _] => destruct p
         | |- context [match ?l ++ ?r with _ => _ end] => destruct (l ++ r)
         | |- context [match float_exponent ?x with _ => _ end] =>
             destruct (float_exponent x)
         end; congruence.
Qed.

Lemma py_int_raises (s : str) (e : exn) :
  py_int s = Raise e -> e = builtin ValueError.
Proof.
  unfold py_int.
  destruct (take_sign _) as [neg body].
  destruct (digitpart body); [|congruence].
  destruct (_ <? _)%nat; congruence.
Qed.

Lemma text_value_spec (s : str) : text_value s = coerce_text_spec text_sentinels s.
Proof.
  unfold text_value, text_value_try, coerce_text_spec.
  destruct (str_in (lower s) text_sentinels); [reflexivity|].
  rewrite float_marker_eq. destruct (has_float_marker s).
  - now destruct (py_float s).
  - now destruct (py_int s).
Qed.

Section CoercionProperties.
Variable py_repr : pyobj -> str.

Lemma convert_value_str (s : str) :
  convert_value py_repr (PStr s) = Ok (coerce_text_spec cloud_sentinels s).
Proof.
  unfold convert_value, convert_value_try, coerce_text_spec.
  cbn [is_none py_str is_number orb float_of int_of].
  destruct (str_in (lower s) cloud_sentinels); [reflexivity|].
  rewrite float_marker_eq. destruct (has_float_marker s).
  - destruct (py_float s) as [f|e] eqn:Hf; [reflexivity|].
    apply py_float_raises in Hf. now subst e.
  - destruct (py_int s) as [n|e] eqn:Hn; [reflexivity|].
    apply py_int_raises in Hn. now subst e.
Qed.

Lemma coerce_text_is_value (sentinels : list str) (s : str) :
  is_value (coerce_text_spec sentinels s) = true.
Proof.
  unfold coerce_text_spec.
  repeat match goal with
         | |- context [if ?b then _ else _] => destruct b
         | |- context [match ?r with Ok _ => _ | Raise _ => _ end] => destruct r
         end; reflexivity.
Qed.

Lemma convert_value_total (v : pyobj) :
  exists r, convert_value py_repr v = Ok r /\ is_value r = true.
Proof.
  destruct v as [| b | n | f | s | items | entries].
  - exists PNone. now split.
  - unfold convert_value, convert_value_try. cbn [is_none is_number orb].
    destruct (str_in _ _); eauto.
  - unfold convert_value, convert_value_try. cbn [is_none is_number orb].
    destruct (str_in _ _); eauto.
  - unfold convert_value, convert_value_try. cbn [is_none is_number orb].
    destruct (str_in _ _); eauto.
  - rewrite convert_value_str. eauto using coerce_text_is_value.
  - unfold convert_value, convert_value_try.
    cbn [is_none is_number orb float_of int_of].
    destruct (str_in _ _); [eauto|].
    destruct (_ || _); simpl; eauto.
  - unfold convert_value, convert_value_try.
    cbn [is_none is_number orb float_of int_of].
    destruct (str_in _ _); [eauto|].
    destruct (_ || _); simpl; eauto.
Qed.

End CoercionProperties.

(** C2, the claim as it stands: the text parser does not turn ["null"] into
    null, it keeps the string. *)
Lemma text_null_stays_text :
  text_value (text "null") = PStr (text "null")
  /\ text_value (text "null") <> PNone.
Proof. split; [reflexivity|discriminate]. Qed.

(** What the two coercions compute.  Neither ever raises, and both give a
    number, a string or null.  On a text they give null for a sentinel
    compared without case, else the float the text parses to if it holds a
    point or an [e] of either case, else the integer it parses to, and the
    text itself when parsing fails.  The cloud conversion tests the four
    sentinels [nan], [inf], [-inf] and [null]; the text parser tests the
    first three only.  So ["12"] gives 12, ["12.5"] gives 12.5, ["1e3"] gives
    1000.0, ["nan"] gives null and ["abc"] gives ["abc"] on both paths. *)
Theorem value_coercion (py_repr : pyobj -> str) (s : str) :
  text_value s = coerce_text_spec [text "nan"; text "inf"; text "-inf"] s
  /\ convert_value py_repr (PStr s)
     = Ok (coerce_text_spec [text "nan"; text "inf"; text "-inf"; text "null"] s)
  /\ is_value (text_value s) = true
  /\ (forall v, exists r, convert_value py_repr v = Ok r /\ is_value r = true)
  /\ map text_value
       [text "12"; text "12.5"; text "1e3"; text "nan"; text "abc"; text "null"]
     = [PInt 12; PFloat float_12_5; PFloat float_1000; PNone; PStr (text "abc");
        PStr (text "null")]
  /\ map (convert_value py_repr)
       [PStr (text "12"); PStr (text "12.5"); PStr (text "1e3"); PStr (text "nan");
        PStr (text "abc"); PStr (text "null")]
     = [Ok (PInt 12); Ok (PFloat float_12_5); Ok (PFloat float_1000); Ok PNone;
        Ok (PStr (text "abc")); Ok PNone]
  /\ float_is float_12_5 (25 # 2) = true
  /\ float_is float_1000 (1000 # 1) = true.
Proof.
  split; [apply text_value_spec|].
  split; [apply convert_value_str|].
  split; [rewrite text_value_spec; apply coerce_text_is_value|].
  split; [apply convert_value_total|].
  split; [vm_compute; reflexivity|].
  split; [|split; vm_compute; reflexivity].
  cbn [map]. rewrite !convert_value_str. vm_compute. reflexivity.
Qed.

(** The letters that [lower] turns into those of ["null"]. *)
Lemma lower_char_null (c : ascii) :
  (lower_char c = "n"%char -> c = "n"%char \/ c = "N"%char)
  /\ (lower_char c = "u"%char -> c = "u"%char \/ c = "U"%char)
  /\ (lower_char c = "l"%char -> c = "l"%char \/ c = "L"%char).
Proof.
  destruct c as [[] [] [] [] [] [] [] []]; vm_compute;
    (split; [|split]); intros H; try discriminate H; auto.
Qed.

(** C2: the text parser misses the sentinel [null].  A line of the text
    feed whose value is ["null"] gets the string ["null"] as its value, where
    the claim asks for null; the cloud conversion, which lists [null] among
    its sentinels, turns the same name, value and unit into a reading whose
    value is null.  The same holds of ["null"] in every case of its
    letters. *)
Theorem text_parser_misses_null :
  parse_deyecloud_text (text "Grid" ++ TAB :: text "null" ++ TAB :: text "W")
  = Ok [(text "grid",
         {| name := text "Grid"; value := PStr (text "null"); unit := PStr (text "W") |})]
  /\ (forall py_repr,
        convert_item py_repr []
          (PDict [(text "key", PStr (text "Grid")); (text "value", PStr (text "null"));
                  (text "unit", PStr (text "W"))])
        = Ok [(text "grid",
               {| name := text "Grid"; value := PNone; unit := PStr (text "W") |})])
  /\ (forall s, lower s = text "null" ->
                text_value s = PStr s
                /\ forall py_repr, convert_value py_repr (PStr s) = Ok PNone).
Proof.
  split; [vm_compute; reflexivity|]. split.
  - intros py_repr. vm_compute. reflexivity.
  - intros s Hs. split.
    + destruct s as [|a [|b [|c [|d [|]]]]]; try discriminate Hs.
      injection Hs as Ha Hb Hc Hd.
      apply (proj1 (lower_char_null a)) in Ha.
      apply (proj1 (proj2 (lower_char_null b))) in Hb.
      apply (proj2 (proj2 (lower_char_null c))) in Hc.
      apply (proj2 (proj2 (lower_char_null d))) in Hd.
      destruct Ha, Hb, Hc, Hd; subst; vm_compute; reflexivity.
    + intros py_repr. rewrite convert_value_str. unfold coerce_text_spec. rewrite Hs.
      reflexivity.
Qed.

(** ** Dictionaries *)

Lemma dict_get_set_same {V} (d : list (str * V)) (k : str) (v : V) :
  dict_get (dict_set d k v) k = Some v.
Proof.
  induction d as [|[k' v'] rest IH]; simpl.
  - now rewrite str_eqb_refl.
  - destruct (str_eqb k' k) eqn:Hk; simpl; rewrite Hk; [reflexivity|exact IH].
Qed.

Lemma dict_get_set_other {V} (d : list (str * V)) (k k' : str) (v : V) :
  str_eqb k k' = false -> dict_get (dict_set d k v) k' = dict_get d k'.
Proof.
  intros Hkk'. induction d as [|[k0 v0] rest IH]; simpl.
  - now rewrite Hkk'.
  - destruct (str_eqb k0 k) eqn:Hk; simpl.
    + apply str_eqb_eq in Hk. subst k0. now rewrite Hkk'.
    + now rewrite IH.
Qed.

(** ** The unit of a reading *)

(** C9, the claim as it stands: in the cloud conversion a data item with no
    [unit] field gets the empty string as its unit, not null. *)
Lemma cloud_unit_defaults_to_empty_text :
  let item := PDict [(text "key", PStr (text "SOC")); (text "value", PInt 85)] in
  (forall py_repr,
      convert_item py_repr [] item
      = Ok [(text "soc", {| name := text "SOC"; value := PInt 85; unit := PStr [] |})])
  /\ PStr [] <> PNone.
Proof.
  split; [|discriminate].
  intros py_repr. vm_compute. reflexivity.
Qed.

(** C9, amended: the text parser gives a line of exactly two fragments the
    unit null; the cloud conversion gives a data item that has no [unit]
    field the empty string as unit, and carries a [unit] field that is there
    through as it is. *)
Theorem unit_when_not_supplied (py_repr : pyobj -> str) (data : snapshot)
  (line p0 p1 : str) (entries : list (str * pyobj)) (c : ascii) (key_text : str) :
  fragments (strip line) = [p0; p1] ->
  dict_get entries (text "key") = Some (PStr (c :: key_text)) ->
  (exists data',
      parse_line data line = Ok data'
      /\ dict_get data' (normalize_key (strip p0))
         = Some {| name := strip p0; value := text_value (strip p1); unit := PNone |})
  /\ (exists data' converted,
         convert_value py_repr (get_or entries (text "value") PNone) = Ok converted
         /\ convert_item py_repr data (PDict entries) = Ok data'
         /\ dict_get data' (normalize_key (c :: key_text))
            = Some {| name := c :: key_text; value := converted;
                      unit := get_or entries (text "unit") (PStr []) |})
  /\ (dict_get entries (text "unit") = None ->
      get_or entries (text "unit") (PStr []) = PStr []).
Proof.
  intros Hparts Hkey. split; [|split].
  - eexists. split.
    + rewrite parse_line_eq. reflexivity.
    + unfold parse_line_spec. rewrite Hparts. apply dict_get_set_same.
  - destruct (convert_value_total py_repr (get_or entries (text "value") PNone))
      as [converted [Hconv _]].
    eexists. exists converted. split; [exact Hconv|].
    unfold convert_item, obj_get, get_or in *.
    rewrite Hkey. cbn [bind truthy negb]. rewrite Hconv. cbn [bind].
    split; [reflexivity|]. apply dict_get_set_same.
  - intros Hunit. unfold get_or. now rewrite Hunit.
Qed.

Lemma unit_when_not_supplied_witness :
  let line := text "SOC" ++ [TAB] ++ text "85" in
  let entries := [(text "key", PStr (text "SOC")); (text "value", PInt 85)] in
  let py_repr := fun _ : pyobj => text "<object>" in
  (exists data',
      parse_line [] line = Ok data'
      /\ dict_get data' (text "soc")
         = Some {| name := text "SOC"; value := PInt 85; unit := PNone |})
  /\ (exists data' converted,
         convert_value py_repr (PInt 85) = Ok converted
         /\ convert_item py_repr [] (PDict entries) = Ok data'
         /\ dict_get data' (text "soc")
            = Some {| name := text "SOC"; value := converted; unit := PStr [] |})
  /\ (dict_get entries (text "unit") = None ->
      get_or entries (text "unit") (PStr []) = PStr []).
Proof.
  exact (unit_when_not_supplied (fun _ => text "<object>") []
           (text "SOC" ++ [TAB] ++ text "85") (text "SOC") (text "85")
           [(text "key", PStr (text "SOC")); (text "value", PInt 85)]
           "S"%char (text "OC") eq_refl eq_refl).
Defined.

(** ** The synthetic readings *)

(** C1, the claim as it stands: a response whose device list is empty is
    converted to the empty snapshot, which holds no [device_online] and no
    [last_update]. *)
Lemma empty_device_list_gives_empty_snapshot :
  (forall py_repr isoformat w,
      _convert_deye_response py_repr isoformat
        (PDict [(text "deviceDataList", PList [])]) w = Ok [])
  /\ dict_get ([] : snapshot) (text "device_online") = None
  /\ dict_get ([] : snapshot) (text "last_update") = None.
Proof. repeat split. Qed.

Section SyntheticReadings.
Variable py_repr : pyobj -> str.
Variable isoformat : datetime -> str.

Lemma convert_empty_payload (api_data : pyobj) (w : world) :
  empty_payload api_data = true ->
  _convert_deye_response py_repr isoformat api_data w = Ok [].
Proof.
  unfold empty_payload, _convert_deye_response.
  destruct (obj_get api_data (text "deviceDataList") PNone) as [devices|];
    [|discriminate].
  cbn [bind]. destruct (truthy devices); [|reflexivity].
  cbn [negb orb]. destruct (first_item devices) as [device|]; [|discriminate].
  cbn [bind].
  destruct (obj_get device (text "dataList") PNone) as [data_list|]; [|discriminate].
  cbn [bind]. now intros ->.
Qed.

Lemma convert_full_payload (api_data : pyobj) (w : world) (data : snapshot) :
  empty_payload api_data = false ->
  _convert_deye_response py_repr isoformat api_data w = Ok data ->
  exists readings,
    data = dict_set (dict_set readings (text "device_online") device_online)
             (text "last_update") (last_update isoformat w).
Proof.
  unfold empty_payload, _convert_deye_response.
  destruct (obj_get api_data (text "deviceDataList") PNone) as [devices|];
    [|discriminate].
  cbn [bind]. destruct (truthy devices); [|discriminate].
  cbn [negb orb]. destruct (first_item devices) as [device|]; [|discriminate].
  cbn [bind].
  destruct (obj_get device (text "dataList") PNone) as [data_list|]; [|discriminate].
  cbn [bind]. intros ->. cbn [negb].
  destruct (py_len data_list); [|discriminate]. cbn [bind].
  destruct (iterate data_list) as [items|]; [|discriminate]. cbn [bind].
  destruct (convert_items py_repr [] items) as [readings|]; [|discriminate].
  cbn [bind]. intros [= <-]. now exists readings.
Qed.

End SyntheticReadings.

(** C1, amended: a response with no [deviceDataList], or an empty one, or
    whose first device has no [dataList] or an empty one, is converted to
    the empty snapshot, which holds neither synthetic reading; every other
    conversion that succeeds holds both: [device_online] with value true and
    [last_update] with the time stamp of the conversion. *)
Theorem synthetic_readings (py_repr : pyobj -> str) (isoformat : datetime -> str)
  (api_data : pyobj) (w : world) :
  (empty_payload api_data = true ->
   _convert_deye_response py_repr isoformat api_data w = Ok [])
  /\ (forall data,
         empty_payload api_data = false ->
         _convert_deye_response py_repr isoformat api_data w = Ok data ->
         dict_get data (text "device_online")
         = Some {| name := text "Device Online"; value := PBool true; unit := PNone |}
         /\ dict_get data (text "last_update")
            = Some {| name := text "Last Update";
                      value := PStr (isoformat (now w)); unit := PNone |}).
Proof.
  split; [apply convert_empty_payload|].
  intros data Hfull Hconv.
  destruct (convert_full_payload py_repr isoformat api_data w data Hfull Hconv)
    as [readings ->].
  split.
  - rewrite dict_get_set_other by reflexivity. apply dict_get_set_same.
  - apply dict_get_set_same.
Qed.

(** The second part at work: one data item, and the two synthetic readings
    after it. *)
Example convert_one_item :
  forall py_repr isoformat w,
    _convert_deye_response py_repr isoformat
      (PDict [(text "deviceDataList",
               PList [PDict [(text "dataList",
                              PList [PDict [(text "key", PStr (text "SOC"));
                                            (text "value", PStr (text "85"));
                                            (text "unit", PStr (text "%"))]])]])]) w
    = Ok [(text "soc",
           {| name := text "SOC"; value := PInt 85; unit := PStr (text "%") |});
          (text "device_online", device_online);
          (text "last_update", last_update isoformat w)].
Proof. intros. vm_compute. reflexivity. Qed.

(** ** The retry controller *)

Section RetryProperties.
Context {St A : Type}.
Variable operation : St -> result A * St.
Variable delay : Z -> St -> St.
Variable terminal : option exn -> exn.
Variable retry_delay : Z.

Let run := with_retry operation delay terminal 3 retry_delay.

Lemma retry_success_first (s s' : St) (r : A) :
  operation s = (Ok r, s') -> run s = (Ok r, s', [Attempt 0%nat]).
Proof. intros H. unfold run, with_retry. simpl. now rewrite H. Qed.

Lemma retry_success_second (s0 s1 s2 : St) (e1 : exn) (r : A) :
  operation s0 = (Raise e1, s1) ->
  operation (delay retry_delay s1) = (Ok r, s2) ->
  run s0 = (Ok r, s2, [Attempt 0%nat; Delay retry_delay; Attempt 1%nat]).
Proof. intros H0 H1. unfold run, with_retry. simpl. now rewrite H0, H1. Qed.

Lemma retry_third_attempt (s0 s1 s2 s3 : St) (e1 e2 : exn) (last : result A) :
  operation s0 = (Raise e1, s1) ->
  operation (delay retry_delay s1) = (Raise e2, s2) ->
  operation (delay retry_delay s2) = (last, s3) ->
  run s0 = (match last with
            | Ok r => Ok r
            | Raise e3 => Raise (terminal (Some e3))
            end, s3,
            [Attempt 0%nat; Delay retry_delay; Attempt 1%nat; Delay retry_delay;
             Attempt 2%nat]).
Proof.
  intros H0 H1 H2. unfold run, with_retry. simpl. rewrite H0, H1, H2.
  now destruct last.
Qed.

End RetryProperties.

Lemma terminal_wraps_last (terminal : option exn -> exn) (e : exn) :
  is_terminal terminal ->
  exn_cls (terminal (Some e)) = UpdateFailed /\ exn_cause (terminal (Some e)) = Some e.
Proof. intros [-> | ->]; split; reflexivity. Qed.

(** C3: with three attempts, an operation that fails twice and then succeeds
    has its result returned after exactly two delays, each of the fixed
    length and each before a retry, and none after the success; one that
    fails three times makes the controller raise one [UpdateFailed], after
    exactly two delays, raised from the last failure; and a success, at the
    first or at the second attempt, ends the run at once.  This holds for
    every operation, on whatever state, under both terminal errors of the
    program; the two wrapped updates of a coordinator are this controller
    with three attempts and a delay of five seconds. *)
Theorem retry_controller {St A : Type} (operation : St -> result A * St)
  (delay : Z -> St -> St) (terminal : option exn -> exn) (retry_delay : Z)
  (s0 s1 s2 s3 : St) (e1 e2 : exn) (last : result A) :
  is_terminal terminal ->
  operation s0 = (Raise e1, s1) ->
  operation (delay retry_delay s1) = (Raise e2, s2) ->
  operation (delay retry_delay s2) = (last, s3) ->
  let run := with_retry operation delay terminal 3 retry_delay in
  let log := [Attempt 0%nat; Delay retry_delay; Attempt 1%nat; Delay retry_delay;
              Attempt 2%nat] in
  count_delays log = 2%nat
  /\ count_attempts log = 3%nat
  /\ (forall r, last = Ok r -> run s0 = (Ok r, s3, log))
  /\ (forall e3, last = Raise e3 ->
        run s0 = (Raise (terminal (Some e3)), s3, log)
        /\ exn_cls (terminal (Some e3)) = UpdateFailed
        /\ exn_cause (terminal (Some e3)) = Some e3)
  /\ (forall s s' r, operation s = (Ok r, s') -> run s = (Ok r, s', [Attempt 0%nat]))
  /\ (forall s s' s'' e r,
        operation s = (Raise e, s') ->
        operation (delay retry_delay s') = (Ok r, s'') ->
        run s = (Ok r, s'', [Attempt 0%nat; Delay retry_delay; Attempt 1%nat]))
  /\ (forall py_repr isoformat config w,
        _update_from_api_with_retry py_repr (DeyeCloudCoordinator config, w)
        = with_retry (api_operation py_repr) state_sleep api_terminal 3 5
            (DeyeCloudCoordinator config, w)
        /\ _update_from_deye_with_retry py_repr isoformat (DeyeCloudCoordinator config, w)
           = with_retry (deye_operation py_repr isoformat) state_sleep (deye_terminal 3) 3 5
               (DeyeCloudCoordinator config, w)).
Proof.
  intros Hterm H0 H1 H2 run log.
  pose proof (retry_third_attempt operation delay terminal retry_delay
                s0 s1 s2 s3 e1 e2 last H0 H1 H2) as Hrun.
  split; [reflexivity|]. split; [reflexivity|].
  split; [intros r ->; exact Hrun|].
  split.
  - intros e3 ->. split; [exact Hrun|]. now apply terminal_wraps_last.
  - split; [|split].
    + intros s s' r. apply retry_success_first.
    + intros s s' s'' e r. apply retry_success_second.
    + intros py_repr isoformat config w. split; reflexivity.
Qed.

Lemma retry_controller_witness :
  with_retry flaky (fun _ calls => calls) api_terminal 3 5 0%nat
  = (Ok 2%nat, 3%nat, [Attempt 0%nat; Delay 5; Attempt 1%nat; Delay 5; Attempt 2%nat])
  /\ with_retry broken (fun _ calls => calls) (deye_terminal 3) 3 5 0%nat
     = (Raise (Exception UpdateFailed
                 (text "Failed to update after 3 attempts: call 2")
                 (Some (Exception ClientError (text "call 2") None))),
        3%nat, [Attempt 0%nat; Delay 5; Attempt 1%nat; Delay 5; Attempt 2%nat]).
Proof.
  split.
  - exact (proj1 (proj2 (proj2
      (retry_controller flaky (fun _ calls => calls) api_terminal 5
         0%nat 1%nat 2%nat 3%nat _ _ (Ok 2%nat)
         (or_introl eq_refl) eq_refl eq_refl eq_refl))) 2%nat eq_refl).
  - exact (proj1 (proj1 (proj2 (proj2 (proj2
      (retry_controller broken (fun _ calls => calls) (deye_terminal 3) 5
         0%nat 1%nat 2%nat 3%nat _ _ (Raise _)
         (or_intror eq_refl) eq_refl eq_refl eq_refl)))) _ eq_refl)).
Defined.

(** ** The text-endpoint update *)

(** C6, the claim as it stands: a response with status 304, which is not a
    2xx, is no failure: its body goes to the text parser. *)
Lemma status_304_is_parsed :
  let resp := {| status := 304; body_text := Ok sample_text; body_json := not_json |} in
  (forall py_repr,
      fst (_update_from_api py_repr (DeyeCloudCoordinator api_config) (steady_world resp))
      = Ok sample_snapshot)
  /\ (200 <=? status resp) && (status resp <? 300) = false.
Proof. split; [intros py_repr; vm_compute|]; reflexivity. Qed.

(** C6, amended: in the text-endpoint mode a response whose status is 400 or
    more is a failure, an [UpdateFailed] whose message holds the status and
    the first 200 characters of the body; the body of a response with any
    status below 400 goes to the text parser, whose result is returned. *)
Theorem update_from_api_status (py_repr : pyobj -> str) (self : coordinator)
  (w : world) (target : pyobj) (resp : response) (body : str) :
  dict_get (_config self) CONF_URL = Some target ->
  answer (network w (List.length (sent w))) = Responded resp ->
  body_text resp = Ok body ->
  fst (_update_from_api py_repr self w)
  = if 400 <=? status resp
    then Raise (Exception UpdateFailed
                  (text "HTTP " ++ str_of_int (status resp) ++ text ": " ++ firstn 200 body)
                  None)
    else parse_deyecloud_text body.
Proof.
  intros Hurl Hanswer Hbody.
  unfold _update_from_api, dict_index, send. rewrite Hurl. cbn [fst snd].
  rewrite Hanswer, Hbody. now destruct (400 <=? status resp).
Qed.

Lemma update_from_api_status_witness :
  fst (_update_from_api (fun _ => text "<object>") (DeyeCloudCoordinator api_config)
         (steady_world {| status := 503;
                          body_text := Ok (text "Service Unavailable");
                          body_json := not_json |}))
  = Raise (Exception UpdateFailed (text "HTTP 503: Service Unavailable") None).
Proof.
  exact (update_from_api_status (fun _ => text "<object>")
           (DeyeCloudCoordinator api_config)
           (steady_world {| status := 503;
                            body_text := Ok (text "Service Unavailable");
                            body_json := not_json |})
           (PStr (text "http://inverter.local/feed"))
           {| status := 503; body_text := Ok (text "Service Unavailable");
              body_json := not_json |}
           (text "Service Unavailable") eq_refl eq_refl eq_refl).
Defined.

(** ** The token cache *)

Section TokenCache.
Variable py_repr : pyobj -> str.

Lemma token_cache_hit (self : coordinator) (w : world) (expires : datetime) :
  truthy (_access_token self) = true ->
  _token_expires_at self = Some expires ->
  now w < expires ->
  _get_deye_token py_repr self w = (Ok (_access_token self), self, w).
Proof.
  intros Htoken Hexp Hnow. unfold _get_deye_token, token_cached.
  rewrite Htoken, Hexp. apply Z.ltb_lt in Hnow. now rewrite Hnow.
Qed.

Lemma token_cache_miss (self : coordinator) (w : world) (req : request) :
  token_request py_repr (_server self) (_config self) 20 = Ok req ->
  token_cached self w = false ->
  exists out,
    _get_deye_token py_repr self w
    = (out,
       match out with
       | Ok token => set_token self token (now (snd (send req w)) + one_hour)
       | Raise _ => self
       end,
       snd (send req w)).
Proof.
  intros Hreq Hmiss. unfold _get_deye_token. rewrite Hmiss, Hreq.
  destruct (send req w) as [out w'] eqn:Hsend. cbn [snd].
  destruct out as [resp|e].
  - destruct (token_of_response py_repr resp) as [token|e].
    + now exists (Ok token).
    + now exists (Raise (reclassify (text "Network error during authentication: ") e)).
  - now exists (Raise (reclassify (text "Network error during authentication: ") e)).
Qed.

(** Every call leaves the coordinator as it was, or returns a token and
    stores it together with an expiry; a call that raises leaves it as it
    was. *)
Lemma get_token_cases (self : coordinator) (w : world) :
  let '(out, self', w') := _get_deye_token py_repr self w in
  match out with
  | Ok token => self' = self \/ self' = set_token self token (now w' + one_hour)
  | Raise _ => self' = self
  end.
Proof.
  unfold _get_deye_token.
  destruct (token_cached self w); [now left|].
  destruct (token_request py_repr (_server self) (_config self) 20) as [req|];
    [|reflexivity].
  destruct (send req w) as [out w'].
  destruct out as [resp|e]; [|reflexivity].
  destruct (token_of_response py_repr resp); [now right|reflexivity].
Qed.

Lemma stale_is_miss (self : coordinator) (w : world) :
  _access_token self = PNone
  \/ _token_expires_at self = None
  \/ (exists expires, _token_expires_at self = Some expires /\ expires <= now w) ->
  token_cached self w = false.
Proof.
  unfold token_cached. intros [H | [H | [expires [H Hle]]]]; rewrite H.
  - reflexivity.
  - apply andb_false_r.
  - apply Z.ltb_ge in Hle. rewrite Hle. apply andb_false_r.
Qed.

End TokenCache.

(** C4, the claim as it stands: a cached token that is the empty string is
    there, and not expired, and yet the next call goes to the network. *)
Lemma empty_token_is_not_reused :
  PStr [] <> PNone
  /\ forall py_repr,
      let w0 := steady_world (token_reply (PStr [])) in
      let first := _get_deye_token py_repr (DeyeCloudCoordinator deye_config) w0 in
      let self1 := snd (fst first) in
      let w1 := snd first in
      let second := _get_deye_token py_repr self1 w1 in
      fst (fst first) = Ok (PStr [])
      /\ _access_token self1 = PStr []
      /\ _token_expires_at self1 = Some (now w1 + one_hour)
      /\ now w1 < now w1 + one_hour
      /\ List.length (sent w1) = 1%nat
      /\ List.length (sent (snd second)) = 2%nat.
Proof.
  split; [discriminate|]. intros py_repr. vm_compute. repeat split.
Qed.

(** C4, amended: when the cached token is truthy (a token that is not the
    empty string) and the clock is strictly before the cached expiry,
    [_get_deye_token] returns that very token and sends nothing; when there
    is no cached token, or no expiry, or the clock has reached the expiry,
    it sends exactly one request, and if that succeeds the token returned is
    cached with an expiry one hour after the clock at the moment the reply
    was received. *)
Theorem token_cache (py_repr : pyobj -> str) (self : coordinator) (w : world)
  (req : request) :
  token_request py_repr (_server self) (_config self) 20 = Ok req ->
  let call := _get_deye_token py_repr self w in
  (forall expires,
      truthy (_access_token self) = true ->
      _token_expires_at self = Some expires ->
      now w < expires ->
      call = (Ok (_access_token self), self, w))
  /\ (_access_token self = PNone
      \/ _token_expires_at self = None
      \/ (exists expires, _token_expires_at self = Some expires /\ expires <= now w) ->
      sent (snd call) = sent w ++ [req]
      /\ now (snd call) = now w + latency (network w (List.length (sent w)))
      /\ forall token,
          fst (fst call) = Ok token ->
          _access_token (snd (fst call)) = token
          /\ _token_expires_at (snd (fst call)) = Some (now (snd call) + 3600 * 1000000)).
Proof.
  intros Hreq call. split.
  - intros expires. apply token_cache_hit.
  - intros Hstale. apply stale_is_miss in Hstale.
    destruct (token_cache_miss py_repr self w req Hreq Hstale) as [out Hcall].
    subst call. rewrite Hcall. cbn [fst snd].
    split; [reflexivity|]. split; [reflexivity|].
    intros token ->. split; reflexivity.
Qed.

Lemma token_cache_witness :
  let py_repr := fun _ : pyobj => text "<object>" in
  let w0 := steady_world (token_reply (PStr (text "tok-1"))) in
  let first := _get_deye_token py_repr (DeyeCloudCoordinator deye_config) w0 in
  fst (fst first) = Ok (PStr (text "tok-1"))
  /\ _token_expires_at (snd (fst first)) = Some (250000 + 3600 * 1000000)
  /\ _get_deye_token py_repr (snd (fst first)) (snd first)
     = (Ok (PStr (text "tok-1")), snd (fst first), snd first).
Proof.
  cbv zeta.
  pose (py_repr := fun _ : pyobj => text "<object>").
  pose (w0 := steady_world (token_reply (PStr (text "tok-1")))).
  pose (first := _get_deye_token py_repr (DeyeCloudCoordinator deye_config) w0).
  destruct (token_request py_repr (PStr SERVER_EU) deye_config 20) as [req|] eqn:Hreq;
    [|discriminate].
  pose proof (token_cache py_repr (DeyeCloudCoordinator deye_config) w0 req Hreq)
    as [_ Hmiss].
  pose proof (token_cache py_repr (snd (fst first)) (snd first) req Hreq) as [Hhit _].
  split; [reflexivity|]. split.
  - apply (Hmiss (or_introl eq_refl)) with (token := PStr (text "tok-1")).
    reflexivity.
  - apply (Hhit (250000 + 3600 * 1000000)); reflexivity.
Defined.

(** C10, the claim as it stands: a successful answer whose [accessToken] is
    null leaves the cache with no token and with an expiry. *)
Lemma null_token_sets_expiry_only :
  Some (250000 + one_hour) <> None
  /\ forall py_repr,
      let w0 := steady_world (token_reply PNone) in
      let call := _get_deye_token py_repr (DeyeCloudCoordinator deye_config) w0 in
      fst (fst call) = Ok PNone
      /\ _access_token (snd (fst call)) = PNone
      /\ _token_expires_at (snd (fst call)) = Some (250000 + one_hour)
      /\ reachable py_repr (fun _ => True) (snd (fst call)).
Proof.
  split; [discriminate|]. intros py_repr w0 call.
  split; [reflexivity|]. split; [reflexivity|]. split; [reflexivity|].
  apply reach_call; [apply reach_init|trivial].
Qed.

Section CacheInvariant.
Variable py_repr : pyobj -> str.

Lemma get_token_raise_keeps (self : coordinator) (w : world) (e : exn) :
  fst (fst (_get_deye_token py_repr self w)) = Raise e ->
  snd (fst (_get_deye_token py_repr self w)) = self.
Proof.
  pose proof (get_token_cases py_repr self w) as H.
  destruct (_get_deye_token py_repr self w) as [[out self'] w'].
  cbn [fst snd]. intros ->. exact H.
Qed.

Lemma get_token_step (self : coordinator) (w : world) :
  let call := _get_deye_token py_repr self w in
  snd (fst call) = self
  \/ exists token,
      fst (fst call) = Ok token
      /\ snd (fst call) = set_token self token (now (snd call) + one_hour).
Proof.
  pose proof (get_token_cases py_repr self w) as H.
  destruct (_get_deye_token py_repr self w) as [[out self'] w'].
  cbn [fst snd]. destruct out as [token|e]; [|now left].
  destruct H as [H|H]; [now left|right]. now exists token.
Qed.

Lemma expiry_set_with_token (allowed : pyobj -> Prop) (self : coordinator) :
  reachable py_repr allowed self ->
  _token_expires_at self = None -> _access_token self = PNone.
Proof.
  induction 1 as [config | self w Hreach IH Hallowed]; [reflexivity|].
  destruct (get_token_step self w) as [-> | [token [_ ->]]]; [exact IH|].
  discriminate.
Qed.

Lemma both_or_neither (self : coordinator) :
  reachable py_repr (fun token => token <> PNone) self ->
  (_access_token self = PNone /\ _token_expires_at self = None)
  \/ (_access_token self <> PNone /\ _token_expires_at self <> None).
Proof.
  induction 1 as [config | self w Hreach IH Hallowed]; [now left|].
  destruct (get_token_step self w) as [-> | [token [Hok ->]]]; [exact IH|].
  right. split; [|discriminate]. exact (Hallowed token Hok).
Qed.

End CacheInvariant.

(** C10, amended: the two fields of the cache start as [None]; a call of
    [_get_deye_token] leaves them both as they were or assigns them both,
    the token returned and an expiry, and a call that raises, for whatever
    reason, leaves the coordinator as it was; so in every reachable state an
    expiry is set whenever a token is, and the fields are both [None] or both
    set as long as no successful answer carried a null [accessToken]. *)
Theorem token_cache_invariant (py_repr : pyobj -> str) :
  (forall config,
      _access_token (DeyeCloudCoordinator config) = PNone
      /\ _token_expires_at (DeyeCloudCoordinator config) = None)
  /\ (forall self w,
         let call := _get_deye_token py_repr self w in
         snd (fst call) = self
         \/ exists token,
             fst (fst call) = Ok token
             /\ _access_token (snd (fst call)) = token
             /\ _token_expires_at (snd (fst call)) = Some (now (snd call) + one_hour))
  /\ (forall self w e,
         fst (fst (_get_deye_token py_repr self w)) = Raise e ->
         snd (fst (_get_deye_token py_repr self w)) = self)
  /\ (forall self,
         reachable py_repr (fun _ => True) self ->
         _access_token self <> PNone -> _token_expires_at self <> None)
  /\ (forall self,
         reachable py_repr (fun token => token <> PNone) self ->
         (_access_token self = PNone /\ _token_expires_at self = None)
         \/ (_access_token self <> PNone /\ _token_expires_at self <> None)).
Proof.
  split; [now split|]. split; [|split; [|split]].
  - intros self w call.
    destruct (get_token_step py_repr self w) as [H | [token [Hok H]]]; [now left|].
    right. exists token. fold call in Hok, H. rewrite H. now split.
  - apply get_token_raise_keeps.
  - intros self Hreach Htoken Hexp. apply Htoken.
    eapply expiry_set_with_token; eauto.
  - apply both_or_neither.
Qed.

(** ** The password in the token request *)

Lemma add_ok (a b : Z) : word_ok (SHA256.add a b).
Proof. unfold word_ok, SHA256.add, SHA256.word. apply Z.mod_pos_bound. reflexivity. Qed.

Lemma compress_ok (h block : list Z) : Forall word_ok (SHA256.compress h block).
Proof.
  unfold SHA256.compress. apply Forall_forall. intros x Hx.
  apply in_map_iff in Hx as [p [<- _]]. apply add_ok.
Qed.

Lemma hash_state_ok (blocks : list (list Z)) (h : list Z) :
  Forall word_ok h -> Forall word_ok (fold_left SHA256.compress blocks h).
Proof.
  revert h; induction blocks as [|b rest IH]; intros h Hh; [exact Hh|].
  simpl. apply IH, compress_ok.
Qed.

Lemma H0_ok : Forall word_ok SHA256.H0.
Proof.
  unfold SHA256.H0. apply Forall_forall. intros x Hx.
  apply in_map_iff in Hx as [p [<- _]].
  unfold SHA256.fractional_root, SHA256.word, word_ok.
  apply Z.mod_pos_bound. reflexivity.
Qed.

Lemma word_bytes_ok (w : Z) : word_ok w -> Forall byte_ok (SHA256.word_bytes w).
Proof.
  unfold word_ok, byte_ok, SHA256.word_bytes.
  change (2 ^ 32) with 4294967296. change (2 ^ 24) with 16777216.
  change (2 ^ 16) with 65536. change (2 ^ 8) with 256.
  intros Hw. repeat apply Forall_cons; try apply Forall_nil;
    try (apply Z.mod_pos_bound; lia).
  split; [apply Z.div_pos; lia|apply Z.div_lt_upper_bound; lia].
Qed.

Lemma digest_ok (msg : list Z) : Forall byte_ok (SHA256.digest msg).
Proof.
  unfold SHA256.digest. apply Forall_flat_map.
  eapply Forall_impl; [apply word_bytes_ok|].
  apply hash_state_ok, H0_ok.
Qed.

Lemma hex_digit_ok (d : Z) : 0 <= d < 16 -> is_lower_hex (hex_digit d) = true.
Proof.
  intros Hd.
  assert (H : d = 0 \/ d = 1 \/ d = 2 \/ d = 3 \/ d = 4 \/ d = 5 \/ d = 6 \/ d = 7 \/ d = 8
              \/ d = 9 \/ d = 10 \/ d = 11 \/ d = 12 \/ d = 13 \/ d = 14 \/ d = 15) by lia.
  repeat (destruct H as [-> | H]; [reflexivity|]). subst d. reflexivity.
Qed.

Lemma hexdigest_ok (bytes : list Z) :
  Forall byte_ok bytes -> Forall (fun c => is_lower_hex c = true) (hexdigest bytes).
Proof.
  unfold hexdigest, byte_ok. intros H. apply Forall_flat_map.
  eapply Forall_impl; [|exact H].
  intros b Hb. cbv beta in Hb.
  repeat apply Forall_cons; try apply Forall_nil; apply hex_digit_ok.
  - split; [apply Z.div_pos; lia|apply Z.div_lt_upper_bound; lia].
  - apply Z.mod_pos_bound; lia.
Qed.

Lemma flat_map_length {X Y} (f : X -> list Y) (k : nat) (l : list X) :
  (forall x, List.length (f x) = k) ->
  List.length (flat_map f l) = (k * List.length l)%nat.
Proof.
  intros Hf. induction l as [|x rest IH]; simpl; [lia|].
  rewrite length_app, Hf, IH. lia.
Qed.

Lemma round_length (st : list Z) (kw : Z * Z) :
  List.length st = 8%nat -> List.length (SHA256.round st kw) = 8%nat.
Proof.
  intros H. do 8 (destruct st as [|? st]; [discriminate|]).
  destruct st; [reflexivity|discriminate].
Qed.

Lemma rounds_length (kws : list (Z * Z)) (st : list Z) :
  List.length st = 8%nat -> List.length (fold_left SHA256.round kws st) = 8%nat.
Proof.
  revert st; induction kws as [|kw rest IH]; intros st H; [exact H|].
  simpl. apply IH, round_length, H.
Qed.

Lemma compress_length (h block : list Z) :
  List.length h = 8%nat -> List.length (SHA256.compress h block) = 8%nat.
Proof.
  intros H. unfold SHA256.compress.
  rewrite length_map, length_combine, rounds_length, H; [reflexivity|exact H].
Qed.

Lemma hash_state_length (blocks : list (list Z)) (h : list Z) :
  List.length h = 8%nat -> List.length (fold_left SHA256.compress blocks h) = 8%nat.
Proof.
  revert h; induction blocks as [|b rest IH]; intros h H; [exact H|].
  simpl. apply IH, compress_length, H.
Qed.

Lemma hexdigest_length (msg : list Z) :
  List.length (hexdigest (SHA256.digest msg)) = 64%nat.
Proof.
  unfold hexdigest, SHA256.digest.
  rewrite (flat_map_length _ 2) by reflexivity.
  rewrite (flat_map_length _ 4) by reflexivity.
  rewrite hash_state_length; reflexivity.
Qed.

(** C8, the claim as it stands: when the password is also the text of
    another field, here the e-mail entry, the request carries the raw
    password as a value. *)
Lemma password_equal_to_email_is_sent :
  dict_get careless_config CONF_PASSWORD = Some (PStr (text "hunter2"))
  /\ forall py_repr,
      exists req,
        token_request py_repr (PStr SERVER_EU) careless_config 20 = Ok req
        /\ validation_request py_repr careless_config
           = token_request py_repr (PStr SERVER_EU) careless_config 10
        /\ In (PStr (text "hunter2")) (request_values req).
Proof.
  split; [reflexivity|]. intros py_repr. eexists.
  split; [reflexivity|]. split; [reflexivity|].
  vm_compute. tauto.
Qed.

Lemma send_sent (req : request) (w : world) : sent (snd (send req w)) = sent w ++ [req].
Proof. reflexivity. Qed.

(** C8, amended: the token request, of the polling path and of the
    validation at setup alike, has in its JSON body the field [password]
    equal to the SHA-256 digest of the configured password in 64 lower-case
    hexadecimal digits; the password itself is put nowhere in the request,
    whose values are the URL, [appId], [appSecret], [email], that digest and
    the content type: the raw password is among them only if it is equal to
    one of these. *)
Theorem password_is_hashed (py_repr : pyobj -> str) (server : pyobj)
  (config : list (str * pyobj)) (seconds : Z) (req : request) (password : str) :
  dict_get config CONF_PASSWORD = Some (PStr password) ->
  token_request py_repr server config seconds = Ok req ->
  let digest := hexdigest (SHA256.digest (encode password)) in
  (exists app_id app_secret email,
      dict_get config CONF_APP_ID = Some app_id
      /\ dict_get config CONF_APP_SECRET = Some app_secret
      /\ dict_get config CONF_EMAIL = Some email
      /\ req = {| method := text "POST";
                  url := PStr (token_url py_repr server);
                  params := [(text "appId", app_id)];
                  json := Some (PDict [(text "appSecret", app_secret);
                                       (text "email", email);
                                       (text "password", PStr digest)]);
                  headers := [(text "Content-Type", text "application/json")];
                  timeout := seconds |}
      /\ (In (PStr password) (request_values req) ->
          password = token_url py_repr server
          \/ PStr password = app_id
          \/ PStr password = app_secret
          \/ PStr password = email
          \/ password = digest
          \/ password = text "application/json"))
  /\ List.length digest = 64%nat
  /\ Forall (fun c => is_lower_hex c = true) digest
  /\ (forall self w,
         _server self = server -> _config self = config -> seconds = 20 ->
         token_cached self w = false ->
         sent (snd (_get_deye_token py_repr self w)) = sent w ++ [req])
  /\ (forall w,
         dict_get config CONF_SERVER = Some server -> seconds = 10 ->
         sent (snd (_validate_config py_repr config w)) = sent w ++ [req]).
Proof.
  intros Hpw Hreq digest.
  split; [|split; [apply hexdigest_length|split; [apply hexdigest_ok, digest_ok|split]]].
  - unfold token_request, dict_index in Hreq. rewrite Hpw in Hreq.
    cbn [bind password_hash] in Hreq.
    destruct (dict_get config CONF_APP_ID) as [app_id|]; [|discriminate].
    destruct (dict_get config CONF_APP_SECRET) as [app_secret|]; [|discriminate].
    destruct (dict_get config CONF_EMAIL) as [email|]; [|discriminate].
    cbn [bind] in Hreq. injection Hreq as <-.
    exists app_id, app_secret, email. repeat (split; [reflexivity|]).
    unfold request_values. cbn [url params json headers map snd app json_headers].
    intros Hin. simpl in Hin.
    destruct Hin as [H | [H | [H | [H | [H | [H | []]]]]]].
    + left. now injection H.
    + right. left. now symmetry.
    + right. right. left. now symmetry.
    + right. right. right. left. now symmetry.
    + right. right. right. right. left. now injection H.
    + right. right. right. right. right. now injection H.
  - intros self w <- <- -> Hmiss.
    destruct (token_cache_miss py_repr self w req Hreq Hmiss) as [out ->].
    apply send_sent.
  - intros w Hserver ->.
    unfold _validate_config, validation_request, dict_index. rewrite Hserver.
    cbn [bind]. rewrite Hreq.
    destruct (send req w) as [out w'] eqn:Hsend.
    assert (Hw' : sent w' = sent w ++ [req])
      by (rewrite <- (send_sent req w), Hsend; reflexivity).
    destruct out as [resp|e]; [|exact Hw'].
    destruct (validate_response py_repr resp); exact Hw'.
Qed.

Lemma password_is_hashed_witness :
  let py_repr := fun _ : pyobj => text "<object>" in
  exists req,
    token_request py_repr (PStr SERVER_EU) deye_config 20 = Ok req
    /\ json req
       = Some (PDict [(text "appSecret", PStr (text "9f2c7d"));
                      (text "email", PStr (text "owner@example.org"));
                      (text "password",
                       PStr (text "4104d36f8da2c254349f85836793ebe029e0c957063a34c91c2e9203187b5631"))])
    /\ ~ In (PStr (text "correct horse")) (request_values req).
Proof.
  cbv zeta.
  destruct (token_request (fun _ => text "<object>") (PStr SERVER_EU) deye_config 20)
    as [req|] eqn:Hreq; [|discriminate].
  exists req. split; [reflexivity|].
  destruct (password_is_hashed (fun _ => text "<object>") (PStr SERVER_EU) deye_config 20
              req (text "correct horse") eq_refl Hreq)
    as [[app_id [app_secret [email [Hid [Hsecret [Hemail [-> Hin]]]]]]] _].
  injection Hid as <-. injection Hsecret as <-. injection Hemail as <-.
  split; [vm_compute; reflexivity|].
  intros H. apply Hin in H.
  destruct H as [H | [H | [H | [H | [H | H]]]]]; vm_compute in H; discriminate.
Defined.

(** ** The model at work *)

Example normalize_key_examples :
  map normalize_key
    [text "Grid Power"; text "  Battery SOC (%) "; text "a - b/c"; text "PV1__Voltage";
     text "___"; []]
  = [text "grid_power"; text "battery_soc_%_"; text "a_b_c"; text "pv1_voltage";
     text "_"; []].
Proof. vm_compute. reflexivity. Qed.

Example splitlines_examples :
  splitlines (text "a" ++ [LF] ++ text "b" ++ [CR; LF; CR] ++ text "c" ++ [LF])
  = [text "a"; text "b"; []; text "c"]
  /\ splitlines [] = []
  /\ split TAB (text "a" ++ [TAB; TAB] ++ text "b" ++ [TAB]) = [text "a"; []; text "b"; []].
Proof. repeat split. Qed.

Example py_int_examples :
  map py_int [text "12"; text " -7 "; text "+1_000"; text "007"; text "1__0"; text "12a";
              text "- 1"; []]
  = [Ok 12; Ok (-7); Ok 1000; Ok 7; Raise (builtin ValueError); Raise (builtin ValueError);
     Raise (builtin ValueError); Raise (builtin ValueError)].
Proof. vm_compute. reflexivity. Qed.

(** 0.1 and 1e23 are rounded to the nearest binary64, 1e400 overflows, and a
    text that is no float literal is refused. *)
Example py_float_examples :
  map py_float [text "0.1"; text "1e23"; text "-0.0"; text "1e400"; text ".5e1";
                text "Infinity"; text "1e"; text "."; text "1_0.2_5"; text "1_.5"]
  = [Ok (S754_finite false 7205759403792794 (-56));
     Ok (S754_finite false 5960464477539062 24);
     Ok (S754_zero true);
     Ok (S754_infinity false);
     Ok (S754_finite false 5629499534213120 (-50));
     Ok (S754_infinity false);
     Raise (builtin ValueError);
     Raise (builtin ValueError);
     Ok (S754_finite false 5770237022568448 (-49));
     Raise (builtin ValueError)].
Proof. vm_compute. reflexivity. Qed.

Example str_of_int_examples :
  map str_of_int [0; 7; 10; 404; -15; 65536]
  = [text "0"; text "7"; text "10"; text "404"; text "-15"; text "65536"].
Proof. vm_compute. reflexivity. Qed.

(** The test vector of FIPS 180-4 for the message [abc]. *)
Example sha256_abc :
  hexdigest (SHA256.digest (encode (text "abc")))
  = text "ba7816bf8f01cfea414140de5dae2223b00361a396177a9cb410ff61f20015ad".
Proof. vm_compute. reflexivity. Qed.

(** A network that fails twice and then serves the sample text: the wrapped
    text-endpoint update returns its two readings after three requests and
    two waits of five seconds. *)
Example update_from_api_with_retry_recovers :
  forall py_repr,
    let w0 := {| clock := 0; sent := [];
                 network := fun n =>
                   {| latency := 1000000;
                      answer := if (n <? 2)%nat
                                then Failed (Exception ClientError (text "reset") None)
                                else Responded {| status := 200;
                                                  body_text := Ok sample_text;
                                                  body_json := not_json |} |} |} in
    let '(result, s, log) :=
      _update_from_api_with_retry py_repr (DeyeCloudCoordinator api_config, w0) in
    result = Ok sample_snapshot
    /\ log = [Attempt 0%nat; Delay 5; Attempt 1%nat; Delay 5; Attempt 2%nat]
    /\ List.length (sent (snd s)) = 3%nat
    /\ clock (snd s) = 13000000.
Proof. intros py_repr. vm_compute. repeat split. Qed.

(** The message of a failed fetch holds no more than the first 200
    characters of the body. *)
Example update_from_api_truncates :
  forall py_repr,
    fst (_update_from_api py_repr (DeyeCloudCoordinator api_config)
           (steady_world {| status := 500;
                            body_text := Ok (repeat "x"%char 450);
                            body_json := not_json |}))
    = Raise (Exception UpdateFailed (text "HTTP 500: " ++ repeat "x"%char 200) None).
Proof. intros py_repr. vm_compute. reflexivity. Qed.

(** * Further properties *)

(** ** The retry controller, for any number of attempts *)

Lemma count_attempts_app (l1 l2 : list retry_event) :
  count_attempts (l1 ++ l2) = (count_attempts l1 + count_attempts l2)%nat.
Proof. unfold count_attempts. now rewrite filter_app, length_app. Qed.

Lemma count_delays_app (l1 l2 : list retry_event) :
  count_delays (l1 ++ l2) = (count_delays l1 + count_delays l2)%nat.
Proof. unfold count_delays. now rewrite filter_app, length_app. Qed.

Section RetryGeneral.
Context {St A : Type}.
Variable operation : St -> result A * St.
Variable delay : Z -> St -> St.
Variable terminal : option exn -> exn.
Variable max_retries : nat.
Variable retry_delay : Z.

Lemma retry_loop_counts (len : nat) :
  forall (a : nat) (last : option exn) (s : St) (log : list retry_event),
    (a + len = max_retries)%nat ->
    delays_are retry_delay log ->
    let '(res, s', log') :=
      retry_loop operation delay terminal max_retries retry_delay (seq a len) last s log in
    exists k,
      (k <= len)%nat
      /\ count_attempts log' = (count_attempts log + k)%nat
      /\ count_delays log' = (count_delays log + (k - 1))%nat
      /\ delays_are retry_delay log'
      /\ match res with
         | Ok _ => (1 <= k)%nat
         | Raise e =>
             k = len
             /\ exists last', e = terminal last' /\ (len = 0%nat -> last' = last /\ s' = s)
         end.
Proof.
  induction len as [|len IH]; intros a last s log Hlen Hlog.
  - simpl. exists 0%nat. repeat split; try lia; auto.
    exists last. auto.
  - cbn [seq retry_loop].
    destruct (operation s) as [[data|err] s1] eqn:Hop.
    + exists 1%nat. rewrite count_attempts_app, count_delays_app.
      repeat split; try (cbn; lia).
      apply Forall_app. split; [exact Hlog|]. now repeat constructor.
    + destruct (a <? max_retries - 1)%nat eqn:Hlt.
      * specialize (IH (S a) (Some err) (delay retry_delay s1)
                      (log ++ [Attempt a; Delay retry_delay])).
        assert (Hlog' : delays_are retry_delay (log ++ [Attempt a; Delay retry_delay])).
        { apply Forall_app. split; [exact Hlog|]. now repeat constructor. }
        specialize (IH ltac:(lia) Hlog').
        destruct (retry_loop operation delay terminal max_retries retry_delay
                    (seq (S a) len) (Some err) (delay retry_delay s1)
                    (log ++ [Attempt a; Delay retry_delay])) as [[res s'] log'].
        destruct IH as [k [Hk [Hatt [Hdel [Hd Hres]]]]].
        rewrite count_attempts_app in Hatt. rewrite count_delays_app in Hdel.
        cbn in Hatt, Hdel.
        apply Nat.ltb_lt in Hlt.
        assert (Hk1 : (1 <= k)%nat).
        { destruct res as [r|e]; [exact Hres|]. destruct Hres as [-> _]. lia. }
        exists (S k). repeat split; try lia; auto.
        destruct res as [r|e]; [lia|].
        destruct Hres as [-> [last' [-> _]]]. split; [reflexivity|].
        exists last'. split; [reflexivity|]. discriminate.
      * apply Nat.ltb_ge in Hlt.
        assert (len = 0%nat) by lia. subst len. simpl.
        exists 1%nat. rewrite count_attempts_app, count_delays_app.
        repeat split; try (cbn; lia).
        -- apply Forall_app. split; [exact Hlog|]. now repeat constructor.
        -- exists (Some err). split; [reflexivity|]. discriminate.
Qed.

(** The state of a later call, seen from the call after the first. *)
Lemma attempt_state_shift (s : St) (k : nat) :
  attempt_state operation delay retry_delay s (S k)
  = attempt_state operation delay retry_delay
      (delay retry_delay (snd (operation s))) k.
Proof.
  induction k as [|k IH]; [reflexivity|].
  change (attempt_state operation delay retry_delay s (S (S k)))
    with (delay retry_delay
            (snd (operation (attempt_state operation delay retry_delay s (S k))))).
  now rewrite IH.
Qed.

(** The loop from any attempt on: which calls it makes, in which states,
    what it logs and what it returns. *)
Lemma retry_loop_run (len : nat) :
  forall (a : nat) (last : option exn) (s : St) (log : list retry_event),
    (a + len = max_retries)%nat ->
    let '(res, s', log') :=
      retry_loop operation delay terminal max_retries retry_delay (seq a len) last s log in
    exists k,
      (k <= len)%nat
      /\ log' = log ++ calls_log retry_delay a k
      /\ (forall j, (S j < k)%nat ->
            exists err,
              fst (operation (attempt_state operation delay retry_delay s j)) = Raise err)
      /\ match res with
         | Ok data =>
             (1 <= k)%nat
             /\ operation (attempt_state operation delay retry_delay s (k - 1))
                = (Ok data, s')
         | Raise e =>
             k = len
             /\ match len with
                | O => e = terminal last /\ s' = s
                | S m =>
                    exists err,
                      operation (attempt_state operation delay retry_delay s m)
                      = (Raise err, s')
                      /\ e = terminal (Some err)
                end
         end.
Proof.
  induction len as [|len IH]; intros a last s log Hlen.
  - cbn [seq retry_loop]. exists 0%nat. cbn [calls_log]. rewrite app_nil_r.
    split; [lia|]. split; [reflexivity|]. split; [intros j Hj; lia|]. now split.
  - cbn [seq retry_loop].
    destruct (operation s) as [[data|err] s1] eqn:Hop.
    + exists 1%nat. split; [lia|]. split; [reflexivity|].
      split; [intros j Hj; lia|]. split; [lia|exact Hop].
    + destruct (a <? max_retries - 1)%nat eqn:Hlt.
      * apply Nat.ltb_lt in Hlt.
        specialize (IH (S a) (Some err) (delay retry_delay s1)
                      (log ++ [Attempt a; Delay retry_delay]) ltac:(lia)).
        destruct (retry_loop operation delay terminal max_retries retry_delay
                    (seq (S a) len) (Some err) (delay retry_delay s1)
                    (log ++ [Attempt a; Delay retry_delay])) as [[res s'] log'].
        destruct IH as [k [Hk [Hlog [Hbefore Hres]]]].
        assert (Hs1 : delay retry_delay s1 = delay retry_delay (snd (operation s)))
          by now rewrite Hop.
        assert (Hk1 : (1 <= k)%nat).
        { destruct res as [r|e]; [apply Hres|]. destruct Hres as [-> _]. lia. }
        exists (S k). split; [lia|]. split.
        { rewrite Hlog, <- app_assoc. f_equal.
          destruct k as [|k']; [lia|reflexivity]. }
        split.
        { intros [|j] Hj.
          - exists err. cbn [attempt_state]. now rewrite Hop.
          - rewrite attempt_state_shift, <- Hs1. apply Hbefore. lia. }
        destruct res as [r|e].
        -- destruct Hres as [_ Hlast]. split; [lia|].
           destruct k as [|k']; [lia|].
           cbn [Nat.sub] in Hlast |- *. rewrite Nat.sub_0_r in *.
           now rewrite attempt_state_shift, <- Hs1.
        -- destruct Hres as [-> Hlast]. split; [reflexivity|].
           destruct len as [|m]; [lia|].
           destruct Hlast as [err' [Hlast ->]]. exists err'.
           split; [|reflexivity]. now rewrite attempt_state_shift, <- Hs1.
      * apply Nat.ltb_ge in Hlt.
        assert (len = 0%nat) by lia. subst len. cbn [seq retry_loop].
        exists 1%nat. split; [lia|]. split; [reflexivity|].
        split; [intros j Hj; lia|]. split; [reflexivity|].
        exists err. now split.
Qed.

Lemma calls_log_counts (n a : nat) :
  count_attempts (calls_log retry_delay a n) = n
  /\ count_delays (calls_log retry_delay a n) = (n - 1)%nat
  /\ delays_are retry_delay (calls_log retry_delay a n).
Proof.
  revert a; induction n as [|n IH]; intros a.
  - repeat split. constructor.
  - destruct n as [|n].
    + repeat split. repeat constructor.
    + destruct (IH (S a)) as [Hatt [Hdel Hd]].
      change (calls_log retry_delay a (S (S n)))
        with ([Attempt a; Delay retry_delay] ++ calls_log retry_delay (S a) (S n)).
      rewrite count_attempts_app, count_delays_app, Hatt, Hdel.
      split; [reflexivity|]. split; [cbn; lia|].
      apply Forall_app. split; [now repeat constructor|exact Hd].
Qed.

End RetryGeneral.

(** X1: whatever the number of attempts configured, the operation and the
    state, the controller logs its calls in their order with one wait of the
    fixed delay between each two of them and none after the last, and makes
    at most the configured number of calls; each call is made in the state
    the call before left, after the wait, and every call but the last has
    raised.  If it returns, the last call returned that result; it raises
    only after all the attempts, and what it raises is the terminal error
    built from the exception of the last call, in the state that call left,
    with no wait after it; with no attempt at all it raises at once, from no
    exception, and leaves the state alone. *)
Theorem retry_bounds {St A : Type} (operation : St -> result A * St)
  (delay : Z -> St -> St) (terminal : option exn -> exn) (max_retries : nat)
  (retry_delay : Z) (s : St) :
  let '(res, s', log) := with_retry operation delay terminal max_retries retry_delay s in
  let calls := count_attempts log in
  let state_of := attempt_state operation delay retry_delay s in
  log = calls_log retry_delay 0 calls
  /\ (calls <= max_retries)%nat
  /\ count_delays log = (calls - 1)%nat
  /\ delays_are retry_delay log
  /\ (forall j, (S j < calls)%nat -> exists err, fst (operation (state_of j)) = Raise err)
  /\ match res with
     | Ok data => (1 <= calls)%nat /\ operation (state_of (calls - 1)%nat) = (Ok data, s')
     | Raise e =>
         calls = max_retries
         /\ match max_retries with
            | O => e = terminal None /\ s' = s
            | S m =>
                exists err,
                  operation (state_of m) = (Raise err, s') /\ e = terminal (Some err)
            end
     end.
Proof.
  unfold with_retry.
  pose proof (retry_loop_run operation delay terminal max_retries retry_delay
                max_retries 0%nat None s [] eq_refl) as H.
  destruct (retry_loop operation delay terminal max_retries retry_delay
              (seq 0 max_retries) None s []) as [[res s'] log].
  destruct H as [k [Hk [Hlog [Hbefore Hres]]]].
  cbn [app] in Hlog. cbv zeta.
  destruct (calls_log_counts retry_delay k 0) as [Hatt [Hdel Hd]].
  rewrite <- Hlog in Hatt, Hdel, Hd. rewrite Hatt.
  split; [exact Hlog|]. split; [exact Hk|]. split; [exact Hdel|].
  split; [exact Hd|]. split; [exact Hbefore|].
  destruct res as [r|e]; [exact Hres|].
  destruct Hres as [-> Hlast]. split; [reflexivity|exact Hlast].
Qed.

(** ** What the updates raise and send *)

Section UpdateEffects.
Variable py_repr : pyobj -> str.
Variable isoformat : datetime -> str.

Lemma reclassify_not_client (prefix : str) (e : exn) :
  is_client_error (reclassify prefix e) = false.
Proof.
  unfold reclassify. destruct (is_client_error e) eqn:He; [reflexivity|exact He].
Qed.

Lemma parse_never_raises (body : str) (e : exn) : parse_deyecloud_text body <> Raise e.
Proof. unfold parse_deyecloud_text. now rewrite parse_lines_eq. Qed.

Lemma get_token_sent (self : coordinator) (w : world) :
  sent (snd (_get_deye_token py_repr self w)) = sent w
  \/ exists req,
      token_request py_repr (_server self) (_config self) 20 = Ok req
      /\ sent (snd (_get_deye_token py_repr self w)) = sent w ++ [req].
Proof.
  unfold _get_deye_token.
  destruct (token_cached self w); [now left|].
  destruct (token_request py_repr (_server self) (_config self) 20) as [req|];
    [|now left].
  right. exists req. split; [reflexivity|].
  destruct (send req w) as [out w'] eqn:Hsend.
  assert (Hw' : sent w' = sent w ++ [req])
    by (rewrite <- (send_sent req w), Hsend; reflexivity).
  destruct out as [resp|e]; [|exact Hw'].
  destruct (token_of_response py_repr resp); exact Hw'.
Qed.

Lemma get_token_keeps_settings (self : coordinator) (w : world) :
  let self' := snd (fst (_get_deye_token py_repr self w)) in
  _config self' = _config self /\ _server self' = _server self
  /\ _mode self' = _mode self /\ _max_retries self' = _max_retries self
  /\ _retry_delay self' = _retry_delay self.
Proof.
  destruct (get_token_step py_repr self w) as [H | [token [_ H]]];
    cbv zeta; rewrite H; repeat split.
Qed.

(** The request of [_get_deye_device_data]. *)
Lemma device_data_sent (self : coordinator) (token : pyobj) (w : world) :
  let w' := snd (_get_deye_device_data py_repr isoformat self token w) in
  match dict_get (_config self) CONF_DEVICE_SN with
  | None => w' = w
  | Some serial =>
      sent w'
      = sent w
          ++ [{| method := text "POST";
                 url := PStr (data_url py_repr (_server self));
                 params := [];
                 json := Some (PDict [(text "deviceList", PList [serial])]);
                 headers := [(text "Content-Type", text "application/json");
                             (text "authorization",
                              text "Bearer " ++ py_str py_repr token)];
                 timeout := 20 |}]
  end.
Proof.
  unfold _get_deye_device_data, dict_index.
  destruct (dict_get (_config self) CONF_DEVICE_SN) as [serial|]; [|reflexivity].
  match goal with |- context [send ?r w] => set (req := r) end.
  destruct (send req w) as [out w'] eqn:Hsend.
  assert (Hw' : sent w' = sent w ++ [req])
    by (rewrite <- (send_sent req w), Hsend; reflexivity).
  destruct out as [resp|e]; [|exact Hw'].
  destruct (data_of_response py_repr isoformat resp w'); exact Hw'.
Qed.

End UpdateEffects.

(** X2: whichever the mode, whatever the configuration, the network and the
    number of attempts, an exception that leaves [_async_update_data] is an
    [UpdateFailed]. *)
Theorem async_update_data_raises_update_failed (py_repr : pyobj -> str)
  (isoformat : datetime -> str) (s : coordinator * world) (e : exn) :
  fst (fst (_async_update_data py_repr isoformat s)) = Raise e ->
  exn_cls e = UpdateFailed.
Proof.
  assert (Hapi : fst (fst (_update_from_api_with_retry py_repr s)) = Raise e ->
                 exn_cls e = UpdateFailed).
  { unfold _update_from_api_with_retry, with_retry.
    pose proof (retry_loop_counts (api_operation py_repr) state_sleep api_terminal
                  (_max_retries (fst s)) (_retry_delay (fst s))
                  (_max_retries (fst s)) 0%nat None s [] eq_refl (Forall_nil _)) as H.
    destruct (retry_loop _ _ _ _ _ _ _ _ _) as [[res s'] log].
    destruct H as [k [_ [_ [_ [_ Hres]]]]]. cbn [fst]. intros ->.
    destruct Hres as [_ [last [-> _]]]. reflexivity. }
  assert (Hdeye : fst (fst (_update_from_deye_with_retry py_repr isoformat s)) = Raise e ->
                  exn_cls e = UpdateFailed).
  { unfold _update_from_deye_with_retry, with_retry.
    pose proof (retry_loop_counts (deye_operation py_repr isoformat) state_sleep
                  (deye_terminal (_max_retries (fst s)))
                  (_max_retries (fst s)) (_retry_delay (fst s))
                  (_max_retries (fst s)) 0%nat None s [] eq_refl (Forall_nil _)) as H.
    destruct (retry_loop _ _ _ _ _ _ _ _ _) as [[res s'] log].
    destruct H as [k [_ [_ [_ [_ Hres]]]]]. cbn [fst]. intros ->.
    destruct Hres as [_ [last [-> _]]]. reflexivity. }
  unfold _async_update_data.
  destruct (_mode (fst s)); auto.
  destruct (str_eqb s0 MODE_API); auto.
Qed.

Lemma async_update_data_raises_update_failed_witness :
  exists e,
    fst (fst (_async_update_data (fun _ => text "<object>") (fun _ => [])
                (DeyeCloudCoordinator api_config,
                 steady_world {| status := 500; body_text := Ok (text "down");
                                 body_json := not_json |})))
    = Raise e
    /\ exn_cls e = UpdateFailed.
Proof.
  eexists. split; [reflexivity|].
  exact (async_update_data_raises_update_failed (fun _ => text "<object>") (fun _ => [])
           (DeyeCloudCoordinator api_config,
            steady_world {| status := 500; body_text := Ok (text "down");
                            body_json := not_json |})
           _ eq_refl).
Defined.

(** X3: the text-endpoint fetch sends one GET request to the configured URL,
    with a 20 second timeout and with the header [Authorization: Bearer ..]
    exactly when a truthy token is configured; with no URL configured it
    raises [KeyError] and sends nothing.  No [aiohttp.ClientError] leaves
    it: a transport error of that class comes out as an [UpdateFailed]
    raised from it. *)
Theorem update_from_api_effects (py_repr : pyobj -> str) (self : coordinator) (w : world) :
  let res := fst (_update_from_api py_repr self w) in
  let w' := snd (_update_from_api py_repr self w) in
  let token := get_or (_config self) CONF_TOKEN PNone in
  match dict_get (_config self) CONF_URL with
  | None => res = Raise (builtin KeyError) /\ w' = w
  | Some target =>
      sent w'
      = sent w
          ++ [{| method := text "GET"; url := target; params := []; json := None;
                 headers := if truthy token
                            then [(text "Authorization",
                                   text "Bearer " ++ py_str py_repr token)]
                            else [];
                 timeout := 20 |}]
      /\ (forall e,
             answer (network w (List.length (sent w))) = Failed e ->
             is_client_error e = true ->
             res = Raise (Exception UpdateFailed
                            (text "Network error during API fetch: " ++ exn_str e)
                            (Some e)))
  end
  /\ (forall e, res = Raise e -> is_client_error e = false).
Proof.
  cbv zeta. unfold _update_from_api, dict_index.
  destruct (dict_get (_config self) CONF_URL) as [target|];
    [|cbn [fst snd]; split; [now split|now intros e [= <-]]].
  match goal with |- context [send ?r w] => set (req := r) end.
  unfold send. cbn [fst snd].
  destruct (answer (network w (List.length (sent w)))) as [resp|err] eqn:Hanswer.
  - destruct (body_text resp) as [body|err].
    + destruct (400 <=? status resp); cbn [fst snd sent].
      * split; [split; [reflexivity|discriminate]|]. now intros e [= <-].
      * split; [split; [reflexivity|discriminate]|].
        intros e He. now apply parse_never_raises in He.
    + cbn [fst snd sent]. split; [split; [reflexivity|discriminate]|].
      intros e [= <-]. apply reclassify_not_client.
  - cbn [fst snd sent]. split; [split; [reflexivity|]|].
    + intros e [= <-] He. unfold reclassify. now rewrite He.
    + intros e [= <-]. apply reclassify_not_client.
Qed.

(** X4: every exception that leaves [_update_from_deye] is an
    [UpdateFailed] raised from the exception underneath, with its text; the
    update sends at most two requests, after those already sent, and leaves
    the coordinator's configuration, server, mode and retry settings as they
    were. *)
Theorem update_from_deye_effects (py_repr : pyobj -> str) (isoformat : datetime -> str)
  (self : coordinator) (w : world) :
  let res := fst (fst (_update_from_deye py_repr isoformat self w)) in
  let self' := snd (fst (_update_from_deye py_repr isoformat self w)) in
  let w' := snd (_update_from_deye py_repr isoformat self w) in
  (forall e,
      res = Raise e ->
      exists underneath,
        e = Exception UpdateFailed (exn_str underneath) (Some underneath))
  /\ (exists requests,
         sent w' = sent w ++ requests /\ (List.length requests <= 2)%nat)
  /\ _config self' = _config self
  /\ _server self' = _server self
  /\ _mode self' = _mode self
  /\ _max_retries self' = _max_retries self
  /\ _retry_delay self' = _retry_delay self.
Proof.
  cbv zeta. unfold _update_from_deye.
  pose proof (get_token_sent py_repr self w) as Hsent.
  pose proof (get_token_keeps_settings py_repr self w) as Hkeep.
  destruct (_get_deye_token py_repr self w) as [[out self1] w1].
  cbn [fst snd] in Hsent, Hkeep.
  assert (Htoken : exists requests,
             sent w1 = sent w ++ requests /\ (List.length requests <= 1)%nat).
  { destruct Hsent as [H | [req [_ H]]].
    - exists []. rewrite app_nil_r. split; [exact H|simpl; lia].
    - exists [req]. split; [exact H|simpl; lia]. }
  destruct Htoken as [requests [Hw1 Hlen]].
  destruct out as [token|e].
  - pose proof (device_data_sent py_repr isoformat self1 token w1) as Hdata.
    destruct (_get_deye_device_data py_repr isoformat self1 token w1) as [out2 w2].
    cbn [fst snd] in Hdata |- *.
    assert (Hw2 : exists requests', sent w2 = sent w ++ requests'
                                    /\ (List.length requests' <= 2)%nat).
    { destruct (dict_get (_config self1) CONF_DEVICE_SN) as [serial|].
      - eexists. rewrite Hdata, Hw1, <- app_assoc. split; [reflexivity|].
        rewrite length_app. simpl. lia.
      - subst w2. exists requests. split; [exact Hw1|lia]. }
    destruct out2 as [data|e]; cbn [fst snd].
    + split; [discriminate|]. split; [exact Hw2|exact Hkeep].
    + split; [|split; [exact Hw2|exact Hkeep]].
      intros e' [= <-]. now exists e.
  - cbn [fst snd]. split; [|split; [|exact Hkeep]].
    + intros e' [= <-]. now exists e.
    + exists requests. split; [exact Hw1|lia].
Qed.

(** X5: a token just obtained stays cached when the data request that
    follows fails.  If the token request of an update succeeds with a truthy
    token, the coordinator holds that token afterwards, with an expiry one
    hour after the answer, whatever became of the data request; and a later
    update before that expiry, the retry five seconds later among them,
    sends one request only, the data request bearing that token. *)
Theorem token_survives_failed_fetch (py_repr : pyobj -> str)
  (isoformat : datetime -> str) (self : coordinator) (w : world) (req : request)
  (resp : response) (token serial : pyobj) :
  token_cached self w = false ->
  token_request py_repr (_server self) (_config self) 20 = Ok req ->
  answer (network w (List.length (sent w))) = Responded resp ->
  token_of_response py_repr resp = Ok token ->
  truthy token = true ->
  dict_get (_config self) CONF_DEVICE_SN = Some serial ->
  let first := _update_from_deye py_repr isoformat self w in
  let self1 := snd (fst first) in
  let received := now w + latency (network w (List.length (sent w))) in
  _access_token self1 = token
  /\ _token_expires_at self1 = Some (received + one_hour)
  /\ sent (snd first) = sent w ++ [req; data_request py_repr (_server self) serial token]
  /\ forall w2,
      now w2 < received + one_hour ->
      sent (snd (_update_from_deye py_repr isoformat self1 w2))
      = sent w2 ++ [data_request py_repr (_server self) serial token].
Proof.
  intros Hmiss Hreq Hanswer Htoken Htruthy Hserial first self1 received.
  assert (Hcall : _get_deye_token py_repr self w
                  = (Ok token, set_token self token (received + one_hour),
                     snd (send req w))).
  { unfold _get_deye_token. rewrite Hmiss, Hreq. unfold send.
    rewrite Hanswer, Htoken. reflexivity. }
  assert (Hfirst : self1 = set_token self token (received + one_hour)
                   /\ sent (snd first)
                      = sent w ++ [req; data_request py_repr (_server self) serial token]).
  { subst self1 first. unfold _update_from_deye. rewrite Hcall.
    pose proof (device_data_sent py_repr isoformat
                  (set_token self token (received + one_hour)) token
                  (snd (send req w))) as Hdata.
    cbn [set_token _config _server] in Hdata. rewrite Hserial in Hdata.
    destruct (_get_deye_device_data _ _ _ _ _) as [[data|e] w2];
      cbn [fst snd] in *; (split; [reflexivity|]);
      rewrite Hdata, send_sent, <- app_assoc; reflexivity. }
  destruct Hfirst as [Hself1 Hsent1]. rewrite Hself1.
  split; [reflexivity|]. split; [reflexivity|]. split; [exact Hsent1|].
  intros w2 Hnow.
  unfold _update_from_deye.
  rewrite (token_cache_hit py_repr (set_token self token (received + one_hour)) w2
             (received + one_hour) Htruthy eq_refl Hnow).
  pose proof (device_data_sent py_repr isoformat
                (set_token self token (received + one_hour)) token w2) as Hdata.
  cbn [set_token _config _server _access_token] in Hdata |- *.
  rewrite Hserial in Hdata.
  destruct (_get_deye_device_data _ _ _ _ _) as [[data|e] w3];
    cbn [fst snd] in *; exact Hdata.
Qed.

Lemma token_survives_failed_fetch_witness :
  let py_repr := fun _ : pyobj => text "<object>" in
  let isoformat := fun _ : datetime => text "2024-01-01T00:00:00" in
  let first := _update_from_deye py_repr isoformat (DeyeCloudCoordinator deye_config)
                 (token_then_down (PStr (text "tok-1"))) in
  (exists e, fst (fst first) = Raise e)
  /\ _access_token (snd (fst first)) = PStr (text "tok-1")
  /\ List.length (sent (snd first)) = 2%nat
  /\ List.length
       (sent (snd (_update_from_deye py_repr isoformat (snd (fst first))
                     (sleep 5 (snd first)))))
     = 3%nat.
Proof.
  cbv zeta.
  destruct (token_request (fun _ => text "<object>") (PStr SERVER_EU) deye_config 20)
    as [req|] eqn:Hreq; [|discriminate].
  pose proof (token_survives_failed_fetch (fun _ => text "<object>")
                (fun _ => text "2024-01-01T00:00:00")
                (DeyeCloudCoordinator deye_config)
                (token_then_down (PStr (text "tok-1"))) req
                (token_reply (PStr (text "tok-1"))) (PStr (text "tok-1"))
                (PStr (text "2301055512"))
                eq_refl Hreq eq_refl eq_refl eq_refl eq_refl)
    as [Htoken [_ [Hsent Hnext]]].
  split; [eexists; reflexivity|]. split; [exact Htoken|].
  split; [rewrite Hsent; reflexivity|].
  rewrite Hnext; [rewrite length_app; reflexivity|reflexivity].
Defined.

(** X6: in an answer of the data endpoint, a [deviceDataList] that is absent
    or the empty list gives the empty snapshot, but one that is there and is
    null or a number makes [_get_deye_device_data] raise [TypeError]: its
    length is taken for the log before the conversion looks at it. *)
Theorem device_list_absent_or_null (py_repr : pyobj -> str) (isoformat : datetime -> str)
  (self : coordinator) (token serial : pyobj) (w : world)
  (entries : list (str * pyobj)) :
  dict_get (_config self) CONF_DEVICE_SN = Some serial ->
  answer (network w (List.length (sent w))) = Responded (json_reply (PDict entries)) ->
  let res := fst (_get_deye_device_data py_repr isoformat self token w) in
  match dict_get entries (text "deviceDataList") with
  | None | Some (PList []) => res = Ok []
  | Some PNone | Some (PBool _) | Some (PInt _) | Some (PFloat _) =>
      res = Raise (builtin TypeError)
  | Some _ => True
  end.
Proof.
  intros Hserial Hanswer res. subst res.
  unfold _get_deye_device_data, dict_index. rewrite Hserial.
  unfold send. rewrite Hanswer. cbn [fst snd].
  unfold data_of_response, json_reply, _convert_deye_response.
  cbn [status body_json Z.eqb Pos.eqb negb bind obj_get].
  destruct (dict_get entries (text "deviceDataList")) as [v|]; [|reflexivity].
  destruct v as [| b | n | f | s | [|d ds] | es]; try reflexivity; exact I.
Qed.

Lemma device_list_absent_or_null_witness :
  let py_repr := fun _ : pyobj => text "<object>" in
  let isoformat := fun _ : datetime => text "2024-01-01T00:00:00" in
  fst (_get_deye_device_data py_repr isoformat (DeyeCloudCoordinator deye_config)
         (PStr (text "tok-1"))
         (steady_world (json_reply (PDict [(text "deviceDataList", PNone)]))))
  = Raise (builtin TypeError).
Proof.
  exact (device_list_absent_or_null (fun _ => text "<object>")
           (fun _ => text "2024-01-01T00:00:00") (DeyeCloudCoordinator deye_config)
           (PStr (text "tok-1")) (PStr (text "2301055512"))
           (steady_world (json_reply (PDict [(text "deviceDataList", PNone)])))
           [(text "deviceDataList", PNone)] eq_refl eq_refl).
Defined.

(** ** The keys of a snapshot *)

Lemma dict_keys_set {V} (d : list (str * V)) (k : str) (v : V) :
  dict_keys (dict_set d k v)
  = if existsb (fun k' => str_eqb k' k) (dict_keys d) then dict_keys d
    else dict_keys d ++ [k].
Proof.
  induction d as [|[k0 v0] rest IH]; [reflexivity|].
  cbn [dict_set dict_keys map fst existsb].
  destruct (str_eqb k0 k) eqn:Hk; [reflexivity|].
  cbn [map fst orb]. fold (dict_keys (dict_set rest k v)). fold (dict_keys rest).
  rewrite IH. now destruct (existsb _ (dict_keys rest)).
Qed.

Lemma dict_set_nodup {V} (d : list (str * V)) (k : str) (v : V) :
  NoDup (dict_keys d) -> NoDup (dict_keys (dict_set d k v)).
Proof.
  intros Hd. rewrite dict_keys_set.
  destruct (existsb _ (dict_keys d)) eqn:Hex; [exact Hd|].
  apply NoDup_app; [exact Hd|repeat constructor; intros []|].
  intros k' Hin [<- | []].
  assert (existsb (fun k'' => str_eqb k'' k) (dict_keys d) = true); [|congruence].
  apply existsb_exists. exists k. split; [exact Hin|apply str_eqb_refl].
Qed.

Lemma dict_set_forall {V} (P : str * V -> Prop) (d : list (str * V)) (k : str) (v : V) :
  Forall P d -> P (k, v) -> Forall P (dict_set d k v).
Proof.
  intros Hd Hkv. induction Hd as [|[k0 v0] rest H0 Hrest IH]; simpl.
  - now repeat constructor.
  - destruct (str_eqb k0 k) eqn:Hk.
    + apply str_eqb_eq in Hk. subst k0. now constructor.
    + now constructor.
Qed.

Lemma dict_set_length {V} (d : list (str * V)) (k : str) (v : V) :
  (List.length (dict_set d k v) <= S (List.length d))%nat.
Proof.
  induction d as [|[k0 v0] rest IH]; simpl; [lia|].
  destruct (str_eqb k0 k); simpl; lia.
Qed.

Lemma well_keyed_set (data : snapshot) (r : reading) :
  well_keyed data -> well_keyed (dict_set data (normalize_key (name r)) r).
Proof.
  intros [Hnodup Hall]. split.
  - now apply dict_set_nodup.
  - now apply dict_set_forall.
Qed.

Lemma well_keyed_get (data : snapshot) (k : str) (r : reading) :
  well_keyed data -> dict_get data k = Some r -> k = normalize_key (name r).
Proof.
  intros [_ Hall]. induction Hall as [|[k0 r0] rest H0 Hrest IH]; simpl; [discriminate|].
  destruct (str_eqb k0 k) eqn:Hk; [|exact IH].
  apply str_eqb_eq in Hk. intros [= <-]. now subst k0.
Qed.

Lemma normalize_key_idem (x : str) : normalize_key (normalize_key x) = normalize_key x.
Proof. rewrite !normalize_key_unfold. apply spec_idempotent. Qed.

Lemma parse_line_spec_keyed (data : snapshot) (line : str) :
  well_keyed data -> well_keyed (parse_line_spec data line).
Proof.
  intros H. unfold parse_line_spec.
  destruct (fragments (strip line)) as [|p0 [|p1 more]]; try exact H.
  exact (well_keyed_set data
           {| name := strip p0; value := text_value (strip p1);
              unit := match more with p2 :: _ => PStr (strip p2) | [] => PNone end |} H).
Qed.

Lemma parse_line_spec_length (data : snapshot) (line : str) :
  (List.length (parse_line_spec data line) <= S (List.length data))%nat.
Proof.
  unfold parse_line_spec.
  destruct (fragments (strip line)) as [|p0 [|p1 more]]; try lia.
  apply dict_set_length.
Qed.

Lemma parse_fold_keyed (lines : list str) (data : snapshot) :
  well_keyed data ->
  well_keyed (fold_left parse_line_spec lines data)
  /\ (List.length (fold_left parse_line_spec lines data)
      <= List.length data + List.length lines)%nat.
Proof.
  revert data; induction lines as [|line rest IH]; intros data H; simpl.
  - split; [exact H|lia].
  - destruct (IH (parse_line_spec data line) (parse_line_spec_keyed data line H))
      as [Hk Hlen].
    split; [exact Hk|]. pose proof (parse_line_spec_length data line). lia.
Qed.

(** X7: the snapshot of the text parser is a proper dictionary, with no key
    twice, in which every reading is filed under the normalized form of its
    own name, so that every key is a fixed point of [normalize_key]; and it
    has at most one reading a line of the text. *)
Theorem parse_snapshot_keys (raw_text : str) :
  exists data,
    parse_deyecloud_text raw_text = Ok data
    /\ NoDup (dict_keys data)
    /\ (forall key r, dict_get data key = Some r -> key = normalize_key (name r))
    /\ Forall (fun key => normalize_key key = key) (dict_keys data)
    /\ (List.length data <= List.length (splitlines raw_text))%nat.
Proof.
  exists (fold_left parse_line_spec (splitlines raw_text) []).
  assert (H0 : well_keyed []) by (split; constructor).
  destruct (parse_fold_keyed (splitlines raw_text) [] H0) as [Hk Hlen].
  split; [apply parse_lines_eq|]. split; [apply Hk|].
  split; [intros key r; now apply well_keyed_get|]. split; [|exact Hlen].
  destruct Hk as [_ Hall]. unfold dict_keys. apply Forall_map.
  eapply Forall_impl; [|exact Hall].
  intros [k r] Hkr. cbn [fst snd] in *. rewrite Hkr. apply normalize_key_idem.
Qed.

Section ConvertKeys.
Variable py_repr : pyobj -> str.
Variable isoformat : datetime -> str.

Lemma convert_item_keyed (data data' : snapshot) (item : pyobj) :
  well_keyed data -> convert_item py_repr data item = Ok data' -> well_keyed data'.
Proof.
  intros H. unfold convert_item.
  destruct (obj_get item (text "key") (PStr [])) as [key_name|]; [|discriminate].
  destruct (obj_get item (text "value") PNone) as [v|]; [|discriminate].
  destruct (obj_get item (text "unit") (PStr [])) as [u|]; [|discriminate].
  cbn [bind]. destruct (truthy key_name); cbn [negb]; [|now intros [= <-]].
  destruct key_name as [| | | | key_text | |]; try discriminate.
  destruct (convert_value py_repr v) as [converted|]; [|discriminate].
  cbn [bind]. intros [= <-].
  exact (well_keyed_set data {| name := key_text; value := converted; unit := u |} H).
Qed.

Lemma convert_items_keyed (items : list pyobj) (data data' : snapshot) :
  well_keyed data -> convert_items py_repr data items = Ok data' -> well_keyed data'.
Proof.
  revert data; induction items as [|item rest IH]; intros data H; simpl.
  - now intros [= <-].
  - destruct (convert_item py_repr data item) as [data1|] eqn:Hitem; [|discriminate].
    cbn [bind]. apply IH. eapply convert_item_keyed; eauto.
Qed.

Lemma convert_keyed (api_data : pyobj) (w : world) (data : snapshot) :
  _convert_deye_response py_repr isoformat api_data w = Ok data -> well_keyed data.
Proof.
  assert (H0 : well_keyed []) by (split; constructor).
  unfold _convert_deye_response.
  destruct (obj_get api_data (text "deviceDataList") PNone) as [devices|];
    [|discriminate].
  cbn [bind]. destruct (truthy devices); cbn [negb]; [|now intros [= <-]].
  destruct (first_item devices) as [device|]; [|discriminate]. cbn [bind].
  destruct (obj_get device (text "dataList") PNone) as [data_list|]; [|discriminate].
  cbn [bind]. destruct (truthy data_list); cbn [negb]; [|now intros [= <-]].
  destruct (py_len data_list); [|discriminate]. cbn [bind].
  destruct (iterate data_list) as [items|]; [|discriminate]. cbn [bind].
  destruct (convert_items py_repr [] items) as [readings|] eqn:Hitems; [|discriminate].
  cbn [bind]. intros [= <-].
  apply convert_items_keyed in Hitems; [|exact H0].
  apply (well_keyed_set _ (last_update isoformat w)).
  apply (well_keyed_set _ device_online). exact Hitems.
Qed.

End ConvertKeys.

(** X8: every snapshot the cloud conversion returns is a proper dictionary,
    with no key twice, in which every reading, the two synthetic ones
    included, is filed under the normalized form of its own name; so a data
    item named like a synthetic reading is replaced by it. *)
Theorem convert_snapshot_keys (py_repr : pyobj -> str) (isoformat : datetime -> str)
  (api_data : pyobj) (w : world) (data : snapshot) :
  _convert_deye_response py_repr isoformat api_data w = Ok data ->
  NoDup (dict_keys data)
  /\ (forall key r, dict_get data key = Some r -> key = normalize_key (name r))
  /\ Forall (fun key => normalize_key key = key) (dict_keys data).
Proof.
  intros Hconv. apply convert_keyed in Hconv.
  split; [apply Hconv|]. split; [intros key r; now apply well_keyed_get|].
  destruct Hconv as [_ Hall]. unfold dict_keys. apply Forall_map.
  eapply Forall_impl; [|exact Hall].
  intros [k r] Hkr. cbn [fst snd] in *. rewrite Hkr. apply normalize_key_idem.
Qed.

Lemma convert_snapshot_keys_witness :
  let data :=
    [(text "device_online", device_online);
     (text "last_update", last_update (fun _ => text "2024-01-01T00:00:00")
                            (steady_world (json_reply PNone)))] in
  NoDup (dict_keys data)
  /\ (forall key r, dict_get data key = Some r -> key = normalize_key (name r))
  /\ Forall (fun key => normalize_key key = key) (dict_keys data).
Proof.
  exact (convert_snapshot_keys (fun _ => text "<object>")
           (fun _ => text "2024-01-01T00:00:00")
           (PDict [(text "deviceDataList",
                    PList [PDict [(text "dataList",
                                   PList [PDict [(text "key", PStr (text "Device Online"));
                                                 (text "value", PStr (text "0"))]])]])])
           (steady_world (json_reply PNone)) _ eq_refl).
Defined.

(** X9: the conversion reads the first device only: two answers whose
    device lists start with the same device are converted alike, whatever
    devices follow. *)
Theorem convert_reads_first_device (py_repr : pyobj -> str) (isoformat : datetime -> str)
  (entries entries' : list (str * pyobj)) (device : pyobj) (others others' : list pyobj)
  (w : world) :
  dict_get entries (text "deviceDataList") = Some (PList (device :: others)) ->
  dict_get entries' (text "deviceDataList") = Some (PList (device :: others')) ->
  _convert_deye_response py_repr isoformat (PDict entries) w
  = _convert_deye_response py_repr isoformat (PDict entries') w.
Proof.
  intros H H'. unfold _convert_deye_response, obj_get. now rewrite H, H'.
Qed.

Lemma convert_reads_first_device_witness :
  let first := PDict [(text "dataList",
                       PList [PDict [(text "key", PStr (text "SOC"));
                                     (text "value", PInt 85)]])] in
  let second := PDict [(text "dataList",
                        PList [PDict [(text "key", PStr (text "Power"));
                                      (text "value", PInt 1500)]])] in
  _convert_deye_response (fun _ => text "<object>") (fun _ => [])
    (PDict [(text "deviceDataList", PList [first; second])]) (steady_world (json_reply PNone))
  = _convert_deye_response (fun _ => text "<object>") (fun _ => [])
      (PDict [(text "deviceDataList", PList [first])]) (steady_world (json_reply PNone)).
Proof.
  cbv zeta.
  apply convert_reads_first_device
    with (device := PDict [(text "dataList",
                            PList [PDict [(text "key", PStr (text "SOC"));
                                          (text "value", PInt 85)]])])
         (others := [PDict [(text "dataList",
                             PList [PDict [(text "key", PStr (text "Power"));
                                           (text "value", PInt 1500)]])]])
         (others' := []);
    reflexivity.
Defined.

(** ** A feed in pieces *)

Lemma splitlines_cons2 (c c' : ascii) (rest : str) :
  splitlines (c :: c' :: rest)
  = if is_linebreak c
    then if char_eqb c CR && char_eqb c' LF then [] :: splitlines rest
         else [] :: splitlines (c' :: rest)
    else match splitlines (c' :: rest) with
         | line :: lines => (c :: line) :: lines
         | [] => [[c]]
         end.
Proof. reflexivity. Qed.

Lemma splitlines_nonempty (c : ascii) (s : str) : splitlines (c :: s) <> [].
Proof.
  destruct s as [|c' rest].
  - simpl. destruct (is_linebreak c); discriminate.
  - rewrite splitlines_cons2.
    destruct (is_linebreak c); [destruct (_ && _); discriminate|].
    destruct (splitlines (c' :: rest)); discriminate.
Qed.

(** A line feed at the end adds at most one empty line. *)
Lemma splitlines_final_LF (a : str) :
  splitlines (a ++ [LF]) = splitlines a \/ splitlines (a ++ [LF]) = splitlines a ++ [[]].
Proof.
  induction a as [| c | c c' rest IH1 IH2] using str_ind2.
  - now right.
  - change ([c] ++ [LF]) with (c :: LF :: []). rewrite splitlines_cons2.
    cbn [splitlines]. destruct (is_linebreak c) eqn:Hc.
    + rewrite char_eqb_refl, andb_true_r. destruct (char_eqb c CR); [now left|now right].
    + now left.
  - change ((c :: c' :: rest) ++ [LF]) with (c :: c' :: (rest ++ [LF])).
    rewrite !splitlines_cons2.
    change (c' :: rest ++ [LF]) with ((c' :: rest) ++ [LF]).
    destruct (is_linebreak c).
    + destruct (char_eqb c CR && char_eqb c' LF).
      * destruct IH1 as [-> | ->]; [now left|now right].
      * destruct IH2 as [-> | ->]; [now left|now right].
    + destruct IH2 as [-> | ->]; [now left|].
      pose proof (splitlines_nonempty c' rest) as Hne.
      destruct (splitlines (c' :: rest)) as [|line lines]; [congruence|]. now right.
Qed.

(** A line feed in the middle ends a line: what follows is split on its
    own. *)
Lemma splitlines_app_LF (a b : str) :
  splitlines (a ++ LF :: b) = splitlines (a ++ [LF]) ++ splitlines b.
Proof.
  induction a as [| c | c c' rest IH1 IH2] using str_ind2.
  - destruct b; reflexivity.
  - change ([c] ++ LF :: b) with (c :: LF :: b).
    change ([c] ++ [LF]) with (c :: LF :: []).
    rewrite !splitlines_cons2.
    destruct (is_linebreak c).
    + rewrite char_eqb_refl, andb_true_r. destruct (char_eqb c CR); [reflexivity|].
      destruct b; reflexivity.
    + destruct b; reflexivity.
  - change ((c :: c' :: rest) ++ LF :: b) with (c :: c' :: (rest ++ LF :: b)).
    change ((c :: c' :: rest) ++ [LF]) with (c :: c' :: (rest ++ [LF])).
    rewrite !splitlines_cons2.
    change (c' :: rest ++ LF :: b) with ((c' :: rest) ++ LF :: b).
    change (c' :: rest ++ [LF]) with ((c' :: rest) ++ [LF]).
    rewrite IH1, IH2.
    destruct (is_linebreak c).
    + destruct (char_eqb c CR && char_eqb c' LF); reflexivity.
    + pose proof (splitlines_nonempty c' (rest ++ [LF])) as Hne.
      change (c' :: rest ++ [LF]) with ((c' :: rest) ++ [LF]) in Hne.
      destruct (splitlines ((c' :: rest) ++ [LF])); [congruence|reflexivity].
Qed.

Lemma blank_line_skipped (data : snapshot) : parse_line_spec data [] = data.
Proof. reflexivity. Qed.

Lemma parse_spec_app_LF (raw more : str) :
  parse_text_spec (raw ++ LF :: more)
  = fold_left parse_line_spec (splitlines more) (parse_text_spec raw).
Proof.
  unfold parse_text_spec. rewrite splitlines_app_LF, fold_left_app. f_equal.
  destruct (splitlines_final_LF raw) as [-> | ->]; [reflexivity|].
  now rewrite fold_left_app.
Qed.

(** X10: a feed can be parsed in pieces cut at a line feed: the snapshot of
    a text, a line feed and more text is the snapshot of the text, carried
    on through the lines of the rest. *)
Theorem parse_in_pieces (raw_text more : str) :
  parse_deyecloud_text (raw_text ++ LF :: more)
  = (data <- parse_deyecloud_text raw_text ;; parse_lines data (splitlines more)).
Proof.
  unfold parse_deyecloud_text at 2. rewrite parse_lines_eq. cbn [bind].
  rewrite parse_lines_eq. unfold parse_deyecloud_text. rewrite parse_lines_eq.
  f_equal. apply parse_spec_app_LF.
Qed.

(** X11: the last line wins: the reading of a final line of at least two
    fragments is the one its key holds in the snapshot, whatever lines came
    before, those of the same key among them. *)
Theorem last_line_wins (raw_text line p0 p1 : str) (more : list str) :
  splitlines line = [line] ->
  fragments (strip line) = p0 :: p1 :: more ->
  exists data,
    parse_deyecloud_text (raw_text ++ LF :: line) = Ok data
    /\ dict_get data (normalize_key (strip p0))
       = Some {| name := strip p0;
                 value := text_value (strip p1);
                 unit := match more with
                         | p2 :: _ => PStr (strip p2)
                         | [] => PNone
                         end |}.
Proof.
  intros Hline Hparts. eexists. split.
  - unfold parse_deyecloud_text. rewrite parse_lines_eq. reflexivity.
  - fold (parse_text_spec (raw_text ++ LF :: line)).
    rewrite parse_spec_app_LF, Hline. cbn [fold_left].
    unfold parse_line_spec at 1. rewrite Hparts. apply dict_get_set_same.
Qed.

Lemma last_line_wins_witness :
  exists data,
    parse_deyecloud_text
      (text "Grid Power" ++ [TAB] ++ text "1500" ++ [TAB] ++ text "W"
         ++ LF :: text "grid-power" ++ [TAB] ++ text "nan")
    = Ok data
    /\ dict_get data (text "grid_power")
       = Some {| name := text "grid-power"; value := PNone; unit := PNone |}.
Proof.
  exact (last_line_wins (text "Grid Power" ++ [TAB] ++ text "1500" ++ [TAB] ++ text "W")
           (text "grid-power" ++ [TAB] ++ text "nan") (text "grid-power") (text "nan") []
           eq_refl eq_refl).
Defined.

(** ** The two wire formats *)

Lemma split_no_sep (sep : ascii) (a : str) :
  contains_char sep a = false -> split sep a = [a].
Proof.
  unfold contains_char. induction a as [|c t IH]; [reflexivity|].
  cbn [existsb split]. intros H. apply orb_false_iff in H as [Hc Ht].
  unfold char_eqb in *. rewrite Ascii.eqb_sym, Hc, (IH Ht). reflexivity.
Qed.

Lemma split_app_sep (sep : ascii) (a b : str) :
  contains_char sep a = false -> split sep (a ++ sep :: b) = a :: split sep b.
Proof.
  unfold contains_char. induction a as [|c t IH]; intros H.
  - cbn [app split]. now rewrite char_eqb_refl.
  - cbn [existsb] in H. apply orb_false_iff in H as [Hc Ht].
    cbn [app split]. unfold char_eqb in *. rewrite Ascii.eqb_sym, Hc, (IH Ht).
    reflexivity.
Qed.

Lemma first_char_app (a b : str) (c : ascii) :
  first_char a = Some c -> first_char (a ++ b) = Some c.
Proof. destruct a; [discriminate|exact (fun H => H)]. Qed.

Lemma last_char_app (a b : str) : b <> [] -> last_char (a ++ b) = last_char b.
Proof.
  intros Hb. induction a as [|c t IH]; [reflexivity|].
  cbn [app]. rewrite last_char_cons; [exact IH|].
  destruct t; [exact Hb|discriminate].
Qed.

Lemma stripped_first (s : str) (c : ascii) :
  strip s = s -> first_char s = Some c -> isspace c = false.
Proof.
  intros Hs Hc. rewrite <- Hs in Hc. unfold strip in Hc.
  apply rstrip_first in Hc. now apply lstrip_first in Hc.
Qed.

Lemma stripped_last (s : str) (c : ascii) :
  strip s = s -> last_char s = Some c -> isspace c = false.
Proof.
  intros Hs Hc. rewrite <- Hs in Hc. unfold strip in Hc. now apply rstrip_last in Hc.
Qed.

Lemma strip_fixed (s : str) :
  (forall c, first_char s = Some c -> isspace c = false) ->
  (forall c, last_char s = Some c -> isspace c = false) ->
  strip s = s.
Proof.
  intros Hf Hl. unfold strip. rewrite lstrip_fixed by exact Hf. now apply rstrip_fixed.
Qed.

Lemma cloud_sentinels_null (s : str) :
  str_in s cloud_sentinels = str_in s text_sentinels || str_eqb s (text "null").
Proof.
  unfold str_in, cloud_sentinels, text_sentinels. cbn [existsb].
  now rewrite !orb_false_r, !orb_assoc.
Qed.

(** X12: the two wire formats give one reading.  For a name, a value and a
    unit that are not empty, hold no tab and no outer white space, the line
    [name TAB value TAB unit] of the text feed and the data item with that
    key, value and unit of the cloud answer put the same reading under the
    same key, unless the value is [null] in some case, which only the cloud
    conversion turns into null. *)
Theorem formats_agree (py_repr : pyobj -> str) (data : snapshot)
  (n v u : str) (cn cv cu : ascii) (n' v' u' : str) :
  n = cn :: n' -> v = cv :: v' -> u = cu :: u' ->
  contains_char TAB n = false -> contains_char TAB v = false ->
  contains_char TAB u = false ->
  strip n = n -> strip v = v -> strip u = u ->
  str_eqb (lower v) (text "null") = false ->
  parse_line data (n ++ TAB :: v ++ TAB :: u)
  = convert_item py_repr data
      (PDict [(text "key", PStr n); (text "value", PStr v); (text "unit", PStr u)]).
Proof.
  intros Hn Hv Hu Htn Htv Htu Hsn Hsv Hsu Hnull.
  assert (Hline : strip (n ++ TAB :: v ++ TAB :: u) = n ++ TAB :: v ++ TAB :: u).
  { apply strip_fixed.
    - intros c Hc. apply (stripped_first n c Hsn). subst n. exact Hc.
    - intros c Hc. apply (stripped_last u c Hsu).
      rewrite last_char_app in Hc by discriminate.
      change (TAB :: v ++ TAB :: u) with ((TAB :: v) ++ TAB :: u) in Hc.
      rewrite last_char_app in Hc by discriminate.
      rewrite last_char_cons in Hc; [exact Hc|subst u; discriminate]. }
  rewrite parse_line_eq. unfold parse_line_spec. rewrite Hline.
  unfold fragments. rewrite (split_app_sep TAB n _ Htn), (split_app_sep TAB v _ Htv),
    (split_no_sep TAB u Htu).
  subst n v u. cbn [filter str_eqb negb]. rewrite Hsn, Hsv, Hsu.
  unfold convert_item. cbn [obj_get dict_get str_eqb].
  replace (str_eqb (text "key") (text "value")) with false by reflexivity.
  replace (str_eqb (text "key") (text "unit")) with false by reflexivity.
  replace (str_eqb (text "value") (text "unit")) with false by reflexivity.
  rewrite !str_eqb_refl. cbn [bind truthy negb].
  rewrite convert_value_str. cbn [bind]. do 3 f_equal.
  rewrite text_value_spec. unfold coerce_text_spec.
  rewrite cloud_sentinels_null, Hnull, orb_false_r. reflexivity.
Qed.

Lemma formats_agree_witness :
  parse_line [] (text "Battery SOC" ++ TAB :: text "85" ++ TAB :: text "%")
  = convert_item (fun _ => text "<object>") []
      (PDict [(text "key", PStr (text "Battery SOC")); (text "value", PStr (text "85"));
              (text "unit", PStr (text "%"))]).
Proof.
  exact (formats_agree (fun _ => text "<object>") [] (text "Battery SOC") (text "85")
           (text "%") _ _ _ _ _ _ eq_refl eq_refl eq_refl eq_refl eq_refl eq_refl
           eq_refl eq_refl eq_refl eq_refl).
Defined.

(** ** More on [normalize_key] *)

Lemma isspace_lower_char (c : ascii) : isspace (lower_char c) = isspace c.
Proof. each_char c. Qed.

Lemma lower_char_idem (c : ascii) : lower_char (lower_char c) = lower_char c.
Proof. each_char c. Qed.

Lemma replace_all_fixed (c : ascii) :
  replace_all c = c -> existsb (char_eqb c) replaced_chars = false.
Proof. each_char c. Qed.

Lemma lstrip_lower (s : str) : lstrip (lower s) = lower (lstrip s).
Proof.
  unfold lower. induction s as [|c t IH]; [reflexivity|].
  cbn [map lstrip]. rewrite isspace_lower_char.
  destruct (isspace c); [exact IH|reflexivity].
Qed.

Lemma rstrip_lower (s : str) : rstrip (lower s) = lower (rstrip s).
Proof.
  unfold lower. induction s as [|c t IH]; [reflexivity|].
  cbn [map rstrip]. rewrite IH, isspace_lower_char.
  destruct (rstrip t); cbn [map]; [destruct (isspace c)|]; reflexivity.
Qed.

Lemma strip_lower (s : str) : strip (lower s) = lower (strip s).
Proof. unfold strip. now rewrite lstrip_lower, rstrip_lower. Qed.

Lemma strip_idem (s : str) : strip (strip s) = strip s.
Proof.
  apply strip_fixed.
  - intros c Hc. unfold strip in Hc. apply rstrip_first in Hc.
    now apply lstrip_first in Hc.
  - intros c Hc. unfold strip in Hc. now apply rstrip_last in Hc.
Qed.

Lemma collapse_runs_length (s : str) :
  (List.length (collapse_runs s) <= List.length s)%nat.
Proof.
  induction s as [|c t IH]; [simpl; lia|].
  rewrite collapse_runs_cons.
  destruct (is_underscore c && starts_with_underscore t); simpl; lia.
Qed.

(** X13: names that differ only in the case of their letters or in white
    space around them get the same key.  A key is never longer than the
    stripped and lower-cased name it is made from; every character of it is
    one that [lower] leaves as it is, and none is a space, a slash, a hyphen
    or a parenthesis. *)
Theorem normalize_key_insensitive (x : str) :
  normalize_key (lower x) = normalize_key x
  /\ normalize_key (strip x) = normalize_key x
  /\ (List.length (normalize_key x) <= List.length (lower (strip x)))%nat
  /\ Forall (fun c => lower_char c = c /\ existsb (char_eqb c) replaced_chars = false)
       (normalize_key x).
Proof.
  rewrite !normalize_key_unfold. unfold normalize_key_spec.
  split; [|split; [|split]].
  - rewrite strip_lower. unfold lower. rewrite (map_map lower_char lower_char).
    do 2 f_equal. apply map_ext, lower_char_idem.
  - now rewrite strip_idem.
  - pose proof (collapse_runs_length
                  (map (fun c => if existsb (char_eqb c) replaced_chars
                                 then underscore else c) (lower (strip x)))) as H.
    now rewrite length_map in H.
  - pose proof (spec_chars x) as H. unfold normalize_key_spec in H.
    eapply Forall_impl; [|exact H].
    intros c [Hl Hr]. split; [exact Hl|]. now apply replace_all_fixed.
Qed.

(** ** Integers there and back *)

Lemma digit_facts (c : ascii) :
  is_digit c = true ->
  lower_char c = c /\ is_numeric_space c = false /\ is_underscore c = false
  /\ char_eqb c "-"%char = false /\ char_eqb c "+"%char = false
  /\ char_eqb c "n"%char = false /\ char_eqb c "i"%char = false
  /\ (char_eqb c "."%char || char_eqb c "e"%char || char_eqb c "E"%char) = false.
Proof.
  destruct c as [[] [] [] [] [] [] [] []]; vm_compute; intros H;
    solve [discriminate H | repeat split].
Qed.

Lemma digit_char_facts (d : Z) :
  0 <= d < 10 -> is_digit (digit_char d) = true /\ digit_value (digit_char d) = d.
Proof.
  intros Hd.
  assert (H : d = 0 \/ d = 1 \/ d = 2 \/ d = 3 \/ d = 4 \/ d = 5 \/ d = 6 \/ d = 7
              \/ d = 8 \/ d = 9) by lia.
  repeat (destruct H as [-> | H]; [now split|]). subst d. now split.
Qed.

Lemma digits_value_acc (l : str) (a : Z) :
  fold_left (fun acc c => 10 * acc + digit_value c) l a
  = a * 10 ^ Z.of_nat (List.length l) + digits_value l.
Proof.
  unfold digits_value. revert a. induction l as [|c t IH]; intros a.
  - simpl. lia.
  - cbn [fold_left List.length]. rewrite (IH (10 * a + digit_value c)), (IH (10 * 0 + _)).
    rewrite Nat2Z.inj_succ, Z.pow_succ_r by lia. lia.
Qed.

Lemma digits_value_cons (c : ascii) (l : str) :
  digits_value (c :: l) = digit_value c * 10 ^ Z.of_nat (List.length l) + digits_value l.
Proof.
  unfold digits_value at 1. cbn [fold_left]. rewrite digits_value_acc. lia.
Qed.

Lemma pos_digits_S (fuel : nat) (n : Z) (acc : str) :
  pos_digits (S fuel) n acc
  = if n <? 10 then digit_char (n mod 10) :: acc
    else pos_digits fuel (n / 10) (digit_char (n mod 10) :: acc).
Proof. reflexivity. Qed.

(** With fuel enough, [pos_digits] writes the digits of [n] before [acc]. *)
Lemma pos_digits_spec (fuel : nat) :
  forall (n : Z) (acc : str),
    0 <= n < 2 ^ Z.of_nat (S fuel) ->
    Forall (fun c => is_digit c = true) acc ->
    Forall (fun c => is_digit c = true) (pos_digits (S fuel) n acc)
    /\ pos_digits (S fuel) n acc <> []
    /\ digits_value (pos_digits (S fuel) n acc)
       = n * 10 ^ Z.of_nat (List.length acc) + digits_value acc.
Proof.
  induction fuel as [|fuel IH]; intros n acc Hn Hacc;
    rewrite pos_digits_S;
    assert (Hmod : 0 <= n mod 10 < 10) by (apply Z.mod_pos_bound; lia);
    destruct (digit_char_facts (n mod 10) Hmod) as [Hdigit Hvalue];
    assert (Hacc' : Forall (fun c => is_digit c = true) (digit_char (n mod 10) :: acc))
      by (now constructor);
    destruct (n <? 10) eqn:Hlt;
    try (apply Z.ltb_lt in Hlt; split; [exact Hacc'|]; split; [discriminate|];
         rewrite digits_value_cons, Hvalue, Z.mod_small by lia; reflexivity).
  - apply Z.ltb_ge in Hlt. change (2 ^ Z.of_nat 1) with 2 in Hn. lia.
  - apply Z.ltb_ge in Hlt.
    assert (Hdiv : 0 <= n / 10 < 2 ^ Z.of_nat (S fuel)).
    { rewrite (Nat2Z.inj_succ (S fuel)), Z.pow_succ_r in Hn by lia.
      split; [apply Z.div_pos; lia|apply Z.div_lt_upper_bound; lia]. }
    destruct (IH (n / 10) _ Hdiv Hacc') as [Hall [Hne Hval]].
    split; [exact Hall|]. split; [exact Hne|].
    rewrite Hval, digits_value_cons, Hvalue. cbn [List.length].
    rewrite Nat2Z.inj_succ, Z.pow_succ_r by lia.
    pose proof (Z.div_mod n 10 ltac:(lia)). nia.
Qed.

Lemma str_of_nonneg (n : Z) :
  0 <= n ->
  Forall (fun c => is_digit c = true) (str_of_int n)
  /\ str_of_int n <> []
  /\ digits_value (str_of_int n) = n.
Proof.
  intros Hn. unfold str_of_int.
  assert (Hlt : (n <? 0) = false) by (apply Z.ltb_ge; lia). rewrite Hlt.
  assert (Hfuel : 0 <= n < 2 ^ Z.of_nat (S (Z.to_nat (Z.log2 n)))).
  { split; [exact Hn|].
    rewrite Nat2Z.inj_succ, Z2Nat.id by apply Z.log2_nonneg.
    destruct (Z.eq_dec n 0) as [-> | Hn0]; [reflexivity|].
    apply Z.log2_spec. lia. }
  destruct (pos_digits_spec _ n [] Hfuel (Forall_nil _)) as [Hall [Hne Hval]].
  split; [exact Hall|]. split; [exact Hne|].
  rewrite Hval. simpl. unfold digits_value. simpl. lia.
Qed.

Lemma rstrip_numeric_fixed (s : str) :
  Forall (fun c => is_numeric_space c = false) s -> rstrip_numeric s = s.
Proof.
  induction 1 as [|c t Hc Ht IH]; [reflexivity|].
  cbn [rstrip_numeric]. rewrite IH. destruct t; [now rewrite Hc|reflexivity].
Qed.

Lemma digitpart_cons2 (c c' : ascii) (rest : str) :
  digitpart (c :: c' :: rest)
  = if is_digit c
    then if is_underscore c' then option_map (cons c) (digitpart rest)
         else option_map (cons c) (digitpart (c' :: rest))
    else None.
Proof. reflexivity. Qed.

Lemma digitpart_digits (c : ascii) (s : str) :
  Forall (fun c => is_digit c = true) (c :: s) -> digitpart (c :: s) = Some (c :: s).
Proof.
  revert c; induction s as [|c' t IH]; intros c H; inversion H as [|? ? Hc Hs]; subst.
  - simpl. now rewrite Hc.
  - rewrite digitpart_cons2, Hc.
    assert (Hu : is_underscore c' = false).
    { inversion Hs; subst. now apply digit_facts. }
    rewrite Hu, (IH c' Hs). reflexivity.
Qed.

Lemma lstrip_numeric_cons (c : ascii) (s : str) :
  is_numeric_space c = false -> lstrip_numeric (c :: s) = c :: s.
Proof. intros H. cbn [lstrip_numeric]. now rewrite H. Qed.

Lemma py_int_digits (neg : bool) (c : ascii) (s : str) :
  Forall (fun c => is_digit c = true) (c :: s) ->
  (List.length (c :: s) <= int_max_str_digits)%nat ->
  py_int (if neg then "-"%char :: c :: s else c :: s)
  = Ok (if neg then - digits_value (c :: s) else digits_value (c :: s)).
Proof.
  intros Hall Hlen.
  assert (Hspace : Forall (fun c => is_numeric_space c = false) (c :: s)).
  { eapply Forall_impl; [|exact Hall]. intros a Ha. now apply digit_facts. }
  assert (Hc : is_digit c = true) by now inversion Hall.
  destruct (digit_facts c Hc) as [_ [Hsp [_ [Hminus [Hplus _]]]]].
  apply Nat.ltb_ge in Hlen.
  unfold py_int. destruct neg.
  - rewrite lstrip_numeric_cons by reflexivity.
    rewrite rstrip_numeric_fixed by (constructor; [reflexivity|exact Hspace]).
    cbn [take_sign]. rewrite char_eqb_refl, (digitpart_digits c s Hall), Hlen.
    reflexivity.
  - rewrite lstrip_numeric_cons by exact Hsp.
    rewrite (rstrip_numeric_fixed (c :: s) Hspace).
    cbn [take_sign]. rewrite Hminus, Hplus, (digitpart_digits c s Hall), Hlen.
    reflexivity.
Qed.

Lemma str_eqb_head (c d : ascii) (s t : str) :
  char_eqb c d = false -> str_eqb (c :: s) (d :: t) = false.
Proof. intros H. cbn [str_eqb]. now rewrite H. Qed.

Lemma digits_no_sentinel (c : ascii) (s : str) :
  is_digit c = true ->
  str_in (c :: s) cloud_sentinels = false
  /\ str_in ("-"%char :: c :: s) cloud_sentinels = false.
Proof.
  intros Hc.
  destruct (digit_facts c Hc) as [_ [_ [_ [Hminus [_ [Hn [Hi _]]]]]]].
  unfold str_in, cloud_sentinels. cbn [existsb text list_ascii_of_string].
  rewrite !(str_eqb_head c "n"%char) by exact Hn.
  rewrite (str_eqb_head c "i"%char) by exact Hi.
  rewrite (str_eqb_head c "-"%char) by exact Hminus.
  rewrite !(str_eqb_head "-"%char "n"%char) by reflexivity.
  rewrite (str_eqb_head "-"%char "i"%char) by reflexivity.
  split; [reflexivity|].
  cbn [str_eqb]. rewrite char_eqb_refl, Hi. reflexivity.
Qed.

Lemma text_sentinels_weaker (s : str) :
  str_in s cloud_sentinels = false -> str_in s text_sentinels = false.
Proof.
  rewrite cloud_sentinels_null. intros H. now apply orb_false_iff in H.
Qed.

Lemma digits_plain (neg : bool) (c : ascii) (s : str) :
  Forall (fun c => is_digit c = true) (c :: s) ->
  let numeral := if neg then "-"%char :: c :: s else c :: s in
  str_in (lower numeral) cloud_sentinels = false
  /\ str_in (lower numeral) text_sentinels = false
  /\ has_float_marker numeral = false.
Proof.
  intros Hall numeral.
  assert (Hc : is_digit c = true) by now inversion Hall.
  assert (Hlow : lower (c :: s) = c :: s).
  { apply map_fixed. eapply Forall_impl; [|exact Hall].
    intros a Ha. now apply digit_facts. }
  assert (Hmarker : has_float_marker (c :: s) = false).
  { unfold has_float_marker. apply not_true_is_false. intros Hex.
    apply existsb_exists in Hex as [a [Ha Hm]].
    rewrite Forall_forall in Hall. apply Hall, digit_facts in Ha.
    destruct Ha as [_ [_ [_ [_ [_ [_ [_ Ha]]]]]]]. congruence. }
  destruct (digits_no_sentinel c s Hc) as [Hpos Hneg].
  assert (Hcloud : str_in (lower numeral) cloud_sentinels = false).
  { subst numeral. destruct neg; [|now rewrite Hlow].
    change (lower ("-"%char :: c :: s)) with ("-"%char :: lower (c :: s)).
    now rewrite Hlow. }
  split; [exact Hcloud|]. split; [now apply text_sentinels_weaker|].
  subst numeral. destruct neg; [|exact Hmarker].
  unfold has_float_marker in *. cbn [existsb] in *. exact Hmarker.
Qed.

(** X14: an integer written in decimal is read back as itself by both
    coercions, as long as it is within the interpreter's limit of 4300
    digits: neither takes the numeral for a sentinel or a float. *)
Theorem integers_read_back (py_repr : pyobj -> str) (n : Z) :
  (List.length (str_of_int (Z.abs n)) <= 4300)%nat ->
  text_value (str_of_int n) = PInt n
  /\ convert_value py_repr (PStr (str_of_int n)) = Ok (PInt n).
Proof.
  intros Hlen.
  destruct (str_of_nonneg (Z.abs n) (Z.abs_nonneg n)) as [Hall [Hne Hval]].
  destruct (str_of_int (Z.abs n)) as [|c s] eqn:Habs; [congruence|].
  assert (Hform : str_of_int n = (if n <? 0 then "-"%char :: c :: s else c :: s)
                  /\ n = if n <? 0 then - digits_value (c :: s)
                         else digits_value (c :: s)).
  { destruct (n <? 0) eqn:Hneg.
    - apply Z.ltb_lt in Hneg. rewrite Z.abs_neq in Habs, Hval by lia.
      split; [|lia]. unfold str_of_int in *.
      assert (H1 : (n <? 0) = true) by (apply Z.ltb_lt; lia).
      assert (H2 : (- n <? 0) = false) by (apply Z.ltb_ge; lia).
      rewrite H1. rewrite H2 in Habs. now rewrite Habs.
    - apply Z.ltb_ge in Hneg. rewrite Z.abs_eq in Habs, Hval by lia.
      split; [exact Habs|lia]. }
  destruct Hform as [Hstr Hn]. rewrite Hstr.
  pose proof (py_int_digits (n <? 0) c s Hall Hlen) as Hint.
  destruct (digits_plain (n <? 0) c s Hall) as [Hcloud [Htext Hmark]].
  rewrite <- Hn in Hint. clear Hstr Hn.
  rewrite text_value_spec, convert_value_str. unfold coerce_text_spec.
  destruct (n <? 0); cbv zeta in *; rewrite Htext, Hcloud, Hmark, Hint; now split.
Qed.

Lemma integers_read_back_witness :
  text_value (text "-1500") = PInt (-1500)
  /\ convert_value (fun _ => text "<object>") (PStr (text "-1500")) = Ok (PInt (-1500)).
Proof.
  apply (integers_read_back (fun _ => text "<object>") (-1500)).
  apply Nat.leb_le. reflexivity.
Defined.

(** ** The binary sensor *)

(** X15: the binary sensor [device_online] is on after every conversion of
    an answer that has data items, and has no state after the conversion of
    an answer without a device or without data items; a data item that is
    itself named like it makes no difference. *)
Theorem device_online_state (py_repr : pyobj -> str) (isoformat : datetime -> str)
  (api_data : pyobj) (w : world) (data : snapshot) :
  _convert_deye_response py_repr isoformat api_data w = Ok data ->
  is_on data (text "device_online") = if empty_payload api_data then None else Some true.
Proof.
  intros Hconv. destruct (empty_payload api_data) eqn:Hempty.
  - rewrite (convert_empty_payload py_repr isoformat api_data w Hempty) in Hconv.
    now injection Hconv as <-.
  - destruct (convert_full_payload py_repr isoformat api_data w data Hempty Hconv)
      as [readings ->].
    unfold is_on. rewrite dict_get_set_other by reflexivity.
    now rewrite dict_get_set_same.
Qed.

Lemma device_online_state_witness :
  is_on [(text "device_online", device_online);
         (text "last_update",
          last_update (fun _ => text "2024-01-01T00:00:00")
            (steady_world (json_reply PNone)))]
    (text "device_online")
  = Some true.
Proof.
  exact (device_online_state (fun _ => text "<object>")
           (fun _ => text "2024-01-01T00:00:00")
           (PDict [(text "deviceDataList",
                    PList [PDict [(text "dataList",
                                   PList [PDict [(text "key", PStr (text "Device Online"));
                                                 (text "value", PStr (text "0"))]])]])])
           (steady_world (json_reply PNone)) _ eq_refl).
Defined.

(** ** The sensors *)

Lemma str_in_In (x : str) (l : list str) : str_in x l = true <-> In x l.
Proof.
  unfold str_in. rewrite existsb_exists. split.
  - intros [y [Hy Heq]]. apply str_eqb_eq in Heq. now subst.
  - intros H. exists x. split; [exact H|apply str_eqb_refl].
Qed.

Lemma str_in_not_In (x : str) (l : list str) : str_in x l = false <-> ~ In x l.
Proof.
  rewrite <- str_in_In. destruct (str_in x l); split; congruence.
Qed.

Lemma sensor_fields (data : snapshot) (key nm : str) (e : sensor_entity) :
  DeyeCloudSensor data key nm = Ok e ->
  _key e = key /\ _attr_unique_id e = text "deyecloud2_" ++ key
  /\ _attr_name e = text "Deye " ++ nm.
Proof.
  unfold DeyeCloudSensor.
  destruct (_derive_classes data key nm); [|discriminate]. cbn [bind].
  destruct (_derive_icon data key nm); [|discriminate]. cbn [bind].
  now intros [= <-].
Qed.

Lemma derive_classes_total (data : snapshot) (key nm : str) (u : str) :
  payload_unit data key = Ok u -> exists c, _derive_classes data key nm = Ok c.
Proof.
  intros H. unfold _derive_classes. rewrite H. cbn [bind].
  repeat match goal with |- context [if ?b then _ else _] => destruct b end; eauto.
Qed.

Lemma derive_icon_total (data : snapshot) (key nm : str) (u : str) :
  payload_unit data key = Ok u -> exists i, _derive_icon data key nm = Ok i.
Proof.
  intros H. unfold _derive_icon. rewrite H. cbn [bind].
  repeat match goal with |- context [if ?b then _ else _] => destruct b end; eauto.
Qed.

Lemma payload_unit_textual (data : snapshot) (key : str) :
  Forall (fun kv => textual_unit (snd kv)) data -> exists u, payload_unit data key = Ok u.
Proof.
  intros Hall. unfold payload_unit.
  destruct (dict_get data key) as [payload|] eqn:Hget; [|eauto].
  assert (Hunit : textual_unit payload).
  { clear -Hall Hget. induction Hall as [|[k r] rest H0 Hrest IH]; [discriminate|].
    simpl in Hget. destruct (str_eqb k key); [now injection Hget as <-|auto]. }
  destruct Hunit as [Hu | [s Hu]]; rewrite Hu.
  - cbn. eauto.
  - destruct (truthy (PStr s)); eauto.
Qed.

Lemma sensor_total (data : snapshot) (key nm : str) :
  Forall (fun kv => textual_unit (snd kv)) data ->
  exists e, DeyeCloudSensor data key nm = Ok e.
Proof.
  intros Hall. destruct (payload_unit_textual data key Hall) as [u Hu].
  destruct (derive_classes_total data key nm u Hu) as [c Hc].
  destruct (derive_icon_total data key nm u Hu) as [i Hi].
  unfold DeyeCloudSensor. rewrite Hc, Hi. cbn [bind]. eauto.
Qed.

Lemma initial_sensors_keys (data items : snapshot) (entities : list sensor_entity) :
  initial_sensors data items = Ok entities ->
  map _key entities = dict_keys items
  /\ Forall (fun e => _attr_unique_id e = text "deyecloud2_" ++ _key e) entities.
Proof.
  revert entities; induction items as [|[key payload] rest IH]; intros entities; simpl.
  - intros [= <-]. now split.
  - destruct (DeyeCloudSensor data key (name payload)) as [e|] eqn:He; [|discriminate].
    cbn [bind]. destruct (initial_sensors data rest) as [es|]; [|discriminate].
    cbn [bind]. intros [= <-]. destruct (IH es eq_refl) as [Hkeys Hids].
    apply sensor_fields in He as [Hk [Hid _]]. cbn [map]. split.
    + now rewrite Hk, Hkeys.
    + constructor; [now rewrite Hid, Hk|exact Hids].
Qed.

Lemma initial_sensors_total (data items : snapshot) :
  Forall (fun kv => textual_unit (snd kv)) data ->
  exists entities, initial_sensors data items = Ok entities.
Proof.
  intros Hall. induction items as [|[key payload] rest [es IH]]; simpl; [eauto|].
  destruct (sensor_total data key (name payload) Hall) as [e ->].
  rewrite IH. cbn [bind]. eauto.
Qed.

Lemma parse_fold_textual (lines : list str) (data : snapshot) :
  Forall (fun kv => textual_unit (snd kv)) data ->
  Forall (fun kv => textual_unit (snd kv)) (fold_left parse_line_spec lines data).
Proof.
  revert data; induction lines as [|line rest IH]; intros data H; [exact H|].
  simpl. apply IH. unfold parse_line_spec.
  destruct (fragments (strip line)) as [|p0 [|p1 more]]; try exact H.
  apply dict_set_forall; [exact H|].
  unfold textual_unit; cbn [snd unit].
  destruct more; [now left|right; eauto].
Qed.

Lemma map_injective_nodup {X Y} (f : X -> Y) (l : list X) :
  (forall a b, f a = f b -> a = b) -> NoDup l -> NoDup (map f l).
Proof.
  intros Hinj. induction 1 as [|x l Hx Hl IH]; [constructor|].
  cbn [map]. constructor; [|exact IH].
  intros Hin. apply in_map_iff in Hin as [y [Hy Hin]].
  apply Hinj in Hy. now subst.
Qed.

Lemma unique_ids_of_keys (entities : list sensor_entity) :
  Forall (fun e => _attr_unique_id e = text "deyecloud2_" ++ _key e) entities ->
  map _attr_unique_id entities = map (app (text "deyecloud2_")) (map _key entities).
Proof.
  induction 1 as [|e es He Hes IH]; [reflexivity|].
  cbn [map]. now rewrite He, IH.
Qed.

(** X16: setting up the sensors from a snapshot of the text parser never
    fails: there is one sensor a reading, in the order of the snapshot, each
    with the unique id [deyecloud2_] followed by its key, no two of them
    alike, and the known keys are the keys of the snapshot. *)
Theorem sensor_setup_from_text (raw_text : str) :
  exists data entities,
    parse_deyecloud_text raw_text = Ok data
    /\ sensor_setup data = Ok {| added := entities; known_keys := dict_keys data |}
    /\ map _key entities = dict_keys data
    /\ map _attr_unique_id entities = map (app (text "deyecloud2_")) (dict_keys data)
    /\ NoDup (map _attr_unique_id entities).
Proof.
  exists (fold_left parse_line_spec (splitlines raw_text) []).
  set (data := fold_left parse_line_spec (splitlines raw_text) []).
  assert (Htext : Forall (fun kv => textual_unit (snd kv)) data)
    by (apply parse_fold_textual; constructor).
  assert (Hkeyed : well_keyed data).
  { apply parse_fold_keyed. split; constructor. }
  destruct (initial_sensors_total data data Htext) as [entities Hent].
  exists entities. destruct (initial_sensors_keys data data entities Hent) as [Hkeys Hids].
  split; [apply parse_lines_eq|].
  split; [unfold sensor_setup; now rewrite Hent|].
  split; [exact Hkeys|].
  rewrite (unique_ids_of_keys entities Hids), Hkeys. split; [reflexivity|].
  apply map_injective_nodup; [|apply Hkeyed].
  intros a b H. now apply app_inv_head in H.
Qed.

(** One pass of the listener's loop: [known_keys] only grows, by keys of
    the snapshot; a pass that ends appends to [new_entities] one sensor for
    each key that was not known, and then knows every key of the snapshot; a
    pass that raises has made a key known that was not. *)
Lemma new_sensors_pass (data items : snapshot) :
  forall (known : list str) (acc : list sensor_entity),
    let r := new_sensors data known items acc in
    incl known (snd r)
    /\ (NoDup known -> NoDup (snd r))
    /\ (forall new, fst r = Ok new ->
          incl (dict_keys items) (snd r)
          /\ exists more,
               new = acc ++ more
               /\ NoDup (map _key more)
               /\ forall e, In e more ->
                    ~ In (_key e) known /\ In (_key e) (snd r)
                    /\ _attr_unique_id e = text "deyecloud2_" ++ _key e)
    /\ (forall err, fst r = Raise err ->
          exists key, In key (dict_keys items) /\ In key (snd r) /\ ~ In key known).
Proof.
  induction items as [|[key payload] rest IH]; intros known acc; cbn zeta.
  - cbn [new_sensors fst snd]. split; [apply incl_refl|]. split; [auto|]. split.
    + intros new [= <-]. split; [intros k []|].
      exists []. rewrite app_nil_r. split; [reflexivity|].
      split; [constructor|intros e []].
    + discriminate.
  - cbn [new_sensors]. destruct (str_in key known) eqn:Hknown.
    + apply str_in_In in Hknown.
      destruct (IH known acc) as [Hincl [Hnodup [Hok Hraise]]].
      split; [exact Hincl|]. split; [exact Hnodup|]. split.
      * intros new Hnew. destruct (Hok new Hnew) as [Hkeys Hmore].
        split; [|exact Hmore].
        intros k [<-|Hk]; [now apply Hincl|now apply Hkeys].
      * intros err Herr. destruct (Hraise err Herr) as [k [Hk Hrest]].
        exists k. split; [now right|exact Hrest].
    + apply str_in_not_In in Hknown.
      assert (Hgrown : NoDup known -> NoDup (known ++ [key])).
      { intros H. apply NoDup_app; [exact H|repeat constructor; intros []|].
        intros a Ha [<-|[]]. now apply Hknown. }
      destruct (DeyeCloudSensor data key (name payload)) as [entity|err] eqn:Hentity.
      * apply sensor_fields in Hentity as [Hkey [Hid _]].
        destruct (IH (known ++ [key]) (acc ++ [entity])) as [Hincl [Hnodup [Hok Hraise]]].
        split; [intros k Hk; apply Hincl, in_app_iff; now left|].
        split; [now intros H; apply Hnodup, Hgrown|]. split.
        -- intros new Hnew. destruct (Hok new Hnew) as [Hkeys [more [-> [Hmore Heach]]]].
           split.
           { intros k [<-|Hk]; [|now apply Hkeys].
             apply Hincl, in_app_iff. right. now left. }
           exists (entity :: more). rewrite <- app_assoc. split; [reflexivity|].
           split.
           { cbn [map]. constructor; [|exact Hmore].
             intros Hin. apply in_map_iff in Hin as [e [He Hin]].
             destruct (Heach e Hin) as [Hnot _]. apply Hnot, in_app_iff.
             right. left. now rewrite He, Hkey. }
           intros e [<-|Hin].
           { rewrite Hkey. split; [exact Hknown|]. split; [|now rewrite Hid].
             apply Hincl, in_app_iff. right. now left. }
           destruct (Heach e Hin) as [Hnot Hrest]. split; [|exact Hrest].
           intros H. apply Hnot, in_app_iff. now left.
        -- intros err Herr. destruct (Hraise err Herr) as [k [Hk [Hin Hnot]]].
           exists k. split; [now right|]. split; [exact Hin|].
           intros H. apply Hnot, in_app_iff. now left.
      * cbn [fst snd]. split; [intros k Hk; apply in_app_iff; now left|].
        split; [exact Hgrown|]. split; [discriminate|].
        intros _ _. exists key. split; [now left|].
        split; [apply in_app_iff; right; now left|exact Hknown].
Qed.

(** What one call of the listener does to the platform. *)
Lemma listener_step (p : platform) (data : snapshot) :
  let p' := _maybe_add_new_sensors p data in
  incl (known_keys p) (known_keys p')
  /\ (exists new, added p' = added p ++ new
        /\ forall e, In e new -> ~ In (_key e) (known_keys p))
  /\ (platform_ok p -> platform_ok p').
Proof.
  cbn zeta. unfold _maybe_add_new_sensors.
  pose proof (new_sensors_pass data data (known_keys p) []) as H. cbn zeta in H.
  destruct (new_sensors data (known_keys p) data []) as [[new|err] known'];
    cbn [fst snd] in H; destruct H as [Hincl [Hnodup [Hok Hraise]]]; cbn [added known_keys].
  - destruct (Hok new eq_refl) as [_ [more [Hnew [Hmore Heach]]]].
    cbn [app] in Hnew. subst more.
    split; [exact Hincl|]. split.
    + exists new. split; [reflexivity|]. intros e He. now apply Heach.
    + intros [Hk [Ha [Hsub Hids]]]. unfold platform_ok; cbn [added known_keys].
      split; [now apply Hnodup|]. rewrite map_app. split.
      * apply NoDup_app; [exact Ha|exact Hmore|].
        intros k Hin Hin'. apply in_map_iff in Hin' as [e [<- He]].
        destruct (Heach e He) as [Hnot _]. now apply Hnot, Hsub.
      * split.
        -- apply incl_app; [now apply incl_tran with (known_keys p)|].
           intros k Hin. apply in_map_iff in Hin as [e [<- He]]. now apply Heach.
        -- apply Forall_app. split; [exact Hids|].
           apply Forall_forall. intros e He. now apply Heach.
  - split; [exact Hincl|]. split.
    + exists []. rewrite app_nil_r. split; [reflexivity|intros e []].
    + intros [Hk [Ha [Hsub Hids]]]. unfold platform_ok; cbn [added known_keys].
      split; [now apply Hnodup|]. split; [exact Ha|].
      split; [now apply incl_tran with (known_keys p)|exact Hids].
Qed.

Lemma listener_steps (snapshots : list snapshot) :
  forall p : platform,
    let p' := fold_left _maybe_add_new_sensors snapshots p in
    incl (known_keys p) (known_keys p')
    /\ (exists new, added p' = added p ++ new
          /\ forall e, In e new -> ~ In (_key e) (known_keys p))
    /\ (platform_ok p -> platform_ok p').
Proof.
  induction snapshots as [|data rest IH]; intros p; cbn zeta; cbn [fold_left].
  - split; [apply incl_refl|]. split; [|auto].
    exists []. rewrite app_nil_r. split; [reflexivity|intros e []].
  - destruct (listener_step p data) as [Hincl [[new [Hnew Heach]] Hok]].
    destruct (IH (_maybe_add_new_sensors p data)) as [Hincl' [[new' [Hnew' Heach']] Hok']].
    split; [now apply incl_tran with (known_keys (_maybe_add_new_sensors p data))|].
    split; [|auto].
    exists (new ++ new'). rewrite Hnew', Hnew, app_assoc. split; [reflexivity|].
    intros e He. apply in_app_iff in He as [He|He]; [now apply Heach|].
    intros H. now apply (Heach' e He), Hincl.
Qed.

Lemma setup_platform_ok (data : snapshot) (p : platform) :
  NoDup (dict_keys data) -> sensor_setup data = Ok p -> platform_ok p.
Proof.
  intros Hnodup. unfold sensor_setup.
  destruct (initial_sensors data data) as [entities|] eqn:Hent; [|discriminate].
  cbn [bind]. intros [= <-].
  destruct (initial_sensors_keys data data entities Hent) as [Hkeys Hids].
  unfold platform_ok; cbn [added known_keys]. rewrite Hkeys.
  split; [exact Hnodup|]. split; [exact Hnodup|]. split; [apply incl_refl|exact Hids].
Qed.

Lemma platform_unique_ids (p : platform) :
  platform_ok p -> NoDup (map _attr_unique_id (added p)).
Proof.
  intros [_ [Ha [_ Hids]]]. rewrite (unique_ids_of_keys _ Hids).
  apply map_injective_nodup; [|exact Ha].
  intros a b H. now apply app_inv_head in H.
Qed.

(** X17: after the set-up of the sensors from a snapshot and any number of
    refreshes, whatever the snapshots, no two sensors have the same key or
    the same unique id, every sensor's key is a known key, no key of the
    first snapshot is forgotten, and the sensors of the set-up are still
    the first ones: sensors are only ever appended. *)
Theorem sensors_never_doubled (data : snapshot) (p0 : platform) (snapshots : list snapshot) :
  NoDup (dict_keys data) ->
  sensor_setup data = Ok p0 ->
  let p := fold_left _maybe_add_new_sensors snapshots p0 in
  NoDup (map _attr_unique_id (added p))
  /\ NoDup (map _key (added p))
  /\ NoDup (known_keys p)
  /\ incl (map _key (added p)) (known_keys p)
  /\ incl (dict_keys data) (known_keys p)
  /\ exists new, added p = added p0 ++ new.
Proof.
  intros Hnodup Hsetup. cbn zeta.
  pose proof (setup_platform_ok data p0 Hnodup Hsetup) as Hok0.
  destruct (listener_steps snapshots p0) as [Hincl [[new [Hnew _]] Hok]].
  specialize (Hok Hok0). split; [now apply platform_unique_ids|].
  destruct Hok as [Hk [Ha [Hsub _]]].
  split; [exact Ha|]. split; [exact Hk|]. split; [exact Hsub|]. split; [|eauto].
  unfold sensor_setup in Hsetup.
  destruct (initial_sensors data data); [|discriminate].
  cbn [bind] in Hsetup. injection Hsetup as <-. exact Hincl.
Qed.

Lemma sensors_never_doubled_witness :
  exists p0,
    sensor_setup sample_snapshot = Ok p0
    /\ NoDup (map _attr_unique_id
                (added (fold_left _maybe_add_new_sensors
                          [numeric_unit_snapshot; sample_snapshot; numeric_unit_snapshot]
                          p0))).
Proof.
  eexists. split; [reflexivity|].
  apply (sensors_never_doubled sample_snapshot _
           [numeric_unit_snapshot; sample_snapshot; numeric_unit_snapshot]).
  - repeat constructor; cbn; intuition discriminate.
  - reflexivity.
Defined.

(** X18: a refresh whose keys are all known leaves the platform as it
    was; so a second call of the listener on the same snapshot, after a
    first that ended without an exception, adds nothing. *)
Theorem refresh_without_new_keys (p : platform) (data : snapshot) :
  (incl (dict_keys data) (known_keys p) -> _maybe_add_new_sensors p data = p)
  /\ (forall new,
        fst (new_sensors data (known_keys p) data []) = Ok new ->
        _maybe_add_new_sensors (_maybe_add_new_sensors p data) data
        = _maybe_add_new_sensors p data).
Proof.
  assert (Hskip : forall items known acc,
             incl (dict_keys items) known ->
             new_sensors data known items acc = (Ok acc, known)).
  { induction items as [|[key payload] rest IH]; intros known acc Hincl; [reflexivity|].
    cbn [new_sensors].
    assert (Hin : str_in key known = true) by (apply str_in_In, Hincl; now left).
    rewrite Hin. apply IH. intros k Hk. apply Hincl. now right. }
  assert (Hsame : forall q, incl (dict_keys data) (known_keys q) ->
                            _maybe_add_new_sensors q data = q).
  { intros [entities known] Hincl. unfold _maybe_add_new_sensors.
    cbn [known_keys added] in *. rewrite (Hskip data known [] Hincl).
    now rewrite app_nil_r. }
  split; [apply Hsame|].
  intros new Hnew. apply Hsame. unfold _maybe_add_new_sensors.
  pose proof (new_sensors_pass data data (known_keys p) []) as H. cbn zeta in H.
  destruct (new_sensors data (known_keys p) data []) as [[new'|err] known'];
    cbn [fst snd] in *; [|discriminate].
  cbn [known_keys]. now apply H with new'.
Qed.

(** X19: a refresh in which the construction of a sensor raises adds no
    sensor at all, yet makes known the keys it had met; none of the keys made
    known by it gets a sensor in any later refresh. There is such a key: the
    one whose sensor could not be built. *)
Theorem failed_refresh_loses_sensors (p : platform) (data : snapshot) (err : exn) :
  platform_ok p ->
  fst (new_sensors data (known_keys p) data []) = Raise err ->
  let p1 := _maybe_add_new_sensors p data in
  added p1 = added p
  /\ (exists key, In key (dict_keys data) /\ In key (known_keys p1)
                  /\ ~ In key (known_keys p))
  /\ forall key snapshots,
       In key (known_keys p1) -> ~ In key (known_keys p) ->
       ~ In key (map _key (added (fold_left _maybe_add_new_sensors snapshots p1))).
Proof.
  intros Hok Herr. cbn zeta.
  assert (Hadded : added (_maybe_add_new_sensors p data) = added p).
  { unfold _maybe_add_new_sensors.
    destruct (new_sensors data (known_keys p) data []) as [[new|err'] known'];
      [discriminate|reflexivity]. }
  split; [exact Hadded|]. split.
  - pose proof (new_sensors_pass data data (known_keys p) []) as H. cbn zeta in H.
    destruct H as [_ [_ [_ Hraise]]]. destruct (Hraise err Herr) as [key Hkey].
    exists key. unfold _maybe_add_new_sensors.
    destruct (new_sensors data (known_keys p) data []) as [[new|err'] known'];
      [discriminate|exact Hkey].
  - intros key snapshots Hin Hnot Hsensor.
    destruct (listener_steps snapshots (_maybe_add_new_sensors p data))
      as [_ [[new [Hnew Heach]] _]].
    rewrite Hnew, Hadded, map_app in Hsensor.
    apply in_app_iff in Hsensor as [Hold|Hlater].
    + destruct Hok as [_ [_ [Hsub _]]]. now apply Hnot, Hsub.
    + apply in_map_iff in Hlater as [e [<- He]]. now apply (Heach e He).
Qed.

Lemma failed_refresh_loses_sensors_witness :
  fst (new_sensors numeric_unit_snapshot (known_keys no_sensors) numeric_unit_snapshot [])
  = Raise (builtin AttributeError)
  /\ ~ In (text "pv1")
       (map _key (added (fold_left _maybe_add_new_sensors
                           [numeric_unit_snapshot; numeric_unit_snapshot]
                           (_maybe_add_new_sensors no_sensors numeric_unit_snapshot)))).
Proof.
  split; [reflexivity|].
  refine (proj2 (proj2 (failed_refresh_loses_sensors no_sensors numeric_unit_snapshot
                          (builtin AttributeError) _ eq_refl))
            (text "pv1") [numeric_unit_snapshot; numeric_unit_snapshot] _ _).
  - repeat split; try constructor. intros k [].
  - left. reflexivity.
  - intros [].
Defined.

(** On a unit in its standard case the tests of [_derive_icon] on the
    lower-cased unit are the tests of [_derive_classes]. *)
Lemma standard_case_tests (u : str) :
  standard_case u = true ->
  str_in (lower u) [text "w"; text "kw"; text "mw"] = str_in u [text "W"; text "kW"; text "MW"]
  /\ str_in (lower u) [text "v"; text "kv"] = str_in u [text "V"; text "kV"]
  /\ str_in (lower u) [text "a"; text "ma"] = str_in u [text "A"; text "mA"]
  /\ str_in (lower u) [text "hz"; text "khz"] = str_in u [text "Hz"; text "kHz"]
  /\ str_in (lower u) [text "wh"; text "kwh"; text "mwh"]
     = str_in u [text "Wh"; text "kWh"; text "MWh"]
  /\ str_eqb (lower u) (text "%") = str_in u [text "%"].
Proof.
  unfold standard_case. intros H. apply orb_true_iff in H as [H|H].
  - apply str_in_In in H. unfold class_units in H. cbn [In] in H.
    repeat (destruct H as [<-|H]; [vm_compute; repeat split; reflexivity|]).
    destruct H.
  - apply negb_true_iff in H. unfold icon_units, str_in in H. cbn [existsb] in H.
    repeat (apply orb_false_iff in H as [? H]). clear H.
    unfold str_in. cbn [existsb].
    repeat match goal with
           | E : str_eqb (lower u) _ = false |- _ => rewrite E
           end.
    repeat match goal with
           | |- context [str_eqb u ?c] =>
               let E := fresh "E" in
               destruct (str_eqb u c) eqn:E;
               [apply str_eqb_eq in E; subst u;
                repeat match goal with
                       | F : str_eqb _ _ = false |- _ => vm_compute in F; try discriminate F
                       end
               |]
           end.
    now repeat split.
Qed.

(** X20: whenever the unit of the reading is in its standard case, in
    particular when the reading has no unit, the sensor gets the icon of its
    device class; without a device class it gets the thermometer or the
    default icon. The state class is total-increasing for the energy class
    and for no other. *)
Theorem icon_agrees_with_class (data : snapshot) (key nm u : str) :
  payload_unit data key = Ok u ->
  standard_case u = true ->
  exists c s icon,
    _derive_classes data key nm = Ok (c, s)
    /\ _derive_icon data key nm = Ok icon
    /\ (s = TOTAL_INCREASING <-> c = Some ENERGY)
    /\ match c with
       | Some c => icon = icon_of c
       | None => icon = ICON_temperature \/ icon = ICON_default
       end.
Proof.
  intros Hunit Hcase. unfold _derive_classes, _derive_icon. rewrite Hunit.
  cbn [bind]. cbv zeta.
  destruct (standard_case_tests u Hcase) as [-> [-> [-> [-> [-> ->]]]]].
  repeat match goal with
         | |- context [if ?b then _ else _] => destruct b
         end;
    do 3 eexists; (split; [reflexivity|]); (split; [reflexivity|]);
    (split; [split; discriminate || reflexivity|]); cbn; auto.
Qed.

Lemma icon_agrees_with_class_witness :
  exists c s,
    _derive_classes (kw_snapshot (text " kWh ")) (text "pv1") (text "PV1") = Ok (Some c, s)
    /\ _derive_icon (kw_snapshot (text " kWh ")) (text "pv1") (text "PV1") = Ok (icon_of c).
Proof.
  destruct (icon_agrees_with_class (kw_snapshot (text " kWh ")) (text "pv1") (text "PV1")
              (text "kWh") eq_refl eq_refl)
    as [c [s [icon [Hc [Hi [_ Hicon]]]]]].
  destruct c as [c|]; [|discriminate Hc].
  exists c, s. split; [exact Hc|]. now rewrite Hi, Hicon.
Defined.

(** ** The configuration flow *)

(** [{**base, **extra}] has the entries of [extra], and those of [base]
    under the other keys. *)
Lemma dict_merge_get (extra : list (str * pyobj)) :
  forall (base : list (str * pyobj)) (k : str),
    NoDup (dict_keys extra) ->
    dict_get (dict_merge base extra) k
    = match dict_get extra k with Some v => Some v | None => dict_get base k end.
Proof.
  unfold dict_merge.
  induction extra as [|[k0 v0] rest IH]; intros base k Hnodup; [reflexivity|].
  cbn [fold_left fst snd dict_get]. inversion Hnodup as [|? ? Hk0 Hrest]; subst.
  rewrite (IH _ k Hrest). destruct (str_eqb k0 k) eqn:Hk.
  - apply str_eqb_eq in Hk. subst k0.
    assert (Hnone : dict_get rest k = None).
    { clear -Hk0. induction rest as [|[k1 v1] rest IH]; [reflexivity|].
      simpl. destruct (str_eqb k1 k) eqn:E.
      - apply str_eqb_eq in E. subst. exfalso. apply Hk0. now left.
      - apply IH. intros H. apply Hk0. now right. }
    rewrite Hnone. apply dict_get_set_same.
  - now rewrite (dict_get_set_other base k0 k v0 Hk).
Qed.

Lemma dict_index_merge (base extra : list (str * pyobj)) (k : str) (v : pyobj) :
  NoDup (dict_keys extra) ->
  dict_index extra k = Ok v -> dict_index (dict_merge base extra) k = Ok v.
Proof.
  intros Hnodup. unfold dict_index. rewrite (dict_merge_get extra base k Hnodup).
  now destruct (dict_get extra k).
Qed.

(** X21: the API step creates an entry exactly when a url that is not
    empty was entered, and shows the form with [invalid_url] otherwise. The
    entry holds what was entered and, unless the input has a mode of its own,
    the mode [api]: the coordinator built from it polls the text endpoint,
    at the url entered. *)
Theorem api_step_entry (input : list (str * pyobj)) :
  NoDup (dict_keys input) ->
  match async_step_api (Some input) with
  | ShowForm step_id errors =>
      truthy (get_or input CONF_URL PNone) = false
      /\ step_id = text "api" /\ errors = [(text "base", text "invalid_url")]
  | CreateEntry title data =>
      (forall k v, dict_get input k = Some v -> dict_get data k = Some v)
      /\ (forall k, dict_get input k = None ->
                    dict_get data k = dict_get [(CONF_MODE, PStr MODE_API)] k)
      /\ (exists target,
             dict_index (_config (DeyeCloudCoordinator data)) CONF_URL = Ok target
             /\ dict_get input CONF_URL = Some target /\ truthy target = true)
      /\ (dict_get input CONF_MODE = None ->
          forall py_repr isoformat w,
            _async_update_data py_repr isoformat (DeyeCloudCoordinator data, w)
            = _update_from_api_with_retry py_repr (DeyeCloudCoordinator data, w))
  end.
Proof.
  intros Hnodup. unfold async_step_api.
  destruct (truthy (get_or input CONF_URL PNone)) eqn:Hurl; cbn [negb]; [|now repeat split].
  pose proof (fun k => dict_merge_get input [(CONF_MODE, PStr MODE_API)] k Hnodup) as Hget.
  split; [|split; [|split]].
  - intros k v Hk. now rewrite Hget, Hk.
  - intros k Hk. now rewrite Hget, Hk.
  - unfold get_or in Hurl. destruct (dict_get input CONF_URL) as [target|] eqn:Htarget;
      [|discriminate].
    exists target. split; [|now split].
    cbn [_config DeyeCloudCoordinator]. unfold dict_index. now rewrite Hget, Htarget.
  - intros Hmode py_repr isoformat w. unfold _async_update_data.
    cbn [fst _mode DeyeCloudCoordinator]. unfold get_or. rewrite Hget, Hmode.
    reflexivity.
Qed.

Lemma api_step_entry_witness :
  exists title data,
    async_step_api (Some api_input) = CreateEntry title data
    /\ dict_get data CONF_MODE = Some (PStr MODE_API)
    /\ dict_get data CONF_URL = Some (PStr (text "http://inverter.local/feed")).
Proof.
  assert (Hnodup : NoDup (dict_keys api_input)) by (repeat constructor; intros []).
  pose proof (api_step_entry api_input Hnodup) as H.
  destruct (async_step_api (Some api_input)) as [step_id errors|title data];
    [now destruct H|].
  exists title, data. destruct H as [Hin [Hout _]].
  split; [reflexivity|]. split; [now rewrite Hout|now apply Hin].
Defined.

Section Validation.
Variable py_repr : pyobj -> str.

(** The validation of the set-up and the polling accept the same
    responses. *)
Lemma validate_response_accepts (resp : response) :
  validate_response py_repr resp = Ok tt
  <-> exists token, token_of_response py_repr resp = Ok token.
Proof.
  unfold validate_response, token_of_response.
  destruct (negb (status resp =? 200)).
  - destruct (body_text resp); cbn [bind]; split; try discriminate;
      intros [token H]; discriminate.
  - destruct (body_json resp) as [result|]; cbn [bind];
      [|split; [discriminate|intros [token H]; discriminate]].
    destruct result; cbn [obj_get bind];
      try (split; [discriminate|intros [token H]; discriminate]).
    destruct (negb (truthy _)); cbn [bind];
      [split; [discriminate|intros [token H]; discriminate]|].
    cbn [has_key bind].
    destruct (dict_get entries (text "accessToken")); cbn [negb];
      [split; eauto|split; [discriminate|intros [token H]; discriminate]].
Qed.

Lemma token_request_timeout (server : pyobj) (config : list (str * pyobj)) (a b : Z) :
  match token_request py_repr server config a with
  | Ok req => token_request py_repr server config b = Ok (with_timeout req b)
              /\ timeout req = a
  | Raise e => token_request py_repr server config b = Raise e
  end.
Proof.
  unfold token_request.
  destruct (dict_index config CONF_PASSWORD) as [password|]; cbn [bind]; [|reflexivity].
  destruct (password_hash password); cbn [bind]; [|reflexivity].
  destruct (dict_index config CONF_APP_ID); cbn [bind]; [|reflexivity].
  destruct (dict_index config CONF_APP_SECRET); cbn [bind]; [|reflexivity].
  destruct (dict_index config CONF_EMAIL); cbn [bind]; [|reflexivity].
  now split.
Qed.

(** X22: the validation of the set-up and the polling accept the same
    answers.  With the server in the configuration, whenever the request of
    [_validate_config] and the token request of a coordinator just built from
    the same configuration come to the same outcome (the same response, or
    the same exception of the transport), the validation succeeds exactly
    when [_get_deye_token] returns without an exception; either both send
    nothing, or each sends one request, the same but for the timeout, 10
    seconds in the validation and 20 in the coordinator.  The two calls may
    run in different worlds: a request that is answered within 20 seconds
    and not within 10 comes to two outcomes, and is not spoken of. *)
Theorem validation_agrees_with_polling (config : list (str * pyobj)) (server : pyobj)
  (w1 w2 : world) :
  dict_get config CONF_SERVER = Some server ->
  answer (network w1 (List.length (sent w1))) = answer (network w2 (List.length (sent w2))) ->
  let validation := _validate_config py_repr config w1 in
  let polling := _get_deye_token py_repr (DeyeCloudCoordinator config) w2 in
  (fst validation = Ok tt <-> exists token, fst (fst polling) = Ok token)
  /\ (sent (snd validation) = sent w1 /\ sent (snd polling) = sent w2
      \/ exists req,
           sent (snd validation) = sent w1 ++ [req]
           /\ sent (snd polling) = sent w2 ++ [with_timeout req 20]
           /\ timeout req = 10).
Proof.
  intros Hserver Hsame. cbn zeta.
  unfold _validate_config, _get_deye_token, validation_request.
  assert (Hcached : token_cached (DeyeCloudCoordinator config) w2 = false) by reflexivity.
  rewrite Hcached. cbn [_server _config DeyeCloudCoordinator].
  unfold dict_index, get_or. rewrite Hserver. cbn [bind].
  pose proof (token_request_timeout server config 10 20) as Hreq.
  destruct (token_request py_repr server config 10) as [req|e].
  - destruct Hreq as [-> Htimeout]. unfold send. cbn [fst snd]. rewrite <- Hsame.
    destruct (answer (network w1 (List.length (sent w1)))) as [resp|e]; cbn [fst snd sent].
    + pose proof (validate_response_accepts resp) as Hacc.
      destruct (validate_response py_repr resp) as [[]|e1];
        destruct (token_of_response py_repr resp) as [token|e2]; cbn [fst snd sent].
      * split; [split; eauto|]. right. now exists req.
      * exfalso. destruct (proj1 Hacc eq_refl) as [token H]. discriminate.
      * exfalso. pose proof (proj2 Hacc (ex_intro _ token eq_refl)). discriminate.
      * split; [split; [discriminate|intros [token H]; discriminate]|].
        right. now exists req.
    + split; [split; [discriminate|intros [token H]; discriminate]|].
      right. now exists req.
  - rewrite Hreq. cbn [fst snd].
    split; [split; [discriminate|intros [token H]; discriminate]|]. now left.
Qed.

End Validation.

Lemma validation_agrees_with_polling_witness :
  fst (_validate_config (fun _ => text "<object>") deye_config
         (steady_world (token_reply (PStr (text "tok-1")))))
  = Ok tt.
Proof.
  apply (validation_agrees_with_polling (fun _ => text "<object>") deye_config
           (PStr SERVER_EU) (steady_world (token_reply (PStr (text "tok-1"))))
           (sleep 90 (steady_world (token_reply (PStr (text "tok-1")))))
           eq_refl eq_refl).
  exists (PStr (text "tok-1")).
  unfold _get_deye_token.
  destruct (token_request (fun _ => text "<object>")
              (_server (DeyeCloudCoordinator deye_config))
              (_config (DeyeCloudCoordinator deye_config)) 20) as [req|] eqn:Hreq;
    [reflexivity|discriminate].
Defined.

Section DirectStep.
Variable py_repr : pyobj -> str.
Variable claim_unique_id : str -> result Datatypes.unit.

Lemma validate_config_ok (config : list (str * pyobj)) (w w' : world) :
  _validate_config py_repr config w = (Ok tt, w') ->
  exists server req resp,
    dict_get config CONF_SERVER = Some server
    /\ token_request py_repr server config 10 = Ok req
    /\ sent w' = sent w ++ [req]
    /\ answer (network w (List.length (sent w))) = Responded resp
    /\ validate_response py_repr resp = Ok tt.
Proof.
  unfold _validate_config, validation_request, dict_index.
  destruct (dict_get config CONF_SERVER) as [server|]; cbn [bind]; [|discriminate].
  destruct (token_request py_repr server config 10) as [req|] eqn:Hreq; [|discriminate].
  unfold send.
  destruct (answer (network w (List.length (sent w)))) as [resp|e] eqn:Hanswer;
    [|discriminate].
  destruct (validate_response py_repr resp) as [[]|e] eqn:Hvalid; [|discriminate].
  intros [= <-]. exists server, req, resp. now repeat split.
Qed.

Lemma token_request_merge (server : pyobj) (base input : list (str * pyobj))
  (seconds : Z) (req : request) :
  NoDup (dict_keys input) ->
  token_request py_repr server input seconds = Ok req ->
  token_request py_repr server (dict_merge base input) seconds = Ok req.
Proof.
  intros Hnodup. unfold token_request.
  destruct (dict_index input CONF_PASSWORD) as [password|] eqn:H1; [|discriminate].
  rewrite (dict_index_merge base input _ _ Hnodup H1). cbn [bind].
  destruct (password_hash password); [|discriminate]. cbn [bind].
  destruct (dict_index input CONF_APP_ID) eqn:H2; [|discriminate].
  rewrite (dict_index_merge base input _ _ Hnodup H2). cbn [bind].
  destruct (dict_index input CONF_APP_SECRET) eqn:H3; [|discriminate].
  rewrite (dict_index_merge base input _ _ Hnodup H3). cbn [bind].
  destruct (dict_index input CONF_EMAIL) eqn:H4; [|discriminate].
  now rewrite (dict_index_merge base input _ _ Hnodup H4).
Qed.

(** X23: when the direct step creates an entry, it has sent the one
    validation request, with a timeout of 10 seconds, the answer held a
    token, and the unique id made of the e-mail address and the serial was
    free. The entry then has all a coordinator asks of it: the coordinator
    built from it sends, for its token, the validated request with a timeout
    of 20 seconds, finds the serial of the device, and polls the cloud unless
    the input had a mode of its own. *)
Theorem direct_step_entry (input : list (str * pyobj)) (w w' : world)
  (title : str) (data : list (str * pyobj)) :
  NoDup (dict_keys input) ->
  async_step_deye py_repr claim_unique_id (Some input) w = (CreateEntry title data, w') ->
  exists req uid resp token serial,
    validation_request py_repr input = Ok req
    /\ timeout req = 10
    /\ sent w' = sent w ++ [req]
    /\ answer (network w (List.length (sent w))) = Responded resp
    /\ token_of_response py_repr resp = Ok token
    /\ deye_unique_id py_repr input = Ok uid
    /\ claim_unique_id uid = Ok tt
    /\ token_request py_repr (_server (DeyeCloudCoordinator data))
         (_config (DeyeCloudCoordinator data)) 20
       = Ok (with_timeout req 20)
    /\ dict_index (_config (DeyeCloudCoordinator data)) CONF_DEVICE_SN = Ok serial
    /\ (dict_get input CONF_MODE = None ->
        _mode (DeyeCloudCoordinator data) = PStr MODE_DEYE_DIRECT).
Proof.
  intros Hnodup. unfold async_step_deye.
  destruct (_validate_config py_repr input w) as [[[]|e] w1] eqn:Hvalid; [|discriminate].
  destruct (deye_unique_id py_repr input) as [uid|e] eqn:Huid; cbn [bind]; [|discriminate].
  destruct (claim_unique_id uid) as [[]|e] eqn:Hclaim; [|discriminate].
  intros [= <- <- <-].
  destruct (validate_config_ok input w w1 Hvalid)
    as [server [req [resp [Hserver [Hreq [Hsent [Hanswer Hresp]]]]]]].
  apply validate_response_accepts in Hresp as [token Htoken].
  pose proof (fun k => dict_merge_get input [(CONF_MODE, PStr MODE_DEYE_DIRECT)] k Hnodup)
    as Hget.
  unfold deye_unique_id in Huid.
  destruct (dict_index input CONF_EMAIL) as [email|]; [|discriminate].
  cbn [bind] in Huid.
  destruct (dict_index input CONF_DEVICE_SN) as [serial|] eqn:Hserial; [|discriminate].
  exists req, uid, resp, token, serial.
  pose proof (token_request_timeout py_repr server input 10 20) as Htimeout.
  rewrite Hreq in Htimeout. destruct Htimeout as [H20 H10].
  split; [unfold validation_request, dict_index; now rewrite Hserver|].
  split; [exact H10|]. split; [exact Hsent|]. split; [exact Hanswer|].
  split; [exact Htoken|]. split; [now rewrite <- Huid|]. split; [exact Hclaim|].
  cbn [_server _config _mode DeyeCloudCoordinator]. unfold get_or. rewrite !Hget.
  rewrite Hserver. split; [now apply token_request_merge|].
  split; [now apply dict_index_merge|].
  now intros ->.
Qed.

End DirectStep.

Lemma direct_step_entry_witness :
  exists req,
    validation_request (fun _ => text "<object>") deye_input = Ok req
    /\ timeout req = 10.
Proof.
  destruct (async_step_deye (fun _ => text "<object>") (fun _ => Ok tt) (Some deye_input)
              (steady_world (token_reply (PStr (text "tok-1")))))
    as [[step_id errors|title data] w'] eqn:Hstep.
  - exfalso. vm_compute in Hstep. discriminate Hstep.
  - assert (Hnodup : NoDup (dict_keys deye_input))
      by (repeat constructor; cbn; intuition discriminate).
    destruct (direct_step_entry (fun _ => text "<object>") (fun _ => Ok tt) deye_input
                _ w' title data Hnodup Hstep)
      as [req [uid [resp [token [serial [Hreq [Htimeout _]]]]]]].
    exists req. split; [exact Hreq|exact Htimeout].
Defined.

(** ** The coercions away from [null] *)


